(** * Scan-and-decide pipeline of the arbitrage bot: model and properties

    The development follows the Python sources file by file:
    - [Py]           the fragment of Python's dynamic semantics the code uses
                     (exceptions, [min]/[max], [int()], list indexing, [bisect]);
    - [LutRuntime]   lut_runtime_v2.py  (the sizing grid lookup);
    - [AnkrReserves] ankr_reserves.py   (batched getReserves fetcher);
    - [Bot]          arbitrage_bot.py   (AMM model, evaluator, calldata tail,
                     CREATE2 derivation), with the constants of config.py.

    Numbers.  Python [float] and [int] values that take part in arithmetic are
    modelled by exact rationals [Q]; integer "wei" amounts that the code obtains
    through [int(...)] are [Z].  Rounding of binary floating point is not
    modelled: every statement below is about the exact-arithmetic reading of
    the formulas the code evaluates. *)

From Stdlib Require Import QArith Qround Qabs ZArith List Lia Lqa Bool Ascii String.
From Stdlib Require Strings.Byte.
From stdpp Require Import gmap strings list fin_maps.
From Equations Require Import Equations.
Import ListNotations.

Set Default Proof Using "Type".
Set Warnings "-register-all".

(* ===================================================================== *)
(** * Part I: the model                                                   *)
(* ===================================================================== *)

(** ** Python values and exceptions *)

Module Py.

(** The exception classes that the modelled code can raise. *)
Inductive exn : Type :=
| IndexError
| ZeroDivisionError
| AttributeError
| TypeError
| ValueError
| TimeoutError
| OtherError (msg : string).

(** A computation either returns or raises. *)
Inductive result (A : Type) : Type :=
| Val (a : A)
| Raise (e : exn).
Arguments Val {A} a.
Arguments Raise {A} e.

Definition bind {A B} (m : result A) (k : A -> result B) : result B :=
  match m with
  | Val a => k a
  | Raise e => Raise e
  end.

Definition is_val {A} (m : result A) : bool :=
  match m with Val _ => true | Raise _ => false end.

(** [a < b], [a > b], [a != b] on numbers. *)
Definition Qlt_bool (a b : Q) : bool := negb (Qle_bool b a).
Definition Qgt_bool (a b : Q) : bool := Qlt_bool b a.
Definition Qne_bool (a b : Q) : bool := negb (Qeq_bool a b).

(** [a / b]: true division, raising on a zero divisor. *)
Definition div (a b : Q) : result Q :=
  if Qeq_bool b 0 then Raise ZeroDivisionError else Val (a / b)%Q.

(** [min(a, b)] and [max(a, b)] keep the first argument unless the second
    is strictly smaller (resp. larger). *)
Definition min (a b : Q) : Q := if Qlt_bool b a then b else a.
Definition max (a b : Q) : Q := if Qgt_bool b a then b else a.

(** [int(x)] on a number: truncation towards zero. *)
Definition int (x : Q) : Z := Z.quot (Qnum x) (Zpos (Qden x)).

(** [10 ** d] for an integer [d] (a float when [d] is negative). *)
Definition pow10 (d : Z) : Q := Qpower 10 d.

(** [l[i]] for a non-negative index and [l[-1]]. *)
Definition index {A} (l : list A) (i : nat) : result A :=
  match nth_error l i with
  | Some a => Val a
  | None => Raise IndexError
  end.

Definition last {A} (l : list A) : result A :=
  match l with
  | [] => Raise IndexError
  | _ :: _ => index l (length l - 1)
  end.

(** [bisect.bisect_right(a, x)]: the library's binary search,
    [lo, hi = 0, len(a)]; while [lo < hi]: [mid = (lo+hi)//2];
    if [x < a[mid]] then [hi = mid] else [lo = mid + 1]; return [lo]. *)
Equations? bisect_loop (a : list Q) (x : Q) (lo hi : nat) : nat
  by wf (hi - lo)%nat lt :=
  bisect_loop a x lo hi with lt_dec lo hi => {
    | right _ := lo
    | left _ with Qlt_bool x (nth ((lo + hi) / 2) a 0%Q) => {
        | true := bisect_loop a x lo ((lo + hi) / 2)
        | false := bisect_loop a x (S ((lo + hi) / 2)) hi } }.
Proof.
  all: change (Nat.divmod (lo + hi) 1 0 1).1 with ((lo + hi) / 2)%nat;
    pose proof (Nat.div_mod_eq (lo + hi) 2) as E;
    pose proof (Nat.mod_upper_bound (lo + hi) 2 ltac:(lia)); lia.
Qed.

Definition bisect_right (a : list Q) (x : Q) : nat :=
  bisect_loop a x 0 (length a).

(** [s.lower()] on ASCII text. *)
Definition lower_ascii (c : ascii) : ascii :=
  let n := nat_of_ascii c in
  if ((65 <=? n) && (n <=? 90))%nat then ascii_of_nat (n + 32) else c.

Fixpoint lower (s : string) : string :=
  match s with
  | EmptyString => EmptyString
  | String c s' => String (lower_ascii c) (lower s')
  end.

End Py.

Notation "'let*' x ':=' m 'in' k" := (Py.bind m (fun x => k))
  (at level 10, x name, m at level 100, k at level 200).

(* ===================================================================== *)
(** ** lut_runtime_v2.py *)

Module LutRuntime.
Import Py.

(** The JSON document of the sizing grid. *)
Record lut : Type := {
  s_grid : list Q;
  r_grid : list Q;
  g : list (list Q)
}.

Definition _interp1 (x_grid y_grid : list Q) (x : Q) : result Q :=
  let* x_first := index x_grid 0 in
  if Qle_bool x x_first then index y_grid 0 else
  let* x_last := last x_grid in
  if Qle_bool x_last x then last y_grid else
  let k := (bisect_right x_grid x - 1)%nat in
  let* x0 := index x_grid k in
  let* x1 := index x_grid (k + 1) in
  let* y0 := index y_grid k in
  let* y1 := index y_grid (k + 1) in
  let* t := (if Qne_bool x1 x0 then div (x - x0) (x1 - x0) else Val 0%Q) in
  Val (y0 + t * (y1 - y0))%Q.

(** The three-way branch of [_interp2] that picks the two rows and the
    weight between them. *)
Definition _interp2_rows (s_grid : list Q) (s : Q) : result (nat * nat * Q) :=
  let* s_first := index s_grid 0 in
  if Qle_bool s s_first then Val (0%nat, 0%nat, 0%Q) else
  let* s_last := last s_grid in
  if Qle_bool s_last s
  then Val ((length s_grid - 1)%nat, (length s_grid - 1)%nat, 0%Q) else
  let i0 := (bisect_right s_grid s - 1)%nat in
  let i1 := (i0 + 1)%nat in
  let* s0 := index s_grid i0 in
  let* s1 := index s_grid i1 in
  let* ts := (if Qne_bool s1 s0 then div (s - s0) (s1 - s0) else Val 0%Q) in
  Val (i0, i1, ts).

Definition _interp2 (s_grid r_grid : list Q) (G : list (list Q)) (s r : Q)
  : result Q :=
  let* rows := _interp2_rows s_grid s in
  let '(i0, i1, ts) := rows in
  let* row0 := index G i0 in
  let* row1 := index G i1 in
  let* g0 := _interp1 r_grid row0 r in
  let* g1 := _interp1 r_grid row1 r in
  Val (g0 + ts * (g1 - g0))%Q.

Definition size_from_lut (lut : lut) (s b1 b2 : Q) : result Q :=
  let L := min b1 b2 in
  if Qle_bool L 0 then Val 0%Q else
  let* r := (if Qgt_bool b1 0 then div b2 b1 else Val 0%Q) in
  let* g := _interp2 (s_grid lut) (r_grid lut) (g lut) s r in
  Val (L * max 0 g)%Q.

End LutRuntime.

(** ** What the grid lookup is meant to compute *)

Module LutSpec.
Import Py LutRuntime.
Open Scope Q_scope.

(** The invariants of the grid file, with the axes non-empty. *)
Definition well_formed (l : lut) : bool :=
  negb (Nat.eqb (length (s_grid l)) 0)
  && negb (Nat.eqb (length (r_grid l)) 0)
  && Nat.eqb (length (g l)) (length (s_grid l))
  && forallb (fun row => Nat.eqb (length row) (length (r_grid l))) (g l).

Definition at_ (l : list Q) (i : nat) : Q := nth i l 0.
Definition last_ (l : list Q) : Q := nth (length l - 1) l 0.

(** Linear interpolation of [ys] over [xs] at [x], clamped at both ends. *)
Definition clamped_linear (xs ys : list Q) (x v : Q) : Prop :=
  (x <= at_ xs 0 /\ v = at_ ys 0)
  \/ (at_ xs 0 < x /\ last_ xs <= x /\ v = last_ ys)
  \/ (at_ xs 0 < x /\ x < last_ xs /\
      exists k : nat,
        (k + 1 < length xs)%nat /\ at_ xs k <= x /\ x < at_ xs (k + 1) /\
        v == at_ ys k
             + (x - at_ xs k) / (at_ xs (k + 1) - at_ xs k)
               * (at_ ys (k + 1) - at_ ys k)).

(** The two rows between which [s] falls and the weight of the second,
    clamped at both ends of [xs]. *)
Definition clamped_rows (xs : list Q) (s : Q) (i0 i1 : nat) (ts : Q) : Prop :=
  (s <= at_ xs 0 /\ i0 = 0%nat /\ i1 = 0%nat /\ ts = 0)
  \/ (at_ xs 0 < s /\ last_ xs <= s /\
      i0 = (length xs - 1)%nat /\ i1 = (length xs - 1)%nat /\ ts = 0)
  \/ (at_ xs 0 < s /\ s < last_ xs /\
      (i1 < length xs)%nat /\ i1 = (i0 + 1)%nat /\
      at_ xs i0 <= s /\ s < at_ xs i1 /\
      ts == (s - at_ xs i0) / (at_ xs i1 - at_ xs i0)).

(** Bilinear interpolation of the table over [(s_grid, r_grid)] at [(s, r)]
    with end-clamping on both axes: interpolate each of the two rows over
    [r], then between the rows over [s]. *)
Definition clamped_bilinear (l : lut) (s r v : Q) : Prop :=
  exists (i0 i1 : nat) (ts g0 g1 : Q),
    clamped_rows (s_grid l) s i0 i1 ts
    /\ clamped_linear (r_grid l) (nth i0 (g l) []) r g0
    /\ clamped_linear (r_grid l) (nth i1 (g l) []) r g1
    /\ v == g0 + ts * (g1 - g0).

End LutSpec.

(* ===================================================================== *)
(** ** ankr_reserves.py *)

Module AnkrReserves.
Import Py.

(** *** JSON values as [response.json()] delivers them *)

Inductive json : Type :=
| JNull
| JBool (b : bool)
| JNum (z : Z)
| JStr (s : string)
| JList (l : list json)
| JDict (fields : list (string * json)).

(** [bool(v)]. *)
Definition truthy (v : json) : bool :=
  match v with
  | JNull => false
  | JBool b => b
  | JNum z => negb (z =? 0)%Z
  | JStr s => negb (String.eqb s "")
  | JList l => match l with [] => false | _ => true end
  | JDict f => match f with [] => false | _ => true end
  end.

(** [len(v)]. *)
Definition len (v : json) : result nat :=
  match v with
  | JStr s => Val (String.length s)
  | JList l => Val (length l)
  | JDict f => Val (length f)
  | _ => Raise TypeError
  end.

(** [needle in hay] on strings. *)
Fixpoint str_in (needle hay : string) : bool :=
  String.prefix needle hay ||
  match hay with
  | EmptyString => false
  | String _ hay' => str_in needle hay'
  end.

Fixpoint dict_get (key : string) (fields : list (string * json)) : option json :=
  match fields with
  | [] => None
  | (k, v) :: rest =>
      (* a later duplicate key overrides an earlier one in a parsed object *)
      match dict_get key rest with
      | Some v' => Some v'
      | None => if String.eqb k key then Some v else None
      end
  end.

Definition is_str (key : string) (v : json) : bool :=
  match v with JStr s => String.eqb s key | _ => false end.

(** ["result" in v]. *)
Definition contains (key : string) (v : json) : result bool :=
  match v with
  | JDict f => Val (match dict_get key f with Some _ => true | None => false end)
  | JList l => Val (existsb (is_str key) l)
  | JStr s => Val (str_in key s)
  | _ => Raise TypeError
  end.

(** [v["result"]]: only an object can be subscripted by a string. *)
Definition subscript (key : string) (v : json) : result json :=
  match v with
  | JDict f => match dict_get key f with
               | Some x => Val x
               | None => Raise (OtherError "KeyError")
               end
  | _ => Raise TypeError
  end.

(** *** [int(text, 16)] *)

Definition hex_digit (c : ascii) : option Z :=
  let n := Z.of_nat (nat_of_ascii c) in
  if ((48 <=? n) && (n <=? 57))%Z then Some (n - 48)%Z
  else if ((97 <=? n) && (n <=? 102))%Z then Some (n - 87)%Z
  else if ((65 <=? n) && (n <=? 70))%Z then Some (n - 55)%Z
  else None.

Definition is_space (c : ascii) : bool :=
  let n := nat_of_ascii c in
  ((n =? 32) || ((9 <=? n) && (n <=? 13)) || ((28 <=? n) && (n <=? 31)))%nat.

Fixpoint lstrip (s : string) : string :=
  match s with
  | String c s' => if is_space c then lstrip s' else s
  | EmptyString => EmptyString
  end.

Fixpoint rstrip (s : string) : string :=
  match s with
  | EmptyString => EmptyString
  | String c s' =>
      match rstrip s' with
      | EmptyString => if is_space c then EmptyString else String c EmptyString
      | t => String c t
      end
  end.

(** Digits with single underscores between them; [prev_digit] tells whether
    the previous character was a digit, [acc] is the value read so far. *)
Fixpoint hex_digits (s : string) (prev_digit : bool) (acc : Z) : option Z :=
  match s with
  | EmptyString => if prev_digit then Some acc else None
  | String c s' =>
      match hex_digit c with
      | Some d => hex_digits s' true (16 * acc + d)%Z
      | None =>
          if (Ascii.eqb c "_" && prev_digit)%bool
          then hex_digits s' false acc else None
      end
  end.

Definition strip_0x (s : string) : string :=
  match s with
  | String "0" (String x rest) =>
      if (Ascii.eqb x "x" || Ascii.eqb x "X")%bool
      then match rest with
           | String "_" rest' => rest'
           | _ => rest
           end
      else s
  | _ => s
  end.

Definition int16 (text : string) : result Z :=
  let t := rstrip (lstrip text) in
  let '(neg, body) :=
    match t with
    | String "-" b => (true, b)
    | String "+" b => (false, b)
    | _ => (false, t)
    end in
  match hex_digits (strip_0x body) false 0 with
  | Some v => Val (if neg then (- v)%Z else v)
  | None => Raise ValueError
  end.

(** [data[i:j]] on a string, for [0 <= i <= j]. *)
Definition slice (s : string) (i j : nat) : string :=
  String.substring i (Nat.min j (String.length s) - i) s.

(** *** [get_reserves_batch] *)

(** One value of [reserves_map]. *)
Record reserves : Type := {
  reserve0 : Z;
  reserve1 : Z;
  token0 : option string;
  token1 : option string
}.

(** What the awaited HTTP round trip of one call does: creating the session
    may fail before the [try], the POST may time out or fail, or a JSON
    document comes back. *)
Inductive outcome : Type :=
| SessionFails (e : exn)
| PostFails (e : exn)
| Json (results : json).

(** [int(data[i:j], 16) if len(data) >= j else 0]. *)
Definition word (data : json) (i j : nat) : result Z :=
  let* n := len data in
  if (j <=? n)%nat then
    match data with
    | JStr s => int16 (slice s i j)
    | _ => Raise TypeError
    end
  else Val 0%Z.

(** The body of the loop for position [i]: the entry to store, if any. *)
Definition parse_at (results : list json) (i : nat) : result (option reserves) :=
  match nth_error results i with
  | None => Val None
  | Some r =>
      let* has := contains "result" r in
      if has then
        let* data := subscript "result" r in
        if truthy data && negb (is_str "0x" data) then
          let* r0 := word data 2 66 in
          let* r1 := word data 66 130 in
          Val (Some {| reserve0 := r0; reserve1 := r1;
                       token0 := None; token1 := None |})
        else Val None
      else Val None
  end.

(** [for i, pair_address in enumerate(pairs)], started at position [i]; an
    exception leaves the loop and the handler returns the map built so far. *)
Fixpoint parse_loop (results : list json) (i : nat) (pairs : list string)
    (reserves_map : gmap string reserves) : gmap string reserves :=
  match pairs with
  | [] => reserves_map
  | pair_address :: rest =>
      match parse_at results i with
      | Raise _ => reserves_map
      | Val None => parse_loop results (S i) rest reserves_map
      | Val (Some entry) =>
          parse_loop results (S i) rest (<[pair_address := entry]> reserves_map)
      end
  end.

Definition get_reserves_batch (net : outcome) (pairs : list string)
  : result (gmap string reserves) :=
  match pairs with
  | [] => Val ∅
  | _ =>
      match net with
      | SessionFails e => Raise e
      | PostFails _ => Val ∅
      | Json (JList results) => Val (parse_loop results 0 pairs ∅)
      | Json _ => Val ∅
      end
  end.

(** *** [_process_batch_with_retry] *)

(** Every invocation of [_process_batch_with_retry] awaits exactly one
    [get_reserves_batch].  An invocation is named by its place in the call
    tree; the network is a function from that place and the batch sent to
    what comes back, so that no assumption is made on how the replies to
    concurrently running halves interleave. *)
Inductive step : Type :=
| Batch (n : nat)
| SplitLeft
| SplitRight
| Retry.

Definition place : Type := list step.
Definition network : Type := place -> list string -> outcome.

(** One invocation: where, with which batch, at which [retry_count]. *)
Record call : Type := {
  call_place : place;
  call_batch : list string;
  call_retry_count : nat
}.

Definition MAX_RETRIES : nat := 3.
Definition MIN_BATCH_SIZE : nat := 2.

(** [str(e).lower()] mentions a rate limit. *)
Definition exn_str (e : exn) : string :=
  match e with OtherError msg => msg | _ => "" end.

Definition is_rate_limit (e : exn) : bool :=
  let error_str := lower (exn_str e) in
  str_in "rate limit" error_str || str_in "too many" error_str
  || str_in "429" error_str.

Definition retried (e : exn) : bool :=
  match e with
  | TimeoutError => true
  | _ => is_rate_limit e
  end.

Equations? _process_batch_with_retry (net : network) (here : place)
    (batch : list string) (retry_count : nat)
    : gmap string reserves * list call
    by wf (MAX_RETRIES - retry_count)%nat lt :=
  _process_batch_with_retry net here batch retry_count
    with get_reserves_batch (net here batch) batch => {
    | Val result with decide (result = ∅) => {
        | right _ := (result, [Build_call here batch retry_count])
        | left _ with (MIN_BATCH_SIZE <? length batch)%nat,
                      lt_dec retry_count MAX_RETRIES => {
            | true, left _ :=
                let mid := (length batch / 2)%nat in
                let left_batch := take mid batch in
                let right_batch := drop mid batch in
                let left_task :=
                  _process_batch_with_retry net (here ++ [SplitLeft])
                                            left_batch (retry_count + 1) in
                let right_task :=
                  _process_batch_with_retry net (here ++ [SplitRight])
                                            right_batch (retry_count + 1) in
                (right_task.1 ∪ left_task.1,
                 Build_call here batch retry_count
                   :: left_task.2 ++ right_task.2)
            | _, _ := (∅, [Build_call here batch retry_count]) } }
    | Raise e with lt_dec retry_count MAX_RETRIES => {
        | left _ :=
            if retried e then
              let again :=
                _process_batch_with_retry net (here ++ [Retry])
                                          batch (retry_count + 1) in
              (again.1, Build_call here batch retry_count :: again.2)
            else (∅, [Build_call here batch retry_count])
        | right _ := (∅, [Build_call here batch retry_count]) } }.
Proof. all: unfold MAX_RETRIES in *; lia. Qed.

(** *** [get_reserves_many] *)

Definition BATCH_SIZE : nat := 30.

(** [list(set(pairs))]: the distinct addresses, in the set's own order. *)
Definition unique (pairs : list string) : list string :=
  elements (list_to_set pairs : gset string).

(** [unique_pairs[i:i + BATCH_SIZE] for i in range(0, len, BATCH_SIZE)]. *)
Definition batches_of (unique_pairs : list string) : list (list string) :=
  let n_batches := ((length unique_pairs + BATCH_SIZE - 1) / BATCH_SIZE)%nat in
  map (fun n => take BATCH_SIZE (drop (n * BATCH_SIZE) unique_pairs))
      (seq 0 n_batches).

(** With [CONCURRENCY = 1] the groups are single batches, awaited one after
    the other; [all_reserves.update(result)] lets a later batch override. *)
Fixpoint gather_batches (net : network) (n : nat) (batches : list (list string))
    (all_reserves : gmap string reserves) : gmap string reserves :=
  match batches with
  | [] => all_reserves
  | batch :: rest =>
      let result := (_process_batch_with_retry net [Batch n] batch 0).1 in
      gather_batches net (S n) rest (result ∪ all_reserves)
  end.

Definition as_tuple (data : reserves) : Z * Z * option string * option string :=
  (reserve0 data, reserve1 data, token0 data, token1 data).

Definition get_reserves_many (net : network) (pairs : list string)
  : gmap string (Z * Z * option string * option string) :=
  match pairs with
  | [] => ∅
  | _ =>
      let unique_pairs := unique pairs in
      let all_reserves := gather_batches net 0 (batches_of unique_pairs) ∅ in
      as_tuple <$> all_reserves
  end.

End AnkrReserves.

(* ===================================================================== *)
(** ** config.py *)

Module Config.
Import Py.
Open Scope Q_scope.

(** The options of config.py that the modelled code reads. *)
Record config : Type := {
  MIN_PROFIT_USD : Q;
  MIN_LIQUIDITY_USD : Q;
  MIN_SPREAD_PERCENT : Q;
  DEX_FEES : list (string * Q);
  DEX_FEES_default : Q;
  FLASH_LOAN_FEES : list (string * Q);
  FLASH_LOAN_FEES_default : Q;
  (** [DEX_CONFIG[name]['type']] *)
  DEX_TYPES : list (string * string);
  (** [DEX_CONFIG[name]['router']], ['factory'], ['init_code_pair_hash'],
      for the names that have the key *)
  DEX_ROUTERS : list (string * string);
  DEX_FACTORIES : list (string * string);
  DEX_INIT_CODE_PAIR_HASHES : list (string * string);
  (** keyed by lower-case address *)
  BASE_TOKEN_USD_PRICES : list (string * Q)
}.

(** [d.get(key)] on a dictionary literal. *)
Fixpoint lookup {A} (key : string) (d : list (string * A)) : option A :=
  match d with
  | [] => None
  | (k, v) :: rest => if String.eqb k key then Some v else lookup key rest
  end.

Definition get_or {A} (key : string) (d : list (string * A)) (default : A) : A :=
  match lookup key d with Some v => v | None => default end.

Definition get_dex_fee (cfg : config) (dex_name : string) : Q :=
  get_or (lower dex_name) (DEX_FEES cfg) (DEX_FEES_default cfg).

(** [get_flash_loan_fee()] with its default provider ["aave"]. *)
Definition get_flash_loan_fee (cfg : config) : Q :=
  get_or (lower "aave") (FLASH_LOAN_FEES cfg) (FLASH_LOAN_FEES_default cfg).

(** The values the repository ships. *)
Definition shipped : config := {|
  MIN_PROFIT_USD := -1;
  MIN_LIQUIDITY_USD := 500;
  MIN_SPREAD_PERCENT := 75 # 100;
  DEX_FEES := [("uniswap", 3 # 10); ("uniswap_v3", 3 # 10);
               ("sushiswap", 3 # 10); ("quickswap", 3 # 10);
               ("pancakeswap", 25 # 100)];
  DEX_FEES_default := 3 # 10;
  FLASH_LOAN_FEES := [("aave", 5 # 100); ("balancer", 0)];
  FLASH_LOAN_FEES_default := 5 # 100;
  DEX_TYPES := [("quickswap", "V2"); ("sushiswap", "V2"); ("apeswap", "V2");
                ("jetswap", "V2"); ("dfyn", "V2"); ("uniswap", "V2");
                ("polycat", "V2"); ("waultswap", "V2");
                ("gravityfinance", "V2"); ("dystopia", "V2");
                ("balancer", "BALANCER")];
  DEX_ROUTERS :=
    [("quickswap", "0xa5E0829CaCEd8fFDD4De3c43696c57F7D7A678ff");
     ("sushiswap", "0x1b02dA8Cb0d097eB8D57A175b88c7D8b47997506");
     ("apeswap", "0xC0788A3aD43d79aa53B09c2EaCc313A787d1d607");
     ("jetswap", "0x5C6EC38fb0e2609672BDf628B1fD605A523E5923");
     ("dfyn", "0xA102072A4C07F06EC3B4900FDC4C7B80b6c57429");
     ("uniswap", "0xa5E0829CaCEd8fFDD4De3c43696c57F7D7A678ff");
     ("polycat", "0x94930a328162957FF1dd48900aF67B5439336cBD");
     ("waultswap", "0x3a1D87f206D12415f5b0A33E80c3f8B7b0b6d4e8");
     ("gravityfinance", "0x57dE98135e8287F163c59cA4fF45f1341b680248");
     ("dystopia", "0xbE75Dd16D029c6B32B7aD57A0FD9C1c20Dd2862e");
     ("balancer", "0xBA12222222228d8Ba445958a75a0704d566BF2C8")];
  DEX_FACTORIES :=
    [("quickswap", "0x5757371414417b8C6CAad45bAeF941aBc7d3Ab32");
     ("sushiswap", "0xc35DADB65012eC5796536bD9864eD8773aBc74C4");
     ("apeswap", "0x0841BD0B734E4F5853f0dD8d7Ea041c241fb0Da6");
     ("jetswap", "0x668ad0ed2622C62E24f0d5ab6B6Ac1b9D2cD4AC7");
     ("dfyn", "0xE7Fb3e833eFE5F9c441105EB65Ef8b261266423B");
     ("uniswap", "0x5757371414417b8C6CAad45bAeF941aBc7d3Ab32");
     ("polycat", "0x477Ce834Ae6b7aB003cCe4BC4d8697763FF456FA");
     ("waultswap", "0xa98ea6356A316b44Bf710D5f9b6b4eA0081409Ef");
     ("gravityfinance", "0x3EdAB7c8E32DEEa3Bd0172994D9aBD8524147d97");
     ("dystopia", "0x1d21Db6cde1b18c7E47B0F7F42f4b3F68b9c2176");
     ("balancer", "0xBA12222222228d8Ba445958a75a0704d566BF2C8")];
  DEX_INIT_CODE_PAIR_HASHES :=
    [("quickswap",
      "0x96e8ac4277198ff8b6f785478aa9a39f403cb768dd02cbee326c3e7da348845f");
     ("sushiswap",
      "0xe18a34eb0e04b04f7a0ac29a6e80748dca96319b42c54d679cb821dca90c6303");
     ("apeswap",
      "0xf4b8a02d292b184779b6e4125cd0695b98935efa81e7dd7d0a9c839de1e5b3bd");
     ("jetswap",
      "0x505c843b83f01afef714149e8b174427d552e1aca4834b4f9b4b525f426ff3c6");
     ("dfyn",
      "0xf187ed688403aa4f7acfada758d8d53698753b998a3071b06f1b777f4330eaf3");
     ("uniswap",
      "0x96e8ac4277198ff8b6f785478aa9a39f403cb768dd02cbee326c3e7da348845f");
     ("polycat",
      "0x3cad6f9e70e13835b4f07e5dd475f25a109450b22811d0437da51e66c161255a");
     ("waultswap",
      "0x1cdc2246d318ab84d8bc7ae2a3d81c235f3db4e113f4c6fdc1e2211a9291be47");
     ("gravityfinance",
      "0x83c95f826db1583ef6603bb6e619ebaa4d3602086f6b929dd37f37a1ad730db5");
     ("dystopia",
      "0x009bce6e57e441e02b7e9cb40e4e40c1410a57ac793c7c256c0c1e62a43e6ca2")];
  BASE_TOKEN_USD_PRICES :=
    [("0x2791bca1f2de4661ed88a30c99a7a9449aa84174", 1);
     ("0x3c499c542cef5e3811e1192ce70d8cc03d5c3359", 1);
     ("0xc2132d05d31c914a87c6611c10748aeb04b58e8f", 1);
     ("0x8f3cf7ad23cd3cadbd9735aff958023239c6a063", 1);
     ("0x0d500b1d8e8ef31e21c99d1db9a6444d3adf1270", 1 # 2);
     ("0x7ceb23fd6bc0add59e62ac25578270cff1b9f619", 2300);
     ("0x1bfd67037b42cf73acf2047067bd4f2c47d9bfd6", 58000);
     ("0xd6df932a45c0f255f85145f286ea0b292b21c90b", 85)]
|}.

End Config.

(* ===================================================================== *)
(** ** arbitrage_bot.py *)

Module Bot.
Import Py Config.
Open Scope Q_scope.

(** *** [calculate_price_impact_amm] *)

Definition calculate_price_impact_amm
    (amount_in reserve_in reserve_out fee_percent : Q) : result (Q * Q) :=
  if Qle_bool reserve_in 0 || Qle_bool reserve_out 0 || Qle_bool amount_in 0
  then Val (0, 0) else
  let* original_price := div reserve_out reserve_in in
  let fee_multiplier := 1 - (fee_percent / 100) in
  let amount_in_with_fee := amount_in * fee_multiplier in
  let* amount_out :=
    div (amount_in_with_fee * reserve_out) (reserve_in + amount_in_with_fee) in
  let* actual_price := div amount_out amount_in in
  let* ratio := div (original_price - actual_price) original_price in
  let price_impact := ratio * 100 in
  Val (amount_out, price_impact).

(** *** The tail of [prepare_universal_params]: [min_amount_out]

    From the quoted output of the second swap ([base_out_dec], in base-token
    units) and the loan, the code derives the [minFinalOutput] word of the
    executor parameters, or abandons the opportunity ([return None]). *)
Definition min_amount_out (cfg : config)
    (base_out_dec : Q) (base_decimals : Z) (loan_amount : Z) : option Z :=
  let flash_loan_fee_amount :=
    int (inject_Z loan_amount * get_flash_loan_fee cfg / 100) in
  let expected_out_wei := int (base_out_dec * pow10 base_decimals) in
  let required_repay := (loan_amount + flash_loan_fee_amount)%Z in
  if (expected_out_wei <=? required_repay)%Z then None else
  let slippage := 5 # 1000 in
  let min_amount_out := int (inject_Z expected_out_wei * (1 - slippage)) in
  if (min_amount_out <? required_repay)%Z
  then Some (required_repay + 1)%Z
  else Some min_amount_out.

(** *** [compute_pair_address_create2] *)

Section Create2.

(** [eth_utils.keccak] on bytes. *)
Variable keccak : list Init.Byte.byte -> list Init.Byte.byte.

Definition hex_char (n : nat) : ascii :=
  if (n <? 10)%nat then ascii_of_nat (48 + n) else ascii_of_nat (87 + n).

(** [b.hex()] *)
Fixpoint hex (b : list Init.Byte.byte) : string :=
  match b with
  | [] => EmptyString
  | x :: rest =>
      let n := Strings.Byte.to_nat x in
      String (hex_char (n / 16)) (String (hex_char (n mod 16)) (hex rest))
  end.

(** [bytes.fromhex(text)] for text without blanks. *)
Fixpoint fromhex (text : string) : result (list Init.Byte.byte) :=
  match text with
  | EmptyString => Val []
  | String hi (String lo rest) =>
      match AnkrReserves.hex_digit hi, AnkrReserves.hex_digit lo with
      | Some h, Some l =>
          let* tail := fromhex rest in
          Val (byte_of_ascii (ascii_of_nat (Z.to_nat (16 * h + l))) :: tail)
      | _, _ => Raise ValueError
      end
  | String _ EmptyString => Raise ValueError
  end.

(** [text.encode()] for ASCII text. *)
Fixpoint encode_text (text : string) : list Init.Byte.byte :=
  match text with
  | EmptyString => []
  | String c rest => byte_of_ascii c :: encode_text rest
  end.

(** [x[2:] if x.startswith('0x') else x] *)
Definition clean (x : string) : string :=
  match x with
  | String "0" (String "x" rest) => rest
  | _ => x
  end.

Fixpoint all_hex (text : string) : bool :=
  match text with
  | EmptyString => true
  | String c rest =>
      match AnkrReserves.hex_digit c with
      | Some _ => all_hex rest
      | None => false
      end
  end.

(** EIP-55 capitalisation of the 40 digits against the digits of the hash. *)
Fixpoint checksum_case (digits hash : string) : string :=
  match digits, hash with
  | String c rest, String h hrest =>
      let up :=
        match AnkrReserves.hex_digit h with
        | Some v => (7 <? v)%Z
        | None => false
        end in
      let n := nat_of_ascii c in
      let c' := if up && (97 <=? n)%nat && (n <=? 122)%nat
                then ascii_of_nat (n - 32) else c in
      String c' (checksum_case rest hrest)
  | _, _ => digits
  end.

(** [Web3.to_checksum_address]: the text is lower-cased, must be 40
    hexadecimal digits after an optional [0x], and is re-capitalised. *)
Definition to_checksum_address (value : string) : result string :=
  let digits := clean (lower value) in
  if (String.length digits =? 40)%nat && all_hex digits then
    let address_hash := hex (keccak (encode_text digits)) in
    Val ("0x" ++ checksum_case digits address_hash)%string
  else Raise ValueError.

(** [eth_abi.encode(['address', 'address'], [a, b])]: each address left-padded
    to a 32-byte word. *)
Definition encode_address (a : string) : result (list Init.Byte.byte) :=
  let* raw := fromhex (clean (lower a)) in
  Val (repeat Init.Byte.x00 12 ++ raw).

Definition encode_address_pair (a b : string) : result (list Init.Byte.byte) :=
  let* wa := encode_address a in
  let* wb := encode_address b in
  Val (wa ++ wb).

(** [a > b] on text: code-point order. *)
Definition str_gt (a b : string) : bool := String.ltb b a.

Definition compute_pair_address_create2
    (factory token0 token1 init_code_hash : string) : result string :=
  let '(token0, token1) :=
    if str_gt (lower token0) (lower token1)
    then (token1, token0) else (token0, token1) in
  let factory_clean := clean factory in
  let init_code_clean := clean init_code_hash in
  let* c0 := to_checksum_address token0 in
  let* c1 := to_checksum_address token1 in
  let* encoded := encode_address_pair c0 c1 in
  let salt := hex (keccak encoded) in
  let data := ("ff" ++ factory_clean ++ salt ++ init_code_clean)%string in
  let* preimage := fromhex data in
  let raw_address := hex (drop 12 (keccak preimage)) in
  to_checksum_address ("0x" ++ raw_address)%string.

End Create2.

(** Whether [Web3.to_checksum_address] accepts the text; the test does not
    involve the hash. *)
Definition is_address (value : string) : bool :=
  let digits := clean (lower value) in
  (String.length digits =? 40)%nat && all_hex digits.

(** *** Price and liquidity helpers *)

(** The part of the bot object that the evaluator reads. *)
Record bot : Type := {
  (** [self.lut]: the loaded grid, or [None] when loading failed *)
  lut : option LutRuntime.lut;
  (** [self.base_tokens]: address -> symbol *)
  base_tokens : list (string * string);
  (** [self.get_token_decimals] on a well-formed address: the cached or
      on-chain value, 18 when unreadable *)
  get_token_decimals : string -> Z
}.

Definition calculate_mid_price_from_reserves
    (reserve0 reserve1 token0_decimals token1_decimals : Z)
    (base_is_token0 : bool) : Q :=
  if (reserve0 =? 0)%Z || (reserve1 =? 0)%Z then 0 else
  let reserve0_normalized := inject_Z reserve0 / pow10 token0_decimals in
  let reserve1_normalized := inject_Z reserve1 / pow10 token1_decimals in
  if base_is_token0 then
    if Qeq_bool reserve1_normalized 0 then 0
    else reserve0_normalized / reserve1_normalized
  else
    if Qeq_bool reserve0_normalized 0 then 0
    else reserve1_normalized / reserve0_normalized.

Definition symbol_price (token_symbol : string) : Q :=
  if existsb (String.eqb token_symbol) ["USDC"; "USDC.e"; "USDT"; "DAI"]%string
  then 1
  else if String.eqb token_symbol "WETH" then 2500
  else if String.eqb token_symbol "WBTC" then 40000
  else if String.eqb token_symbol "WMATIC" then 9 # 10
  else if String.eqb token_symbol "AAVE" then 100
  else 0.

(** The USD price [calculate_liquidity_usd] works with. *)
Definition base_price_usd_of (cfg : config) (b : bot)
    (base_token_address : string) : Q :=
  let base_price_usd :=
    get_or (lower base_token_address) (BASE_TOKEN_USD_PRICES cfg) 0 in
  if Qeq_bool base_price_usd 0 then
    symbol_price (get_or (lower base_token_address) (base_tokens b) "")
  else base_price_usd.

Definition calculate_liquidity_usd (cfg : config) (b : bot)
    (reserve_base : Z) (base_token_address : string) (base_decimals : Z) : Q :=
  let base_price_usd := base_price_usd_of cfg b base_token_address in
  let reserve_normalized := inject_Z reserve_base / pow10 base_decimals in
  2 * reserve_normalized * base_price_usd.

(** [a.lower() == b.lower()] *)
Definition same_address (a b : string) : bool :=
  String.eqb (lower a) (lower b).

(** *** [find_optimal_trade_size] *)

(** The dictionary handed over by [find_arbitrage_opportunities]. *)
Record opportunity_data : Type := {
  od_spread : Q;
  od_buy_price : Q;
  od_sell_price : Q;
  od_buy_dex : string;
  od_sell_dex : string;
  od_buy_pair : string;
  od_sell_pair : string;
  od_base_token_address : string;
  od_trade_token_address : string;
  (** [None] is written as the empty text *)
  od_buy_router : string;
  od_sell_router : string
}.

(** What the steps of one side of the address resolution ("пробуем через
    factory") deliver when they are reached. *)
Record resolution : Type := {
  (** the CREATE2 derivation and [eth_getCode] at the derived address:
      whether code was found ([len(bytecode) > 2]), or the exception raised
      on the way *)
  create2_has_code : result bool;
  (** [get_pair_reserves(computed_pair)] *)
  create2_reserves : option AnkrReserves.reserves;
  (** [get_v2_reserves_by_router(...)]: the dictionary it returns, without
      its [pair] key; the method catches what its reads raise *)
  factory_reserves : option AnkrReserves.reserves
}.

(** The local [factory_pair_data], shared by the two sides of the resolution:
    it is unbound until a factory lookup has run. *)
Inductive binding : Type :=
| Unbound
| Bound (factory_pair_data : option AnkrReserves.reserves).

(** What the awaited reads deliver during one call, each named by its place
    in the function. *)
Record chain_reads : Type := {
  buy_is_v2 : bool;
  sell_is_v2 : bool;
  (** [self.ankr_provider] is set *)
  ankr_provider : bool;
  (** the round trip of [get_reserves_batch([buy_pair, sell_pair])] *)
  ankr_reply : AnkrReserves.outcome;
  buy_resolution : resolution;
  sell_resolution : resolution;
  (** [get_pair_reserves(buy_pair)], [get_pair_reserves(sell_pair)]: the
      direct read, [None] when it fails *)
  buy_reserves_read : option AnkrReserves.reserves;
  sell_reserves_read : option AnkrReserves.reserves;
  (** [token0()], [token1()] of the buy and of the sell pair contract; [None]
      when the call raises *)
  buy_pair_tokens : option (string * string);
  sell_pair_tokens : option (string * string)
}.

(** The function returns a 3-tuple on some paths and a 4-tuple on others. *)
Inductive sizing : Type :=
| Ret3 (optimal_size expected_profit price_impact : Q)
| Ret4 (optimal_size expected_profit price_impact : Q) (flipped : bool).

(** The statistics counter a path bumps before it returns. *)
Inductive counter : Type :=
| skip_non_v2_pair
| skip_bad_reserves_onchain
| n_low_spread_onchain
| n_low_liquidity_usd
| n_low_spread
| n_nets0
| n_nonv2.

(** State of the locals after the on-chain filter block. *)
Record locals : Type := {
  l_spread : Q;
  l_buy_reserves : option AnkrReserves.reserves;
  l_sell_reserves : option AnkrReserves.reserves;
  (** [None]: the name [flipped] is not bound *)
  l_flipped : option bool
}.

Inductive filtered : Type :=
| Returned (bumped : option counter) (r : sizing)
| Continues (st : locals).

(** [d.get('token0', '').lower()]: the key is present, its value may be [None]. *)
Definition token_lower (t : option string) : result string :=
  match t with
  | Some a => Val (lower a)
  | None => Raise AttributeError
  end.

(** [self.get_token_decimals(d.get('token0'))]: the checksum conversion rejects
    [None]. *)
Definition decimals_of (b : bot) (t : option string) : result Z :=
  match t with
  | Some a => Val (get_token_decimals b a)
  | None => Raise TypeError
  end.

Definition price_onchain (b : bot) (base_token : string)
    (r : AnkrReserves.reserves) : result Q :=
  let* t0 := token_lower (AnkrReserves.token0 r) in
  let token0_is_base := String.eqb t0 (lower base_token) in
  let* d0 := decimals_of b (AnkrReserves.token0 r) in
  let* d1 := decimals_of b (AnkrReserves.token1 r) in
  Val (calculate_mid_price_from_reserves
         (AnkrReserves.reserve0 r) (AnkrReserves.reserve1 r) d0 d1
         token0_is_base).

(** The block between the banners "ФИЛЬТР ПО ONCHAIN СПРЕДУ" and "КОНЕЦ НОВОГО
    КОДА": on-chain prices, direction fix, spread filter, liquidity filter. *)
Definition onchain_filter (cfg : config) (b : bot) (base_token : string)
    (spread : Q) (buy_reserves sell_reserves : AnkrReserves.reserves)
    : result filtered :=
  let* buy_price_onchain := price_onchain b base_token buy_reserves in
  let* sell_price_onchain := price_onchain b base_token sell_reserves in
  if Qgt_bool buy_price_onchain 0 && Qgt_bool sell_price_onchain 0 then
    let swap := Qle_bool sell_price_onchain buy_price_onchain in
    let buy_price := if swap then sell_price_onchain else buy_price_onchain in
    let sell_price := if swap then buy_price_onchain else sell_price_onchain in
    let buy_res := if swap then sell_reserves else buy_reserves in
    let sell_res := if swap then buy_reserves else sell_reserves in
    let flipped := swap in
    let spread_onchain := (sell_price - buy_price) / buy_price * 100 in
    if Qlt_bool spread_onchain (MIN_SPREAD_PERCENT cfg)
    then Val (Returned (Some n_low_spread_onchain) (Ret4 0 0 0 false)) else
    let* t0 := token_lower (AnkrReserves.token0 buy_res) in
    let base_reserve_raw :=
      if String.eqb t0 (lower base_token)
      then AnkrReserves.reserve0 buy_res else AnkrReserves.reserve1 buy_res in
    let base_decimals := get_token_decimals b base_token in
    let liquidity_usd :=
      calculate_liquidity_usd cfg b base_reserve_raw base_token base_decimals in
    if Qlt_bool liquidity_usd (MIN_LIQUIDITY_USD cfg)
    then Val (Returned (Some n_low_liquidity_usd) (Ret4 0 0 0 false)) else
    Val (Continues {| l_spread := spread_onchain / 100;
                      l_buy_reserves := Some buy_res;
                      l_sell_reserves := Some sell_res;
                      l_flipped := Some flipped |})
  else
    Val (Continues {| l_spread := spread;
                      l_buy_reserves := Some buy_reserves;
                      l_sell_reserves := Some sell_reserves;
                      l_flipped := None |}).

(** "Парсим резервы": the base reserve of one side in base-token units, from
    the pair contract's own [token0()]/[token1()]; [None] stands for the
    [return 0, 0, 0] of an address mismatch or a failed call. *)
Definition base_units (base_token : string) (base_decimals : Z)
    (reserves : option AnkrReserves.reserves)
    (pair_tokens : option (string * string)) : option Q :=
  match reserves with
  | None => Some 0
  | Some r =>
      match pair_tokens with
      | None => None
      | Some (token0, token1) =>
          if same_address token0 base_token
          then Some (inject_Z (AnkrReserves.reserve0 r) / pow10 base_decimals)
          else if same_address token1 base_token
          then Some (inject_Z (AnkrReserves.reserve1 r) / pow10 base_decimals)
          else None
      end
  end.

(** From "Проверяем валидность резервов" to the final [return]. *)
Definition size_and_profit (cfg : config) (grid : LutRuntime.lut)
    (opportunity : opportunity_data) (st : locals) (b1 b2 : Q)
    : result (option counter * sizing) :=
  if Qle_bool b1 0 || Qle_bool b2 0
  then Val (Some skip_bad_reserves_onchain, Ret3 0 0 0) else
  let MIN_RESERVE_USD := 500 in
  let base_price_usd :=
    get_or (lower (od_base_token_address opportunity))
           (BASE_TOKEN_USD_PRICES cfg) 1 in
  let* min_reserve_units := div MIN_RESERVE_USD base_price_usd in
  if Qlt_bool b1 min_reserve_units || Qlt_bool b2 min_reserve_units
  then Val (None, Ret3 0 0 0) else
  let* optimal_size := LutRuntime.size_from_lut grid (l_spread st) b1 b2 in
  let total_fees :=
    get_dex_fee cfg (od_buy_dex opportunity)
    + get_dex_fee cfg (od_sell_dex opportunity) + get_flash_loan_fee cfg in
  let net_spread := l_spread st * 100 - total_fees in
  let expected_profit :=
    if Qle_bool net_spread 0 then 0
    else optimal_size * (net_spread / 100) * base_price_usd in
  let price_impact := if Qle_bool net_spread 0 then 0 else 5 in
  let flipped_flag := match l_flipped st with Some f => f | None => false end in
  Val (None, Ret4 optimal_size expected_profit price_impact flipped_flag).

(** The spread computed at the top of the function from the prices handed
    over, rebuilt from the percentage when either price is missing. *)
Definition ds_spread (opportunity : opportunity_data) : Q :=
  let unset :=
    Qeq_bool (od_buy_price opportunity) 0
    || Qeq_bool (od_sell_price opportunity) 0 in
  let buy_price := if unset then 1 else od_buy_price opportunity in
  let sell_price :=
    if unset then 1 * (1 + od_spread opportunity / 100)
    else od_sell_price opportunity in
  (sell_price - buy_price) / buy_price.

(** The name of a local that was never assigned. *)
Definition unbound_local : exn := OtherError "UnboundLocalError".

(** ['init_code_pair_hash' in dex_config and 'factory' in dex_config] *)
Definition has_create2 (cfg : config) (dex : string) : bool :=
  match lookup dex (DEX_INIT_CODE_PAIR_HASHES cfg),
        lookup dex (DEX_FACTORIES cfg) with
  | Some _, Some _ => true
  | _, _ => false
  end.

(** One side of the resolution.  [entry] is what the batch holds for the
    pair; the block runs only when there is none.  It returns the reserves
    record of the side (still [None] when nothing was found) and the local
    [factory_pair_data] as it leaves it.  The check after the CREATE2 branch
    reads [factory_pair_data] whether or not this side has assigned it. *)
Definition resolve (cfg : config) (router dex : string)
    (opportunity : opportunity_data) (reads : resolution)
    (factory_pair_data : binding) (entry : option AnkrReserves.reserves)
    : result (option AnkrReserves.reserves * binding) :=
  match entry with
  | Some _ => Val (entry, factory_pair_data)
  | None =>
      let router :=
        if String.eqb router "" then get_or dex (DEX_ROUTERS cfg) ""%string
        else router in
      if String.eqb router "" || String.eqb dex ""
      then Val (None, factory_pair_data) else
      if negb (is_address (od_base_token_address opportunity))
         || negb (is_address (od_trade_token_address opportunity))
      then Raise ValueError else
      let* found :=
        if has_create2 cfg dex then
          let* has_code := create2_has_code reads in
          if has_code
          then Val (create2_reserves reads, factory_pair_data)
          else Val (factory_reserves reads, Bound (factory_reserves reads))
        else Val (None, Bound (factory_reserves reads)) in
      match snd found with
      | Unbound => Raise unbound_local
      | Bound (Some data) => Val (Some data, snd found)
      | Bound None => Val (fst found, snd found)
      end
  end.

(** The branch [if self.ankr_provider: ... else: ...].  With the provider:
    the batch request, the resolution of the buy and then of the sell side,
    the direct read for a side that still has no reserves, and the on-chain
    filter.  Without it the reserves are read directly and no filter runs. *)
Definition fetch_and_filter (cfg : config) (b : bot)
    (opportunity : opportunity_data) (chain : chain_reads) : result filtered :=
  if ankr_provider chain then
    let* reserves_map :=
      AnkrReserves.get_reserves_batch
        (ankr_reply chain)
        [od_buy_pair opportunity; od_sell_pair opportunity] in
    let* buy :=
      resolve cfg (od_buy_router opportunity) (od_buy_dex opportunity)
              opportunity (buy_resolution chain) Unbound
              (reserves_map !! od_buy_pair opportunity) in
    let* sell :=
      resolve cfg (od_sell_router opportunity) (od_sell_dex opportunity)
              opportunity (sell_resolution chain) (snd buy)
              (reserves_map !! od_sell_pair opportunity) in
    let buy_reserves :=
      match fst buy with
      | Some r => Some r
      | None => buy_reserves_read chain
      end in
    let sell_reserves :=
      match fst sell with
      | Some r => Some r
      | None => sell_reserves_read chain
      end in
    match buy_reserves, sell_reserves with
    | Some buy_reserves, Some sell_reserves =>
        onchain_filter cfg b (od_base_token_address opportunity)
                       (ds_spread opportunity) buy_reserves sell_reserves
    | _, _ => Val (Returned (Some skip_bad_reserves_onchain) (Ret3 0 0 0))
    end
  else
    Val (Continues {| l_spread := ds_spread opportunity;
                      l_buy_reserves := buy_reserves_read chain;
                      l_sell_reserves := sell_reserves_read chain;
                      l_flipped := None |}).

Definition find_optimal_trade_size (cfg : config) (b : bot)
    (opportunity : opportunity_data) (chain : chain_reads)
    : result (option counter * sizing) :=
  match lut b with
  | None => Val (None, Ret3 0 0 0)
  | Some grid =>
      if String.eqb (od_buy_pair opportunity) ""
         || String.eqb (od_sell_pair opportunity) ""
      then Val (Some skip_bad_reserves_onchain, Ret3 0 0 0) else
      if negb (buy_is_v2 chain) || negb (sell_is_v2 chain)
      then Val (Some skip_non_v2_pair, Ret3 0 0 0) else
      let* after := fetch_and_filter cfg b opportunity chain in
      match after with
      | Returned bumped r => Val (bumped, r)
      | Continues st =>
          let base_token := od_base_token_address opportunity in
          let base_decimals := get_token_decimals b base_token in
          match base_units base_token base_decimals
                           (l_buy_reserves st) (buy_pair_tokens chain) with
          | None => Val (None, Ret3 0 0 0)
          | Some b1 =>
              match base_units base_token base_decimals
                               (l_sell_reserves st) (sell_pair_tokens chain) with
              | None => Val (None, Ret3 0 0 0)
              | Some b2 => size_and_profit cfg grid opportunity st b1 b2
              end
          end
      end
  end.

(** *** The candidate loop of [find_arbitrage_opportunities] *)

(** One element of [token_pairs[key]]: a venue quoting the pair. *)
Record venue : Type := {
  v_symbol : string;
  v_trade_token_address : string;
  v_base_token_address : string;
  v_dex : string;
  v_pair_address : string;
  v_price : Q;
  v_liquidity : Q;
  v_router : string
}.

(** The dataclass of the same name. *)
Record ArbitrageOpportunity : Type := {
  token_symbol : string;
  token_address : string;
  quote_token_address : string;
  quote_token_symbol : string;
  buy_dex : string;
  sell_dex : string;
  buy_price : Q;
  sell_price : Q;
  spread_percent : Q;
  optimal_trade_size : Q;
  expected_profit : Q;
  buy_liquidity : Q;
  sell_liquidity : Q;
  price_impact_percent : Q;
  buy_dex_pair : string;
  sell_dex_pair : string;
  buy_router : string;
  sell_router : string
}.

Definition dex_type (cfg : config) (dex : string) : string :=
  get_or dex (DEX_TYPES cfg) "UNKNOWN"%string.

(** What one pass through the body of the inner loop leaves behind: the
    opportunity appended (if any), the counter bumped (if any), and the local
    [flipped], which survives into the next pass. *)
Record pass : Type := {
  appended : option ArbitrageOpportunity;
  bumped : option counter;
  flipped_after : option bool
}.

Definition skip (c : option counter) (flipped : option bool) : pass :=
  {| appended := None; bumped := c; flipped_after := flipped |}.

(** The dictionary built before the call.  [stale] is the value of the local
    [flipped] left by an earlier pass; the pair and token addresses are
    overwritten after either branch and so do not depend on it. *)
Definition make_opportunity_data (stale : bool) (spread : Q)
    (min_price_dex max_price_dex : venue) : opportunity_data := {|
  od_spread := spread;
  od_buy_price := if stale then v_price max_price_dex
                  else v_price min_price_dex;
  od_sell_price := if stale then v_price min_price_dex
                   else v_price max_price_dex;
  od_buy_dex := if stale then v_dex max_price_dex else v_dex min_price_dex;
  od_sell_dex := if stale then v_dex min_price_dex else v_dex max_price_dex;
  od_buy_pair := v_pair_address min_price_dex;
  od_sell_pair := v_pair_address max_price_dex;
  od_base_token_address := v_base_token_address min_price_dex;
  od_trade_token_address := v_trade_token_address min_price_dex;
  od_buy_router := if stale then v_router max_price_dex
                   else v_router min_price_dex;
  od_sell_router := if stale then v_router min_price_dex
                    else v_router max_price_dex
|}.

(** [len(result) == 4] or not. *)
Definition unpack (r : sizing) : Q * Q * Q * bool :=
  match r with
  | Ret4 s p i f => (s, p, i, f)
  | Ret3 s p i => (s, p, i, false)
  end.

(** From "Распаковываем результат" to [opportunities.append]: what the loop
    does with the tuple that came back.  [pairs_have_code] tells whether both
    [eth_getCode] reads succeed with a non-empty result. *)
Definition after_sizing (cfg : config) (base_token_symbol : string)
    (spread : Q) (min_price_dex max_price_dex : venue)
    (returned : option counter * sizing) (pairs_have_code : bool) : pass :=
  let '(optimal_size, expected_profit, price_impact, flipped) :=
    unpack (snd returned) in
  if Qeq_bool optimal_size 0 && Qeq_bool expected_profit 0
     && Qeq_bool price_impact 0
  then skip (fst returned) (Some flipped) else
  if Qle_bool optimal_size 0
  then skip (Some n_nets0) (Some flipped) else
  if Qlt_bool expected_profit (MIN_PROFIT_USD cfg)
  then skip (fst returned) (Some flipped) else
  if negb (String.eqb (v_pair_address min_price_dex) "")
     && negb (String.eqb (v_pair_address max_price_dex) "")
     && negb pairs_have_code
  then skip (fst returned) (Some flipped) else
  {| appended := Some {|
       token_symbol := v_symbol min_price_dex;
       token_address := v_trade_token_address min_price_dex;
       quote_token_address := v_base_token_address min_price_dex;
       quote_token_symbol := base_token_symbol;
       buy_dex := v_dex min_price_dex;
       sell_dex := v_dex max_price_dex;
       buy_price := v_price min_price_dex;
       sell_price := v_price max_price_dex;
       spread_percent := spread;
       optimal_trade_size := optimal_size;
       expected_profit := expected_profit;
       buy_liquidity := v_liquidity min_price_dex;
       sell_liquidity := v_liquidity max_price_dex;
       price_impact_percent := price_impact;
       buy_dex_pair := v_pair_address min_price_dex;
       sell_dex_pair := v_pair_address max_price_dex;
       buy_router := v_router min_price_dex;
       sell_router := v_router max_price_dex
     |};
     bumped := fst returned;
     flipped_after := Some flipped |}.

(** The body of [for sell_dex in valid_dexes[i+1:]] for one pair of venues.
    [flipped_before] is the local [flipped] as the previous passes left it
    ([None] while the name is unbound). *)
Definition combination (cfg : config) (b : bot) (base_token_symbol : string)
    (flipped_before : option bool) (buy_venue sell_venue : venue)
    (chain : chain_reads) (pairs_have_code : bool) : result pass :=
  if String.eqb (v_dex buy_venue) (v_dex sell_venue)
  then Val (skip None flipped_before) else
  let cheaper := Qlt_bool (v_price buy_venue) (v_price sell_venue) in
  let min_price_dex := if cheaper then buy_venue else sell_venue in
  let max_price_dex := if cheaper then sell_venue else buy_venue in
  let* ratio := div (v_price max_price_dex - v_price min_price_dex)
                    (v_price min_price_dex) in
  let spread := ratio * 100 in
  if String.eqb (v_router min_price_dex) ""
     || String.eqb (v_router max_price_dex) ""
  then Val (skip None flipped_before) else
  let buy_dex_type := dex_type cfg (v_dex min_price_dex) in
  let sell_dex_type := dex_type cfg (v_dex max_price_dex) in
  if negb (String.eqb buy_dex_type "V2") || negb (String.eqb sell_dex_type "V2")
  then Val (skip (Some n_nonv2) flipped_before) else
  let stale := match flipped_before with Some f => f | None => false end in
  let opportunity_data :=
    make_opportunity_data stale spread min_price_dex max_price_dex in
  let* returned := find_optimal_trade_size cfg b opportunity_data chain in
  Val (after_sizing cfg base_token_symbol spread min_price_dex max_price_dex
                    returned pairs_have_code).

(** *** The candidate loop of [process_v2_combos] *)

(** One line of v2_combos.jsonl. *)
Record combo : Type := {
  c_trade : string;
  c_base : string;
  c_buy_dex : string;
  c_buy_pair : string;
  c_sell_dex : string;
  c_sell_pair : string
}.

(** How one pass through the loop body ends.  No pass appends: the sizing call
    [size_from_lut(self.lut, spread, r)] supplies three arguments to a function
    of four, which raises [TypeError], and without a grid the size stays 0. *)
Inductive v2_pass : Type :=
| Skipped (bumped : option counter)
| Caught (e : exn).

(** The reserve of [base_addr] and the other reserve of one pair. *)
Definition orient (base_addr : string)
    (r : Z * Z * option string * option string) : option (Z * Z) :=
  let '(r0, r1, t0, t1) := r in
  match t0, t1 with
  | Some token0, Some token1 =>
      if String.eqb token0 "" || String.eqb token1 "" then None
      else if String.eqb (lower token0) base_addr then Some (r0, r1)
      else if String.eqb (lower token1) base_addr then Some (r1, r0)
      else None
  | _, _ => None
  end.

(** [except Exception: continue] around the loop body. *)
Definition handled (r : result v2_pass) : v2_pass :=
  match r with
  | Val p => p
  | Raise e => Caught e
  end.

(** From the prices to the end of the loop body: direction check, spread
    filter, liquidity filter, sizing. *)
Definition v2_filters (cfg : config) (b : bot) (base_addr : string)
    (buy_base_decimal buy_trade_decimal
     sell_base_decimal sell_trade_decimal : Q) : v2_pass :=
  handled (
    let* buy_price := div buy_base_decimal buy_trade_decimal in
    let* sell_price := div sell_base_decimal sell_trade_decimal in
    if Qle_bool sell_price buy_price then Val (Skipped None) else
    let* spread := div (sell_price - buy_price) buy_price in
    if Qlt_bool spread (MIN_SPREAD_PERCENT cfg / 100)
    then Val (Skipped (Some n_low_spread)) else
    let base_price_usd :=
      get_or base_addr (BASE_TOKEN_USD_PRICES cfg) 1 in
    let buy_liquidity_usd := buy_base_decimal * base_price_usd * 2 in
    let sell_liquidity_usd := sell_base_decimal * base_price_usd * 2 in
    let min_liquidity := min buy_liquidity_usd sell_liquidity_usd in
    if Qlt_bool min_liquidity (MIN_LIQUIDITY_USD cfg)
    then Val (Skipped (Some n_low_liquidity_usd)) else
    match lut b with
    | Some _ =>
        let* r := div (sell_base_decimal * buy_trade_decimal)
                      (buy_base_decimal * sell_trade_decimal) in
        (* size_from_lut(self.lut, spread, r): one argument short *)
        Raise TypeError
    | None => Val (Skipped None)
    end).

Definition process_v2_combo (cfg : config) (b : bot)
    (all_reserves : gmap string (Z * Z * option string * option string))
    (decimals_cache : string -> option Z) (c : combo) : v2_pass :=
  match all_reserves !! c_buy_pair c, all_reserves !! c_sell_pair c with
  | Some buy_reserves, Some sell_reserves =>
      if String.eqb (c_base c) "" || String.eqb (c_trade c) ""
      then Skipped None else
      let base_addr := lower (c_base c) in
      let base_decimals :=
        match decimals_cache (c_base c) with Some d => d | None => 18%Z end in
      let trade_decimals :=
        match decimals_cache (c_trade c) with Some d => d | None => 18%Z end in
      match orient base_addr buy_reserves, orient base_addr sell_reserves with
      | Some (buy_base_reserve, buy_trade_reserve),
        Some (sell_base_reserve, sell_trade_reserve) =>
          if existsb (Z.eqb 0) [buy_base_reserve; buy_trade_reserve;
                                sell_base_reserve; sell_trade_reserve]
          then Skipped (Some skip_bad_reserves_onchain) else
          v2_filters cfg b base_addr
            (inject_Z buy_base_reserve / pow10 base_decimals)
            (inject_Z buy_trade_reserve / pow10 trade_decimals)
            (inject_Z sell_base_reserve / pow10 base_decimals)
            (inject_Z sell_trade_reserve / pow10 trade_decimals)
      | _, _ => Skipped None
      end
  | _, _ => Skipped (Some skip_bad_reserves_onchain)
  end.

End Bot.


From Stdlib Require Import Qpower.

(* ===================================================================== *)
(** ** lut_runtime_v2.py: properties of a grid file *)

Module LutGrid.
Import Py LutRuntime.
Open Scope Q_scope.

(** The points of an axis grow strictly. *)
Fixpoint increasing (xs : list Q) : bool :=
  match xs with
  | a :: rest =>
      match rest with
      | b :: _ => Qlt_bool a b && increasing rest
      | [] => true
      end
  | [] => true
  end.

(** Every entry of the table lies between [lo] and [hi]. *)
Definition table_within (l : lut) (lo hi : Q) : bool :=
  forallb (forallb (fun v => Qle_bool lo v && Qle_bool v hi)) (g l).

(** Two outcomes that agree: the same number, or the same exception. *)
Definition agree (a b : result Q) : Prop :=
  match a, b with
  | Val u, Val v => u == v
  | Raise e, Raise e' => e = e'
  | _, _ => False
  end.

End LutGrid.

(* ===================================================================== *)
(** ** ankr_reserves.py: [get_decimals_many] and [_parse_reserves] *)

Module AnkrLog.
Import Py AnkrReserves.

(** Whether an invocation of [get_reserves_batch] gets as far as its POST:
    an empty batch returns before it, and so does a call whose session
    cannot be created. *)
Definition sends_request (net : network) (c : call) : bool :=
  match call_batch c with
  | [] => false
  | _ =>
      match net (call_place c) (call_batch c) with
      | SessionFails _ => false
      | PostFails _ => true
      | Json _ => true
      end
  end.

(** The invocations of a log that send a request. *)
Definition requests (net : network) (calls : list call) : list call :=
  List.filter (sends_request net) calls.

(** A place reached from [here] by halving only. *)
Definition halved_from (here : place) (c : call) : Prop :=
  exists path : place,
    call_place c = here ++ path
    /\ Forall (fun s => s = SplitLeft \/ s = SplitRight) path.

End AnkrLog.

Module AnkrDecimals.
Import Py AnkrReserves.

(** What the awaited POST of one decimals batch does: it fails (time-out,
    transport error, a body that is not JSON), or a JSON document comes
    back. *)
Inductive reply : Type :=
| Fails (e : exn)
| Replies (results : json).

(** [int(v, 16)] on a JSON value: only text can be read in a base. *)
Definition int_base16 (v : json) : result Z :=
  match v with
  | JStr s => int16 s
  | _ => Raise TypeError
  end.

(** The value stored for position [j] of a batch.  The membership test sits
    outside the inner [try], so it can raise; whatever goes wrong inside the
    inner [try] is swallowed by its bare [except] and gives 18. *)
Definition decimals_at (results : list json) (j : nat) : result Z :=
  match nth_error results j with
  | None => Val 18%Z
  | Some r =>
      let* has := contains "result" r in
      if has then
        match (let* data := subscript "result" r in int_base16 data) with
        | Val decimals => Val decimals
        | Raise _ => Val 18%Z
        end
      else Val 18%Z
  end.

(** The two dictionaries the function updates side by side: [result], keyed
    by the token as given, and [decimals_cache], keyed by its lower-case
    text. *)
Record tables : Type := {
  t_result : gmap string Z;
  t_decimals_cache : gmap string Z
}.

Definition store (token_address : string) (decimals : Z) (st : tables)
  : tables :=
  {| t_result := <[token_address := decimals]> (t_result st);
     t_decimals_cache :=
       <[lower token_address := decimals]> (t_decimals_cache st) |}.

(** [for j, token_address in enumerate(batch)], started at position [j]: the
    tables as the loop leaves them, and the exception that ended it early, if
    any. *)
Fixpoint store_loop (results : list json) (j : nat) (batch : list string)
    (st : tables) : tables * option exn :=
  match batch with
  | [] => (st, None)
  | token_address :: rest =>
      match decimals_at results j with
      | Raise e => (st, Some e)
      | Val decimals =>
          store_loop results (S j) rest (store token_address decimals st)
      end
  end.

(** The handler of the outer [try]: 18 for the whole batch. *)
Fixpoint default_batch (batch : list string) (st : tables) : tables :=
  match batch with
  | [] => st
  | token_address :: rest => default_batch rest (store token_address 18 st)
  end.

(** One pass of the loop over the batches. *)
Definition fetch_batch (r : reply) (batch : list string) (st : tables)
  : tables :=
  match r with
  | Fails _ => default_batch batch st
  | Replies (JList results) =>
      match store_loop results 0 batch st with
      | (st', None) => st'
      | (st', Some _) => default_batch batch st'
      end
  | Replies _ => st
  end.

(** "Проверяем кэш": tokens found in the cache are answered from it, the
    others are queued in the order they come. *)
Fixpoint check_cache (decimals_cache : gmap string Z)
    (unique_tokens : list string)
    (result : gmap string Z) (tokens_to_fetch : list string)
  : gmap string Z * list string :=
  match unique_tokens with
  | [] => (result, tokens_to_fetch)
  | token :: rest =>
      match decimals_cache !! lower token with
      | Some decimals =>
          check_cache decimals_cache rest (<[token := decimals]> result)
                      tokens_to_fetch
      | None =>
          check_cache decimals_cache rest result (tokens_to_fetch ++ [token])
      end
  end.

Definition BATCH_SIZE : nat := 100.

(** [tokens_to_fetch[i:i + BATCH_SIZE] for i in range(0, len, BATCH_SIZE)]. *)
Definition batches_of (tokens_to_fetch : list string) : list (list string) :=
  let n_batches :=
    ((length tokens_to_fetch + BATCH_SIZE - 1) / BATCH_SIZE)%nat in
  map (fun n => take BATCH_SIZE (drop (n * BATCH_SIZE) tokens_to_fetch))
      (seq 0 n_batches).

(** The batches are awaited one after the other; [net n batch] is what the
    [n]-th POST does. *)
Fixpoint fetch_batches (net : nat -> list string -> reply) (n : nat)
    (batches : list (list string)) (st : tables) : tables :=
  match batches with
  | [] => st
  | batch :: rest =>
      fetch_batches net (S n) rest (fetch_batch (net n batch) batch st)
  end.

(** [get_decimals_many].  [cache_file] is the dictionary read from
    cache/decimals.json (empty when the file is missing or unreadable),
    [session] the exception [ensure_session] raises, if it does.  The function
    returns [result] and, when it gets that far, the dictionary it writes back
    to the file. *)
Definition get_decimals_many (session : option exn)
    (net : nat -> list string -> reply) (cache_file : gmap string Z)
    (tokens : list string)
  : result (gmap string Z * option (gmap string Z)) :=
  match tokens with
  | [] => Val (∅, None)
  | _ =>
      let unique_tokens := unique tokens in
      let '(result, tokens_to_fetch) :=
        check_cache cache_file unique_tokens ∅ [] in
      match tokens_to_fetch with
      | [] => Val (result, None)
      | _ =>
          match session with
          | Some e => Raise e
          | None =>
              let st :=
                fetch_batches net 0 (batches_of tokens_to_fetch)
                  {| t_result := result; t_decimals_cache := cache_file |} in
              Val (t_result st, Some (t_decimals_cache st))
          end
      end
  end.

(** The replies the loop fills in from: a failed request, which the handler
    answers with 18 for the whole batch, or a JSON list.  Any other JSON
    document is passed over in silence. *)
Definition answered (r : reply) : bool :=
  match r with
  | Fails _ => true
  | Replies (JList _) => true
  | Replies _ => false
  end.

(** *** [_parse_reserves] *)

(** [int(data[i:j], 16) if len(data) > j else 0]: the comparison is strict
    here. *)
Definition word_gt (data : json) (i j : nat) : result Z :=
  let* n := len data in
  if (j <? n)%nat then
    match data with
    | JStr s => int16 (slice s i j)
    | _ => Raise TypeError
    end
  else Val 0%Z.

(** The entries of this map have the keys [reserve0] and [reserve1] only. *)
Definition _parse_reserves (result : json) (pairs : list string)
  : Py.result (gmap string (Z * Z)) :=
  let* has := contains "result" result in
  if has then
    let* data := subscript "result" result in
    let* reserve0 := word_gt data 2 66 in
    let* reserve1 := word_gt data 66 130 in
    let* first := index pairs 0 in
    Val {[ first := (reserve0, reserve1) ]}
  else Val ∅.

End AnkrDecimals.

(** ** The reply of a pair contract to [getReserves()]

    Not part of the bot: the text a node returns for the call, used to state
    what the decoder of the fetcher recovers. *)

Module AbiWords.
Import Py.

(** The digit of [z] that stands for [16 ^ n]. *)
Definition digit_of (n : nat) (z : Z) : nat :=
  Z.to_nat ((z / 16 ^ Z.of_nat n) mod 16).

(** [n] hexadecimal digits of [z], most significant first. *)
Fixpoint digits (n : nat) (z : Z) : string :=
  match n with
  | O => EmptyString
  | S n' => String (Bot.hex_char (digit_of n' z)) (digits n' z)
  end.

(** A 32-byte word. *)
Definition abi_word (z : Z) : string := digits 64 z.

(** [(uint112 reserve0, uint112 reserve1, uint32 blockTimestampLast)]. *)
Definition getReserves_reply (reserve0 reserve1 timestamp : Z) : string :=
  ("0x" ++ abi_word reserve0 ++ abi_word reserve1 ++ abi_word timestamp)%string.

End AbiWords.

(* ===================================================================== *)
(** ** arbitrage_bot.py: endpoints, retries, caches *)

Module Rpc.
Import Py AnkrReserves.

(** *** [RPCRotator] *)

Record RPCRotator : Type := {
  rpcs : list string;
  current : nat;
  request_count : nat;
  switch_after : nat
}.

(** The endpoints [__init__] lists for Polygon. *)
Definition polygon_rpcs : list string :=
  ["https://polygon-rpc.com";
   "https://rpc-mainnet.matic.network";
   "https://matic-mainnet.chainstacklabs.com";
   "https://polygon-bor.publicnode.com";
   "https://polygon.llamarpc.com";
   "https://polygon.rpc.blxrbdn.com";
   "https://polygon-mainnet.public.blastapi.io"].

(** The state [__init__] leaves, for a given list of endpoints. *)
Definition fresh (endpoints : list string) : RPCRotator :=
  {| rpcs := endpoints; current := 0; request_count := 0; switch_after := 20 |}.

Definition get_current (r : RPCRotator) : result string :=
  index (rpcs r) (current r).

(** [self.current = (self.current + 1) % len(self.rpcs)];
    [self.request_count = 0]. *)
Definition advance (r : RPCRotator) : result string * RPCRotator :=
  match length (rpcs r) with
  | O => (Raise ZeroDivisionError, r)
  | S _ =>
      let r' := {| rpcs := rpcs r;
                   current := (current r + 1) mod length (rpcs r);
                   request_count := 0;
                   switch_after := switch_after r |} in
      (index (rpcs r') (current r'), r')
  end.

(** The methods mutate the rotator, so each returns the state it leaves
    beside its result. *)
Definition get_next (r : RPCRotator) : result string * RPCRotator :=
  let r1 := {| rpcs := rpcs r;
               current := current r;
               request_count := request_count r + 1;
               switch_after := switch_after r |} in
  if (switch_after r1 <=? request_count r1)%nat
  then advance r1
  else (index (rpcs r1) (current r1), r1).

Definition force_switch (r : RPCRotator) : result string * RPCRotator :=
  advance r.

(** [n] calls of [get_next] in a row. *)
Fixpoint get_next_times (n : nat) (r : RPCRotator) : RPCRotator :=
  match n with
  | O => r
  | S n' => snd (get_next (get_next_times n' r))
  end.

(** *** [safe_web3_call] *)

(** [any(err in str(e).lower() for err in
    ['rate limit', 'too many requests', '429'])]. *)
Definition is_rate_limit_error (e : exn) : bool :=
  let error_str := lower (exn_str e) in
  str_in "rate limit" error_str || str_in "too many requests" error_str
  || str_in "429" error_str.

(** [for attempt in range(max_retries)], with [remaining] passes to go.
    [func attempt] is what the call does at that attempt.  Only the first
    [except] clause can ever run; [None] is returned when the loop ends without
    a pass, i.e. for [max_retries = 0]. *)
Fixpoint safe_web3_attempts {A} (func : nat -> result A)
    (max_retries remaining : nat) (rot : RPCRotator)
  : result (option A) * RPCRotator :=
  match remaining with
  | O => (Val None, rot)
  | S remaining' =>
      let attempt := (max_retries - remaining)%nat in
      match func attempt with
      | Val a => (Val (Some a), rot)
      | Raise e =>
          if is_rate_limit_error e then
            match force_switch rot with
            | (Raise e', rot') => (Raise e', rot')
            | (Val _, rot') =>
                if (attempt <? max_retries - 1)%nat
                then safe_web3_attempts func max_retries remaining' rot'
                else if (attempt =? max_retries - 1)%nat
                then (Raise e, rot')
                else safe_web3_attempts func max_retries remaining' rot'
            end
          else if (attempt =? max_retries - 1)%nat
          then (Raise e, rot)
          else safe_web3_attempts func max_retries remaining' rot
      end
  end.

Definition safe_web3_call {A} (func : nat -> result A) (max_retries : nat)
    (rot : RPCRotator) : result (option A) * RPCRotator :=
  safe_web3_attempts func max_retries max_retries rot.

(** *** [get_token_decimals] and the module-level [TOKEN_DECIMALS] *)

Section TokenDecimals.

Variable keccak : list Init.Byte.byte -> list Init.Byte.byte.

(** [decimals_call] is what [self.safe_web3_call(...decimals().call)] does
    when it is reached.  The function returns the decimals together with
    [TOKEN_DECIMALS] as it leaves it. *)
Definition get_token_decimals (TOKEN_DECIMALS : gmap string Z)
    (decimals_call : result Z) (token_address : string)
  : result (Z * gmap string Z) :=
  let* checksum_address := Bot.to_checksum_address keccak token_address in
  match TOKEN_DECIMALS !! checksum_address with
  | Some decimals => Val (decimals, TOKEN_DECIMALS)
  | None =>
      match decimals_call with
      | Val decimals =>
          Val (decimals, <[checksum_address := decimals]> TOKEN_DECIMALS)
      | Raise _ => Val (18%Z, <[checksum_address := 18%Z]> TOKEN_DECIMALS)
      end
  end.

End TokenDecimals.

(** *** [pair_address_cache] *)

(** [(dex.lower(), sorted_tokens[0], sorted_tokens[1])] with
    [sorted_tokens = tuple(sorted([token0.lower(), token1.lower()]))]. *)
Definition cache_key (dex token0 token1 : string) : string * string * string :=
  let a := lower token0 in
  let b := lower token1 in
  if String.ltb b a then (lower dex, b, a) else (lower dex, a, b).

Definition get_cached_pair_address
    (pair_address_cache : gmap (string * string * string) string)
    (dex token0 token1 : string) : option string :=
  pair_address_cache !! cache_key dex token0 token1.

Definition cache_pair_address
    (pair_address_cache : gmap (string * string * string) string)
    (dex token0 token1 pair_address : string)
  : gmap (string * string * string) string :=
  <[cache_key dex token0 token1 := lower pair_address]> pair_address_cache.

(** *** Base tokens *)

(** [BASE_TOKENS["polygon"]], in the order of the literal. *)
Definition BASE_TOKENS : list (string * string) :=
  [("0x2791Bca1f2de4661ED88A30C99A7a9449Aa84174", "USDC.e");
   ("0x3c499c542cEF5E3811e1192ce70d8cC03d5c3359", "USDC");
   ("0xc2132D05D31c914a87C6611C10748AEb04B58e8F", "USDT");
   ("0x8f3Cf7ad23Cd3CaDbD9735AFf958023239c6A063", "DAI");
   ("0x0d500B1d8E8eF31E21C99d1Db9A6444d3ADf1270", "WMATIC");
   ("0x7ceB23fD6bC0adD59E62ac25578270cFf1b9f619", "WETH");
   ("0x1bfd67037b42cf73acF2047067bd4F2C47D9BfD6", "WBTC");
   ("0xD6DF932A45C0f255f85145f286eA0b292B21C90B", "AAVE")]%string.

End Rpc.

(* ===================================================================== *)
(** ** arbitrage_bot.py: the flash-loan route and the loan amount *)

Module FlashLoan.
Import Py Config Bot.
Open Scope Q_scope.

Record SwapRoute : Type := {
  token_in : string;
  token_out : string;
  dex : string;
  router : string;
  amount_in : Z
}.

(** [FlashLoanStrategy.AAVE_TOKENS]; membership is by the exact text. *)
Definition AAVE_TOKENS : list (string * string) :=
  [("0x2791Bca1f2de4661ED88A30C99A7a9449Aa84174", "USDC.e");
   ("0x3c499c542cEF5E3811e1192ce70d8cC03d5c3359", "USDC");
   ("0xc2132D05D31c914a87C6611C10748AEb04B58e8F", "USDT");
   ("0x8f3Cf7ad23Cd3CaDbD9735AFf958023239c6A063", "DAI");
   ("0x7ceB23fD6bC0adD59E62ac25578270cFf1b9f619", "WETH");
   ("0x0d500B1d8E8eF31E21C99d1Db9A6444d3ADf1270", "WMATIC");
   ("0x1bfd67037b42cf73acF2047067bd4F2C47D9BfD6", "WBTC")]%string.

Definition in_aave (token : string) : bool :=
  match lookup token AAVE_TOKENS with Some _ => true | None => false end.

(** One element of [options]. *)
Record strategy_option : Type := {
  o_token : string;
  o_symbol : string;
  o_route : list SwapRoute;
  o_liquidity : Q;
  o_strategy : string
}.

(** The two candidate entries, each appended when its token can be borrowed.
    [get_aave_liquidity] stands for the awaited read, which returns 0 when it
    fails. *)
Definition options (get_aave_liquidity : string -> Q)
    (opportunity : ArbitrageOpportunity) : list strategy_option :=
  (if in_aave (quote_token_address opportunity) then
     [{| o_token := quote_token_address opportunity;
         o_symbol := quote_token_symbol opportunity;
         o_route :=
           [{| token_in := quote_token_address opportunity;
               token_out := token_address opportunity;
               dex := buy_dex opportunity;
               router := buy_router opportunity;
               amount_in := 0 |};
            {| token_in := token_address opportunity;
               token_out := quote_token_address opportunity;
               dex := sell_dex opportunity;
               router := sell_router opportunity;
               amount_in := 0 |}];
         o_liquidity := get_aave_liquidity (quote_token_address opportunity);
         o_strategy := "base_token" |}]
   else [])
  ++
  (if in_aave (token_address opportunity) then
     [{| o_token := token_address opportunity;
         o_symbol := token_symbol opportunity;
         o_route :=
           [{| token_in := token_address opportunity;
               token_out := quote_token_address opportunity;
               dex := sell_dex opportunity;
               router := sell_router opportunity;
               amount_in := 0 |};
            {| token_in := quote_token_address opportunity;
               token_out := token_address opportunity;
               dex := buy_dex opportunity;
               router := buy_router opportunity;
               amount_in := 0 |}];
         o_liquidity := get_aave_liquidity (token_address opportunity);
         o_strategy := "trade_token" |}]
   else []).

(** [for opt in options: if opt['strategy'] == 'base_token': best = opt; break] *)
Fixpoint first_base_token (opts : list strategy_option) : option strategy_option :=
  match opts with
  | [] => None
  | opt :: rest =>
      if String.eqb (o_strategy opt) "base_token" then Some opt
      else first_base_token rest
  end.

(** With no entry at all [best] stays [None], and the log line that
    subscripts it raises. *)
Definition choose_optimal_flash_loan_token (get_aave_liquidity : string -> Q)
    (opportunity : ArbitrageOpportunity)
  : result (string * string * list SwapRoute) :=
  let opts := options get_aave_liquidity opportunity in
  let best :=
    match first_base_token opts with
    | Some opt => Some opt
    | None => match opts with [] => None | opt :: _ => Some opt end
    end in
  match best with
  | None => Raise TypeError
  | Some opt => Val (o_token opt, o_symbol opt, o_route opt)
  end.

(** What [prepare_universal_params] has settled when it starts to build
    calldata. *)
Record plan : Type := {
  flash_loan_asset : string;
  flash_loan_symbol : string;
  first_dex : string;
  first_router : string;
  swap_token_in_1 : string;
  swap_token_out_1 : string;
  second_dex : string;
  second_router : string;
  swap_token_in_2 : string;
  swap_token_out_2 : string;
  loan_amount : Z
}.

(** "Размер займа": the loan in wei, lifted to the minimum step. *)
Definition loan_amount_of (optimal_trade_size : Q) (base_decimals : Z)
  : result Z :=
  let loan_amount := int (optimal_trade_size * pow10 base_decimals) in
  let MIN_FLASH_STEP_BASE := 1 # 1000000 in
  let MIN_FLASH_LOAN := int (MIN_FLASH_STEP_BASE * pow10 base_decimals) in
  if (loan_amount <? MIN_FLASH_LOAN)%Z then
    if Qle_bool optimal_trade_size 0 then Raise ValueError
    else Val MIN_FLASH_LOAN
  else Val loan_amount.

Section Prepare.

Variable keccak : list Init.Byte.byte -> list Init.Byte.byte.

(** [prepare_universal_params] from its first line to the router check.
    [get_token_decimals] is the cached or on-chain read, called with the loan
    asset. *)
Definition prepare_plan (get_aave_liquidity : string -> Q)
    (get_token_decimals : string -> Z) (opportunity : ArbitrageOpportunity)
  : result plan :=
  if Qle_bool (optimal_trade_size opportunity) 0 then Raise ValueError else
  let* chosen :=
    choose_optimal_flash_loan_token get_aave_liquidity opportunity in
  let '(asset, symbol, swap_routes) := chosen in
  let* first_swap := index swap_routes 0 in
  let* second_swap := index swap_routes 1 in
  let* in_1 := to_checksum_address keccak (token_in first_swap) in
  let* out_1 := to_checksum_address keccak (token_out first_swap) in
  let* in_2 := to_checksum_address keccak (token_in second_swap) in
  let* out_2 := to_checksum_address keccak (token_out second_swap) in
  let swapped := negb (String.eqb (dex first_swap) (buy_dex opportunity)) in
  let first_swap' := if swapped then second_swap else first_swap in
  let second_swap' := if swapped then first_swap else second_swap in
  let base_decimals := get_token_decimals asset in
  let* loan :=
    loan_amount_of (optimal_trade_size opportunity) base_decimals in
  if String.eqb (router first_swap') "" || String.eqb (router second_swap') ""
  then Raise ValueError else
  Val {| flash_loan_asset := asset;
         flash_loan_symbol := symbol;
         first_dex := dex first_swap';
         first_router := router first_swap';
         swap_token_in_1 := if swapped then token_in first_swap' else in_1;
         swap_token_out_1 := if swapped then token_out first_swap' else out_1;
         second_dex := dex second_swap';
         second_router := router second_swap';
         swap_token_in_2 := if swapped then token_in second_swap' else in_2;
         swap_token_out_2 := if swapped then token_out second_swap' else out_2;
         loan_amount := loan |}.

End Prepare.

End FlashLoan.

(* ===================================================================== *)
(** ** arbitrage_bot.py: [calculate_real_profit] and config.py's gas table *)

Module Profit.
Import Py Config Bot.
Open Scope Q_scope.

(** [GAS_COSTS] and [CHAIN] of config.py. *)
Definition GAS_COSTS : list (string * Q) :=
  [("polygon", 5 # 100); ("bsc", 2 # 10); ("arbitrum", 5 # 10);
   ("optimism", 5 # 10); ("ethereum", 10)]%string.

Definition CHAIN : string := "polygon".

Definition get_gas_cost (chain : string) : Q :=
  get_or (lower chain) GAS_COSTS 1.

(** The dictionary [get_pair_reserves] returns. *)
Record pair_reserves : Type := {
  pr_token0 : string;
  pr_token1 : string;
  pr_reserve0 : Z;
  pr_reserve1 : Z
}.

(** The function returns a pair on its last line and three zeros where it
    gives up. *)
Inductive profit : Type :=
| Ret2 (net_profit_usd total_impact : Q)
| Zeros3.

(** The name of a local that was never assigned. *)
Definition unbound : exn := OtherError "UnboundLocalError".

(** [x if x else 'default'] *)
Definition or_default (name : string) : string :=
  if String.eqb name "" then "default" else name.

(** [{"WMATIC": 0.5, "WETH": 2300}] for the two symbols that are converted. *)
Definition token_price (base_token_symbol : string) : option Q :=
  if String.eqb base_token_symbol "WMATIC" then Some (1 # 2)
  else if String.eqb base_token_symbol "WETH" then Some 2300
  else None.

(** Steps 3 and 4 and the conversion to USD, from the output of the second
    swap. *)
Definition settle (cfg : config) (base_token_symbol : string)
    (base_amount base_received buy_impact sell_impact : Q) : result profit :=
  let flash_loan_fee := base_amount * (get_flash_loan_fee cfg / 100) in
  let gas_cost_usd := get_gas_cost CHAIN in
  let* gas_cost_in_base :=
    match token_price base_token_symbol with
    | Some p => div gas_cost_usd p
    | None => Val gas_cost_usd
    end in
  let expected_out_base := base_received in
  let repay_base := base_amount + flash_loan_fee in
  let min_profit_base := gas_cost_in_base in
  let net_profit := expected_out_base - repay_base - min_profit_base in
  let net_profit_usd :=
    match token_price base_token_symbol with
    | Some p => net_profit * p
    | None => net_profit
    end in
  Val (Ret2 net_profit_usd (buy_impact + sell_impact)).

(** [get_pair_reserves] and [get_token_decimals] stand for the reads of the
    chain; the pair addresses and token addresses are [None] when the caller
    leaves them out. *)
Definition calculate_real_profit (cfg : config)
    (get_pair_reserves : string -> option pair_reserves)
    (get_token_decimals : string -> Z)
    (base_amount : Q) (buy_dex sell_dex base_token_symbol : string)
    (buy_pair sell_pair base_token_address trade_token_address : option string)
    (buy_base_reserve buy_quote_reserve sell_base_reserve sell_quote_reserve : Q)
  : result profit :=
  let buy_dex_fee := get_dex_fee cfg (or_default buy_dex) in
  let sell_dex_fee := get_dex_fee cfg (or_default sell_dex) in
  let truthy (a : option string) : option string :=
    match a with
    | Some s => if String.eqb s "" then None else Some s
    | None => None
    end in
  (* step 1: the reserves of the buy side; [inl] ends the call *)
  let buy_side : result (profit + Q * Q) :=
    if Qgt_bool buy_base_reserve 0 && Qgt_bool buy_quote_reserve 0
    then Val (inr (buy_base_reserve, buy_quote_reserve))
    else
      match truthy buy_pair with
      | Some pair_address =>
          match get_pair_reserves pair_address,
                truthy base_token_address, truthy trade_token_address with
          | Some reserves_data, Some base, Some trade =>
              let base_decimals := get_token_decimals base in
              let trade_decimals := get_token_decimals trade in
              if String.eqb (lower (pr_token0 reserves_data)) (lower base)
              then Val (inr (inject_Z (pr_reserve0 reserves_data)
                               / pow10 base_decimals,
                             inject_Z (pr_reserve1 reserves_data)
                               / pow10 trade_decimals))
              else Val (inr (inject_Z (pr_reserve1 reserves_data)
                               / pow10 base_decimals,
                             inject_Z (pr_reserve0 reserves_data)
                               / pow10 trade_decimals))
          | _, _, _ => Val (inl Zeros3)
          end
      | None => Raise unbound
      end in
  let* buy := buy_side in
  match buy with
  | inl r => Val r
  | inr (buy_reserve_base, buy_reserve_trade) =>
      let* bought :=
        calculate_price_impact_amm base_amount buy_reserve_base
                                   buy_reserve_trade buy_dex_fee in
      let '(tokens_received, buy_impact) := bought in
      (* step 2: the reserves of the sell side *)
      let sell_side : result (profit + Q * Q) :=
        if Qgt_bool sell_base_reserve 0 && Qgt_bool sell_quote_reserve 0
        then Val (inr (sell_base_reserve, sell_quote_reserve))
        else
          match truthy sell_pair with
          | Some pair_address =>
              match get_pair_reserves pair_address,
                    truthy base_token_address, truthy trade_token_address with
              | Some reserves_data, Some base, Some trade =>
                  let base_decimals := get_token_decimals base in
                  let trade_decimals := get_token_decimals trade in
                  if String.eqb (lower (pr_token0 reserves_data)) (lower trade)
                  then Val (inr (inject_Z (pr_reserve1 reserves_data)
                                   / pow10 base_decimals,
                                 inject_Z (pr_reserve0 reserves_data)
                                   / pow10 trade_decimals))
                  else Val (inr (inject_Z (pr_reserve0 reserves_data)
                                   / pow10 base_decimals,
                                 inject_Z (pr_reserve1 reserves_data)
                                   / pow10 trade_decimals))
              | _, _, _ => Raise unbound
              end
          | None => Val (inl Zeros3)
          end in
      let* sell := sell_side in
      match sell with
      | inl r => Val r
      | inr (sell_reserve_base, sell_reserve_trade) =>
          let* sold :=
            calculate_price_impact_amm tokens_received sell_reserve_trade
                                       sell_reserve_base sell_dex_fee in
          let '(base_received, sell_impact) := sold in
          settle cfg base_token_symbol base_amount base_received
                 buy_impact sell_impact
      end
  end.

End Profit.

(* ===================================================================== *)
(** ** arbitrage_bot.py: [process_v2_combos] as a whole *)

Module Scan.
Import Py Config Bot.

(** Steps 1 to 3: every pair address of the combinations is fetched at once.
    [ankr_provider] is [None] when no API key is configured; then the
    reserves stay empty. *)
Definition all_pairs (combos : list combo) : list string :=
  AnkrReserves.unique
    (flat_map (fun c => [c_buy_pair c; c_sell_pair c]) combos).

Definition all_reserves (ankr_provider : option AnkrReserves.network)
    (combos : list combo)
  : gmap string (Z * Z * option string * option string) :=
  match ankr_provider with
  | Some net => AnkrReserves.get_reserves_many net (all_pairs combos)
  | None => ∅
  end.

(** Step 4: the loop over the combinations, one outcome per combination. *)
Definition process_v2_combos (cfg : config) (b : bot)
    (ankr_provider : option AnkrReserves.network)
    (decimals_cache : string -> option Z) (combos : list combo)
  : list v2_pass :=
  map (process_v2_combo cfg b (all_reserves ankr_provider combos)
                        decimals_cache)
      combos.

End Scan.
(* ===================================================================== *)
(** ** Concrete data used to exercise the model *)

Module Examples.
Import Py LutRuntime AnkrReserves Config Bot.
Open Scope Q_scope.

(** The grid of the specification's scenario 5. *)
Definition grid5 : LutRuntime.lut := {|
  s_grid := [1 # 1000; 1 # 100];
  r_grid := [1 # 2; 1; 2];
  g := [[0; 0; 0]; [1 # 10; 2 # 10; 1 # 10]]
|}.

(** A grid file with no points at all. *)
Definition empty_grid : LutRuntime.lut := {| s_grid := []; r_grid := []; g := [] |}.

(** A well-formed [getReserves()] reply of a pool that holds nothing: three
    32-byte words, all zero. *)
Definition zero_word : string :=
  "0000000000000000000000000000000000000000000000000000000000000000".

Definition empty_pool_reply : outcome :=
  Json (JList [JDict [("jsonrpc", JStr "2.0"); ("id", JNum 1);
                      ("result",
                       JStr ("0x" ++ zero_word ++ zero_word ++ zero_word))]]).

Definition pair_a : string := "0x853ee4b2a13f8a742d64c8f088be7ba2131f670d".
Definition pair_b : string := "0x34965ba0ac2451a34a0471f04cca3f990b8dea27".
Definition pair_c : string := "0x6e7a5fafcec6bb1e78bae2a1f0b612012bf14827".

(** A node that answers every batch with an error object. *)
Definition failing_network : network :=
  fun _ _ =>
    Json (JDict [("error", JDict [("message", JStr "execution reverted")])]).

(** A toy stand-in for the hash, enough to run the CREATE2 derivation. *)
Definition toy_keccak (l : list Init.Byte.byte) : list Init.Byte.byte :=
  firstn 32 (rev l ++ repeat Init.Byte.x2a 32).

Definition usdc : string := "0x2791Bca1f2de4661ED88A30C99A7a9449Aa84174".
Definition weth : string := "0x7ceB23fD6bC0adD59E62ac25578270cFf1b9f619".

Definition quickswap_factory : string :=
  "0x5757371414417b8C6CAad45bAeF941aBc7d3Ab32".
Definition quickswap_init_code_hash : string :=
  "0x96e8ac4277198ff8b6f785478aa9a39f403cb768dd02cbee326c3e7da348845f".

(** A bot with the scenario grid loaded. *)
Definition bot5 : bot := {|
  lut := Some grid5;
  base_tokens := [(usdc, "USDC.e"); (weth, "WETH")];
  get_token_decimals := fun a => if String.eqb a usdc then 6%Z else 18%Z
|}.

(** Two venues quoting WETH in USDC: by its listed price QuickSwap is the
    cheaper one. *)
Definition on_quickswap : venue := {|
  v_symbol := "WETH";
  v_trade_token_address := weth;
  v_base_token_address := usdc;
  v_dex := "quickswap";
  v_pair_address := pair_a;
  v_price := 2000;
  v_liquidity := 2000000;
  v_router := "0xa5E0829CaCEd8fFDD4De3c43696c57F7D7A678ff"
|}.

Definition on_sushiswap : venue := {|
  v_symbol := "WETH";
  v_trade_token_address := weth;
  v_base_token_address := usdc;
  v_dex := "sushiswap";
  v_pair_address := pair_b;
  v_price := 2020;
  v_liquidity := 2000000;
  v_router := "0x1b02dA8Cb0d097eB8D57A175b88c7D8b47997506"
|}.

(** Reserves of 1 000 000 USDC / 500 WETH and of 1 010 000 USDC / 500 WETH
    (scenario 1 of the specification). *)
Definition pool_2000 : reserves := {|
  reserve0 := 1000000000000;
  reserve1 := 500000000000000000000;
  token0 := Some usdc;
  token1 := Some weth
|}.

Definition pool_2020 : reserves := {|
  reserve0 := 1010000000000;
  reserve1 := 500000000000000000000;
  token0 := Some usdc;
  token1 := Some weth
|}.

(** A node that turns the batch down with an error object: the batch then
    has no entry for either pair. *)
Definition rate_limited : outcome :=
  Json (JDict [("error", JDict [("code", JNum 429);
                                ("message", JStr "Too many requests")])]).

(** A side whose CREATE2 address holds no code and whose pool the factory
    lookup finds. *)
Definition found_by_factory (pool : reserves) : resolution := {|
  create2_has_code := Val false;
  create2_reserves := None;
  factory_reserves := Some pool
|}.

(** A side on which every step of the resolution comes back empty. *)
Definition nothing_found : resolution := {|
  create2_has_code := Val false;
  create2_reserves := None;
  factory_reserves := None
|}.

(** The chain agrees with the listed prices ... *)
Definition chain_as_listed : chain_reads := {|
  buy_is_v2 := true;
  sell_is_v2 := true;
  ankr_provider := true;
  ankr_reply := rate_limited;
  buy_resolution := found_by_factory pool_2000;
  sell_resolution := found_by_factory pool_2020;
  buy_reserves_read := Some pool_2000;
  sell_reserves_read := Some pool_2020;
  buy_pair_tokens := Some (usdc, weth);
  sell_pair_tokens := Some (usdc, weth)
|}.

(** ... or it has them the other way round: the QuickSwap pool is the dearer
    one on chain. *)
Definition chain_reversed : chain_reads := {|
  buy_is_v2 := true;
  sell_is_v2 := true;
  ankr_provider := true;
  ankr_reply := rate_limited;
  buy_resolution := found_by_factory pool_2020;
  sell_resolution := found_by_factory pool_2000;
  buy_reserves_read := Some pool_2020;
  sell_reserves_read := Some pool_2000;
  buy_pair_tokens := Some (usdc, weth);
  sell_pair_tokens := Some (usdc, weth)
|}.

Definition listed_opportunity : opportunity_data :=
  make_opportunity_data false 1 on_quickswap on_sushiswap.








(** A line of v2_combos.jsonl whose buy pool is deep and whose sell pool holds
    only 100 USDC, and the reserves map with token addresses filled in. *)
Definition thin_sell_combo : combo := {|
  c_trade := weth;
  c_base := usdc;
  c_buy_dex := "quickswap";
  c_buy_pair := pair_a;
  c_sell_dex := "sushiswap";
  c_sell_pair := pair_b
|}.

Definition thin_sell_reserves
  : gmap string (Z * Z * option string * option string) :=
  {[ pair_a := (1000000000000, 500000000000000000000, Some usdc, Some weth)%Z;
     pair_b := (100000000, 49500000000000000, Some usdc, Some weth)%Z ]}.


Definition known_decimals (token : string) : option Z :=
  if String.eqb token usdc then Some 6%Z
  else if String.eqb token weth then Some 18%Z else None.

(** *** Further inputs *)

(** A batch reply whose second element is [null]. *)
Definition reply_with_null : list json :=
  [JDict [("result", JStr (AbiWords.getReserves_reply 1000 2000 0))];
   JNull;
   JDict [("result", JStr (AbiWords.getReserves_reply 3000 4000 0))]].

(** A node that answers every batch with one well-formed reply. *)
Definition answering_network : network :=
  fun _ _ =>
    Json (JList [JDict [("result",
                         JStr (AbiWords.getReserves_reply 1000 2000 0))]]).

(** A node whose session can never be opened in time. *)
Definition timing_out_network : network :=
  fun _ _ => SessionFails TimeoutError.

(** A node on which every POST times out. *)
Definition dropping_network : network :=
  fun _ _ => PostFails TimeoutError.

(** cache/decimals.json holding USDC.e only. *)
Definition decimals_file : gmap string Z :=
  {[ lower usdc := 6%Z ]}.

(** A node that times out on every decimals batch. *)
Definition silent_node : nat -> list string -> AnkrDecimals.reply :=
  fun _ _ => AnkrDecimals.Fails TimeoutError.

(** A call that fails twice with an error that is no rate limit. *)
Definition third_time_lucky (attempt : nat) : result Z :=
  if (attempt <? 2)%nat then Raise (OtherError "connection reset")
  else Val 18%Z.

(** [TOKEN_DECIMALS] after a failed read for USDC.e. *)
Definition cache_after_failure : gmap string Z :=
  match Rpc.get_token_decimals toy_keccak ∅ (Raise TimeoutError) usdc with
  | Val (_, after) => after
  | Raise _ => ∅
  end.

(** WETH quoted in USDC.e, the quote address written in lower case, so that
    only the trade token is found in [AAVE_TOKENS]. *)
Definition weth_for_lowercase_usdc : ArbitrageOpportunity := {|
  token_symbol := "WETH";
  token_address := weth;
  quote_token_address := lower usdc;
  quote_token_symbol := "USDC.e";
  buy_dex := "quickswap";
  sell_dex := "sushiswap";
  buy_price := 2000%Q;
  sell_price := 2020%Q;
  spread_percent := 1%Q;
  optimal_trade_size := (1 # 2)%Q;
  expected_profit := 1%Q;
  buy_liquidity := 2000000%Q;
  sell_liquidity := 2000000%Q;
  price_impact_percent := 5%Q;
  buy_dex_pair := pair_a;
  sell_dex_pair := pair_b;
  buy_router := "0xa5E0829CaCEd8fFDD4De3c43696c57F7D7A678ff";
  sell_router := "0x1b02dA8Cb0d097eB8D57A175b88c7D8b47997506"
|}.

(** A placeholder plan. *)
Definition no_plan : FlashLoan.plan := {|
  FlashLoan.flash_loan_asset := ""; FlashLoan.flash_loan_symbol := "";
  FlashLoan.first_dex := ""; FlashLoan.first_router := "";
  FlashLoan.swap_token_in_1 := ""; FlashLoan.swap_token_out_1 := "";
  FlashLoan.second_dex := ""; FlashLoan.second_router := "";
  FlashLoan.swap_token_in_2 := ""; FlashLoan.swap_token_out_2 := "";
  FlashLoan.loan_amount := 0
|}.

(** The plan prepared for that opportunity. *)
Definition trade_token_plan : FlashLoan.plan :=
  match FlashLoan.prepare_plan toy_keccak (fun _ => 0%Q) (fun _ => 18%Z)
          weth_for_lowercase_usdc with
  | Val p => p
  | Raise _ => no_plan
  end.

(** A pass of the candidate loop that appends an opportunity. *)
Definition appended_pass : pass :=
  match combination Config.shipped bot5 "USDC" None on_quickswap
          on_sushiswap chain_as_listed true with
  | Val p => p
  | Raise _ => skip None None
  end.

Definition appended_opportunity : ArbitrageOpportunity :=
  match appended appended_pass with
  | Some o => o
  | None => weth_for_lowercase_usdc
  end.

(** The reply of the node for the two pools of the evaluator. *)
Definition two_pool_reply : outcome :=
  Json (JList
    [JDict [("result",
             JStr (AbiWords.getReserves_reply 1000000000000
                                              500000000000000000000 0))];
     JDict [("result",
             JStr (AbiWords.getReserves_reply 1010000000000
                                              500000000000000000000 0))]]).

(** An entry as the fetcher files it. *)
Definition fetched_pool : reserves := {|
  reserve0 := 1000000000000;
  reserve1 := 500000000000000000000;
  token0 := None;
  token1 := None
|}.

Definition two_pool_map : gmap string reserves :=
  match get_reserves_batch two_pool_reply [pair_a; pair_b] with
  | Val m => m
  | Raise _ => ∅
  end.

(** The evaluator's reads when the node answers the batch for both pools. *)
Definition chain_from_fetcher : chain_reads := {|
  buy_is_v2 := true;
  sell_is_v2 := true;
  ankr_provider := true;
  ankr_reply := two_pool_reply;
  buy_resolution := nothing_found;
  sell_resolution := nothing_found;
  buy_reserves_read := Some pool_2000;
  sell_reserves_read := Some pool_2020;
  buy_pair_tokens := Some (usdc, weth);
  sell_pair_tokens := Some (usdc, weth)
|}.

(** The node turns the batch down, and the CREATE2 address of the QuickSwap
    pair holds the pool. *)
Definition chain_create2_live : chain_reads := {|
  buy_is_v2 := true;
  sell_is_v2 := true;
  ankr_provider := true;
  ankr_reply := rate_limited;
  buy_resolution := {| create2_has_code := Val true;
                       create2_reserves := Some pool_2000;
                       factory_reserves := None |};
  sell_resolution := found_by_factory pool_2020;
  buy_reserves_read := Some pool_2000;
  sell_reserves_read := Some pool_2020;
  buy_pair_tokens := Some (usdc, weth);
  sell_pair_tokens := Some (usdc, weth)
|}.

(** A bot whose [base_tokens] is the dictionary of the module. *)
Definition bot_with_base_tokens : bot := {|
  lut := Some grid5;
  base_tokens := Rpc.BASE_TOKENS;
  get_token_decimals := fun _ => 18%Z
|}.

(** An address that has no entry in [BASE_TOKEN_USD_PRICES]. *)
Definition unpriced_token : string :=
  "0x53E0bca35eC356BD5ddDFebbD1Fc0fD03FaBad39".

End Examples.

(* ===================================================================== *)
(** * Part II: properties                                                 *)
(* ===================================================================== *)

(** ** Comparisons, [min], [max] *)

Module PyFacts.
Import Py.
Open Scope Q_scope.

Lemma Qlt_bool_true (a b : Q) : Qlt_bool a b = true <-> a < b.
Proof.
  unfold Qlt_bool. rewrite negb_true_iff.
  split.
  - intros H. apply Qnot_le_lt. intros Hle.
    apply Qle_bool_iff in Hle. congruence.
  - intros H. destruct (Qle_bool b a) eqn:E; [|reflexivity].
    apply Qle_bool_iff in E. exfalso. apply (Qlt_not_le _ _ H E).
Qed.

Lemma Qlt_bool_false (a b : Q) : Qlt_bool a b = false <-> b <= a.
Proof.
  unfold Qlt_bool. rewrite negb_false_iff. apply Qle_bool_iff.
Qed.

Lemma Qle_bool_false (a b : Q) : Qle_bool a b = false <-> b < a.
Proof.
  rewrite <- Qlt_bool_true. unfold Qlt_bool.
  destruct (Qle_bool a b); simpl; split; congruence.
Qed.

Lemma Qeq_bool_false (a b : Q) : Qeq_bool a b = false <-> ~ a == b.
Proof.
  split.
  - intros H E. apply Qeq_bool_iff in E. congruence.
  - intros H. destruct (Qeq_bool a b) eqn:E; [|reflexivity].
    apply Qeq_bool_iff in E. contradiction.
Qed.

Lemma min_le_l (a b : Q) : min a b <= a.
Proof.
  unfold min. destruct (Qlt_bool b a) eqn:E.
  - apply Qlt_bool_true in E. apply Qlt_le_weak, E.
  - apply Qle_refl.
Qed.

Lemma min_le_r (a b : Q) : min a b <= b.
Proof.
  unfold min. destruct (Qlt_bool b a) eqn:E.
  - apply Qle_refl.
  - apply Qlt_bool_false in E. exact E.
Qed.

Lemma min_cases (a b : Q) : min a b = a \/ min a b = b.
Proof. unfold min. destruct (Qlt_bool b a); auto. Qed.

Lemma max_0_nonneg (x : Q) : 0 <= max 0 x.
Proof.
  unfold max, Qgt_bool. destruct (Qlt_bool 0 x) eqn:E.
  - apply Qlt_bool_true in E. apply Qlt_le_weak, E.
  - apply Qle_refl.
Qed.

(** A guarded division does not raise. *)
Lemma div_guarded (a x1 x0 : Q) :
  Qne_bool x1 x0 = true -> div a (x1 - x0) = Val (a / (x1 - x0)).
Proof.
  unfold Qne_bool, div. rewrite negb_true_iff. intros H.
  apply Qeq_bool_false in H.
  destruct (Qeq_bool (x1 - x0) 0) eqn:E; [|reflexivity].
  apply Qeq_bool_iff in E. exfalso. apply H. lra.
Qed.

Lemma div_nonzero (a b : Q) : ~ b == 0 -> div a b = Val (a / b).
Proof.
  intros H. unfold div. apply Qeq_bool_false in H. now rewrite H.
Qed.

Lemma index_lt {A} (l : list A) (i : nat) (d : A) :
  (i < length l)%nat -> index l i = Val (nth i l d).
Proof.
  intros H. unfold index.
  destruct (nth_error l i) eqn:E.
  - f_equal. symmetry. now apply nth_error_nth.
  - apply nth_error_None in E. lia.
Qed.

Lemma last_nonempty {A} (l : list A) (d : A) :
  l <> [] -> last l = Val (nth (length l - 1) l d).
Proof.
  intros H. destruct l as [|a l]; [contradiction|].
  unfold last. apply index_lt. simpl. lia.
Qed.

(** *** The binary search *)

(** Whatever the list, the search ends between [lo] and [hi], at a position
    whose left neighbour is not above [x] and which itself is above [x],
    provided the ends it started from were. *)
Lemma bisect_loop_spec (a : list Q) (x : Q) (lo hi : nat) :
  (lo <= hi)%nat ->
  (lo = 0%nat \/ Qlt_bool x (nth (lo - 1) a 0) = false) ->
  (hi = length a \/ Qlt_bool x (nth hi a 0) = true) ->
  let r := bisect_loop a x lo hi in
  (lo <= r <= hi)%nat
  /\ (r = 0%nat \/ Qlt_bool x (nth (r - 1) a 0) = false)
  /\ (r = length a \/ Qlt_bool x (nth r a 0) = true).
Proof.
  funelim (bisect_loop a x lo hi); intros Hle Hlo Hhi; cbn zeta.
  - (* lo >= hi *)
    assert (lo = hi) by lia. subst. repeat split; auto.
  - (* x < a[mid]: hi = mid *)
    assert (Hmid : (lo <= (lo + hi) / 2 < hi)%nat).
    { pose proof (Nat.div_mod_eq (lo + hi) 2).
      pose proof (Nat.mod_upper_bound (lo + hi) 2 ltac:(lia)). lia. }
    destruct (H ltac:(lia) Hlo (or_intror Heq)) as (B & L & R).
    repeat split; try lia; assumption.
  - (* x >= a[mid]: lo = mid + 1 *)
    assert (Hmid : (lo <= (lo + hi) / 2 < hi)%nat).
    { pose proof (Nat.div_mod_eq (lo + hi) 2).
      pose proof (Nat.mod_upper_bound (lo + hi) 2 ltac:(lia)). lia. }
    assert (Hl' : S ((lo + hi) / 2) = 0%nat
                  \/ Qlt_bool x (nth (S ((lo + hi) / 2) - 1) a 0) = false).
    { right. simpl. rewrite Nat.sub_0_r. exact Heq. }
    destruct (H ltac:(lia) Hl' Hhi) as (B & L & R).
    repeat split; try lia; assumption.
Qed.

Lemma bisect_right_spec (a : list Q) (x : Q) :
  let r := bisect_right a x in
  (r <= length a)%nat
  /\ (r = 0%nat \/ nth (r - 1) a 0 <= x)
  /\ (r = length a \/ x < nth r a 0).
Proof.
  unfold bisect_right.
  destruct (bisect_loop_spec a x 0 (length a) ltac:(lia)
              (or_introl eq_refl) (or_introl eq_refl)) as (B & L & R).
  split; [lia|]. split.
  - destruct L as [L|L]; [now left|right]. now apply Qlt_bool_false.
  - destruct R as [R|R]; [now left|right]. now apply Qlt_bool_true.
Qed.

(** Strictly between the first and the last grid point, the search returns
    an index with a neighbour on either side. *)
Lemma bisect_right_interior (a : list Q) (x : Q) :
  a <> [] ->
  nth 0 a 0 < x -> x < nth (length a - 1) a 0 ->
  (1 <= bisect_right a x <= length a - 1)%nat.
Proof.
  intros Hne H0 Hl.
  destruct (bisect_right_spec a x) as (B & L & R).
  assert (length a <> 0)%nat by (destruct a; simpl; [contradiction|lia]).
  split.
  - destruct (Nat.eq_dec (bisect_right a x) 0%nat) as [E|E]; [|lia].
    destruct R as [R|R]; [lia|]. rewrite E in R.
    exfalso. apply (Qlt_irrefl x). now apply Qlt_trans with (nth 0 a 0).
  - destruct (Nat.eq_dec (bisect_right a x) (length a)) as [E|E]; [|lia].
    destruct L as [L|L]; [lia|]. rewrite E in L.
    exfalso. apply (Qlt_irrefl x).
    now apply Qlt_le_trans with (nth (length a - 1) a 0).
Qed.

End PyFacts.

(** ** lut_runtime_v2.py: the lookup *)

Module LutFacts.
Import Py PyFacts LutRuntime LutSpec.
Open Scope Q_scope.

Lemma nonempty_length {A} (l : list A) : length l <> 0%nat -> l <> [].
Proof. destruct l; simpl; congruence. Qed.

(** On a non-empty axis with as many values as points, [_interp1] returns the
    clamped linear interpolation. *)
Lemma _interp1_spec (xs ys : list Q) (x : Q) :
  length xs <> 0%nat -> length ys = length xs ->
  exists v, _interp1 xs ys x = Val v /\ clamped_linear xs ys x v.
Proof.
  intros Hne Hlen. unfold _interp1.
  rewrite (index_lt xs 0 0) by lia. simpl bind.
  destruct (Qle_bool x (nth 0 xs 0)) eqn:E0.
  - apply Qle_bool_iff in E0.
    rewrite (index_lt ys 0 0) by lia.
    eexists; split; [reflexivity|]. left. split; [exact E0|reflexivity].
  - apply Qle_bool_false in E0.
    rewrite (last_nonempty xs 0) by now apply nonempty_length.
    simpl bind.
    destruct (Qle_bool (nth (length xs - 1) xs 0) x) eqn:E1.
    + apply Qle_bool_iff in E1.
      rewrite (last_nonempty ys 0) by (apply nonempty_length; lia).
      eexists; split; [reflexivity|]. right; left.
      unfold last_, at_. rewrite Hlen. auto.
    + apply Qle_bool_false in E1.
      pose proof (bisect_right_interior xs x (nonempty_length _ Hne) E0 E1)
        as Hk.
      destruct (bisect_right_spec xs x) as (_ & L & R).
      destruct L as [L|L]; [lia|]. destruct R as [R|R]; [lia|].
      set (k := (bisect_right xs x - 1)%nat) in *.
      replace (bisect_right xs x) with (k + 1)%nat in R by (subst k; lia).
      rewrite (index_lt xs k 0), (index_lt xs (k + 1) 0),
        (index_lt ys k 0), (index_lt ys (k + 1) 0) by (subst k; lia).
      simpl bind.
      assert (Hlt : nth k xs 0 < nth (k + 1) xs 0)
        by (eapply Qle_lt_trans; eassumption).
      assert (Hne' : Qne_bool (nth (k + 1) xs 0) (nth k xs 0) = true).
      { unfold Qne_bool. rewrite negb_true_iff. apply Qeq_bool_false.
        intros E. rewrite E in Hlt. apply (Qlt_irrefl _ Hlt). }
      rewrite Hne', (div_guarded _ _ _ Hne'). simpl bind.
      eexists; split; [reflexivity|]. right; right.
      split; [exact E0|]. split; [exact E1|].
      exists k. unfold at_. repeat split; try assumption; try reflexivity.
      subst k; lia.
Qed.

Lemma _interp2_rows_spec (xs : list Q) (s : Q) :
  length xs <> 0%nat ->
  exists i0 i1 ts,
    _interp2_rows xs s = Val (i0, i1, ts)
    /\ clamped_rows xs s i0 i1 ts
    /\ (i0 < length xs)%nat /\ (i1 < length xs)%nat.
Proof.
  intros Hne. unfold _interp2_rows.
  rewrite (index_lt xs 0 0) by lia. simpl bind.
  destruct (Qle_bool s (nth 0 xs 0)) eqn:E0.
  - apply Qle_bool_iff in E0.
    exists 0%nat, 0%nat, 0. split; [reflexivity|].
    split; [|lia]. left. auto.
  - apply Qle_bool_false in E0.
    rewrite (last_nonempty xs 0) by now apply nonempty_length.
    simpl bind.
    destruct (Qle_bool (nth (length xs - 1) xs 0) s) eqn:E1.
    + apply Qle_bool_iff in E1.
      exists (length xs - 1)%nat, (length xs - 1)%nat, 0.
      split; [reflexivity|]. split; [|lia]. right; left.
      unfold last_, at_. auto.
    + apply Qle_bool_false in E1.
      pose proof (bisect_right_interior xs s (nonempty_length _ Hne) E0 E1)
        as Hk.
      destruct (bisect_right_spec xs s) as (_ & L & R).
      destruct L as [L|L]; [lia|]. destruct R as [R|R]; [lia|].
      cbn zeta.
      set (k := (bisect_right xs s - 1)%nat) in *.
      replace (bisect_right xs s) with (k + 1)%nat in R by (subst k; lia).
      rewrite (index_lt xs k 0), (index_lt xs (k + 1) 0) by (subst k; lia).
      simpl bind.
      assert (Hlt : nth k xs 0 < nth (k + 1) xs 0)
        by (eapply Qle_lt_trans; eassumption).
      assert (Hne' : Qne_bool (nth (k + 1) xs 0) (nth k xs 0) = true).
      { unfold Qne_bool. rewrite negb_true_iff. apply Qeq_bool_false.
        intros E. rewrite E in Hlt. apply (Qlt_irrefl _ Hlt). }
      rewrite Hne', (div_guarded _ _ _ Hne'). simpl bind.
      exists k, (k + 1)%nat,
        ((s - nth k xs 0) / (nth (k + 1) xs 0 - nth k xs 0)).
      split; [reflexivity|]. split; [|subst k; lia].
      right; right. unfold at_, last_.
      repeat split; try assumption; try reflexivity. subst k; lia.
Qed.

Lemma well_formed_inv (l : lut) :
  well_formed l = true ->
  length (s_grid l) <> 0%nat /\ length (r_grid l) <> 0%nat
  /\ length (g l) = length (s_grid l)
  /\ forall i, (i < length (g l))%nat ->
               length (nth i (g l) []) = length (r_grid l).
Proof.
  unfold well_formed. rewrite !andb_true_iff, !negb_true_iff.
  intros [[[Hs Hr] Hg] Hrows].
  apply Nat.eqb_neq in Hs. apply Nat.eqb_neq in Hr. apply Nat.eqb_eq in Hg.
  repeat split; try assumption.
  intros i Hi. rewrite forallb_forall in Hrows.
  apply Nat.eqb_eq, Hrows, nth_In, Hi.
Qed.

(** On a well-formed grid [_interp2] returns the clamped bilinear
    interpolation. *)
Lemma _interp2_spec (l : lut) (s r : Q) :
  well_formed l = true ->
  exists v, _interp2 (s_grid l) (r_grid l) (g l) s r = Val v
            /\ clamped_bilinear l s r v.
Proof.
  intros Hwf. destruct (well_formed_inv l Hwf) as (Hs & Hr & Hg & Hrows).
  destruct (_interp2_rows_spec (s_grid l) s Hs)
    as (i0 & i1 & ts & Erows & Hchoice & Hi0 & Hi1).
  unfold _interp2. rewrite Erows. simpl bind.
  rewrite (index_lt (g l) i0 []), (index_lt (g l) i1 []) by lia.
  simpl bind.
  destruct (_interp1_spec (r_grid l) (nth i0 (g l) []) r Hr
              (Hrows i0 ltac:(lia))) as (g0 & E0 & H0).
  destruct (_interp1_spec (r_grid l) (nth i1 (g l) []) r Hr
              (Hrows i1 ltac:(lia))) as (g1 & E1 & H1).
  rewrite E0, E1. simpl bind.
  eexists; split; [reflexivity|].
  exists i0, i1, ts, g0, g1. repeat split; try assumption; reflexivity.
Qed.

(** Only a missing index can make the lookup raise. *)
Lemma index_raises {A} (l : list A) (i : nat) (e : exn) :
  index l i = Raise e -> e = IndexError.
Proof. unfold index. destruct (nth_error l i); congruence. Qed.

Lemma last_raises {A} (l : list A) (e : exn) :
  last l = Raise e -> e = IndexError.
Proof. destruct l; simpl; [congruence|]. apply index_raises. Qed.

Lemma guarded_div_raises (a x1 x0 : Q) (e : exn) :
  (if Qne_bool x1 x0 then div a (x1 - x0) else Val 0) = Raise e -> False.
Proof.
  destruct (Qne_bool x1 x0) eqn:E; [|congruence].
  rewrite (div_guarded _ _ _ E). congruence.
Qed.

Ltac step_index :=
  match goal with
  | |- context [bind (index ?l ?i) _] =>
      let E := fresh "E" in
      destruct (index l i) eqn:E; simpl bind;
      [|let H := fresh in intros H; inversion H; subst;
        eapply index_raises; eassumption]
  | |- context [bind (last ?l) _] =>
      let E := fresh "E" in
      destruct (last l) eqn:E; simpl bind;
      [|let H := fresh in intros H; inversion H; subst;
        eapply last_raises; eassumption]
  end.

Lemma _interp1_raises (xs ys : list Q) (x : Q) (e : exn) :
  _interp1 xs ys x = Raise e -> e = IndexError.
Proof.
  unfold _interp1. step_index.
  destruct (Qle_bool x a); [apply index_raises|].
  step_index.
  destruct (Qle_bool a0 x); [apply last_raises|].
  do 4 step_index.
  match goal with
  | |- context [bind ?d _] => destruct d eqn:Ed; simpl bind
  end.
  - congruence.
  - exfalso. eapply guarded_div_raises; eassumption.
Qed.

Lemma _interp2_raises (xs rs : list Q) (G : list (list Q)) (s r : Q) (e : exn) :
  _interp2 xs rs G s r = Raise e -> e = IndexError.
Proof.
  unfold _interp2.
  destruct (_interp2_rows xs s) as [[[i0 i1] ts]|e'] eqn:Erows; simpl bind.
  - do 2 step_index.
    destruct (_interp1 rs a r) eqn:E1; simpl bind;
      [|intros H; inversion H; subst; eapply _interp1_raises; eassumption].
    destruct (_interp1 rs a0 r) eqn:E2; simpl bind;
      [congruence
      |intros H; inversion H; subst; eapply _interp1_raises; eassumption].
  - intros H; inversion H; subst. revert Erows. unfold _interp2_rows.
    step_index.
    destruct (Qle_bool s a); [congruence|].
    step_index.
    destruct (Qle_bool a0 s); [congruence|]. cbn zeta.
    do 2 step_index.
    match goal with
    | |- context [bind ?d _] => destruct d eqn:Ed; simpl bind
    end.
    + congruence.
    + exfalso. eapply guarded_div_raises; eassumption.
Qed.

Lemma size_from_lut_raises (l : lut) (s b1 b2 : Q) (e : exn) :
  size_from_lut l s b1 b2 = Raise e -> e = IndexError.
Proof.
  unfold size_from_lut. cbn zeta.
  destruct (Qle_bool (min b1 b2) 0); [congruence|].
  destruct (Qgt_bool b1 0) eqn:Eb.
  - apply Qlt_bool_true in Eb.
    rewrite div_nonzero by (intros E; rewrite E in Eb; apply (Qlt_irrefl _ Eb)).
    simpl bind.
    destruct (_interp2 _ _ _ s _) eqn:E2; simpl bind; [congruence|].
    intros H; inversion H; subst. eapply _interp2_raises; eassumption.
  - simpl bind.
    destruct (_interp2 _ _ _ s _) eqn:E2; simpl bind; [congruence|].
    intros H; inversion H; subst. eapply _interp2_raises; eassumption.
Qed.

(** What [size_from_lut] returns for positive reserves on a well-formed
    grid. *)
Lemma size_from_lut_value (l : lut) (s b1 b2 : Q) :
  well_formed l = true -> 0 < b1 -> 0 < b2 ->
  exists gv : Q,
    clamped_bilinear l s (b2 / b1) gv
    /\ size_from_lut l s b1 b2 = Val (min b1 b2 * max 0 gv).
Proof.
  intros Hwf H1 H2.
  destruct (_interp2_spec l s (b2 / b1) Hwf) as (gv & Eg & Hg).
  exists gv. split; [exact Hg|].
  unfold size_from_lut. cbn zeta.
  assert (HL : 0 < min b1 b2)
    by (destruct (min_cases b1 b2) as [->| ->]; assumption).
  apply Qle_bool_false in HL. rewrite HL.
  assert (Hb : Qgt_bool b1 0 = true) by now apply Qlt_bool_true.
  rewrite Hb.
  rewrite div_nonzero by (intros E; rewrite E in H1; apply (Qlt_irrefl _ H1)).
  simpl bind. rewrite Eg. reflexivity.
Qed.

(** C5.  On every well-formed grid and for positive base reserves [b1]
    (buy side) and [b2] (sell side), [size_from_lut] returns
    [L * max(0, g)] with [L = min(b1, b2)], where [g] is the bilinear
    interpolation of the table over [(s_grid, r_grid)] at the spread [s] and at
    the reserve ratio [b2 / b1], clamped at both ends of both axes: at or
    below the first point of an axis the first row (resp. entry) is used,
    at or above the last point the last one. *)
Theorem size_from_lut_bilinear_clamped (l : lut) (s b1 b2 : Q) :
  well_formed l = true -> 0 < b1 -> 0 < b2 ->
  exists gv : Q,
    clamped_bilinear l s (b2 / b1) gv
    /\ size_from_lut l s b1 b2 = Val (min b1 b2 * max 0 gv).
Proof. apply size_from_lut_value. Qed.

Lemma size_from_lut_bilinear_clamped_witness :
  exists gv : Q,
    clamped_bilinear Examples.grid5 (5 # 1000) (150 / 100) gv
    /\ size_from_lut Examples.grid5 (5 # 1000) 100 150
       = Val (min 100 150 * max 0 gv).
Proof.
  apply size_from_lut_bilinear_clamped; reflexivity.
Defined.

(** C9, as amended.  [size_from_lut] never raises [ZeroDivisionError], on any
    grid and any inputs; when [min(b1, b2) <= 0] it returns exactly 0 whatever
    the grid holds; and on a grid whose axes are non-empty and whose table has
    one row per [s_grid] point with one entry per [r_grid] point it returns a
    value, which is non-negative. *)
Theorem size_from_lut_total_nonneg (l : lut) (s b1 b2 : Q) :
  size_from_lut l s b1 b2 <> Raise ZeroDivisionError
  /\ (min b1 b2 <= 0 -> size_from_lut l s b1 b2 = Val 0)
  /\ (well_formed l = true ->
      exists v : Q, size_from_lut l s b1 b2 = Val v /\ 0 <= v).
Proof.
  split; [|split].
  - intros H. apply size_from_lut_raises in H. discriminate.
  - intros H. unfold size_from_lut. cbn zeta.
    apply Qle_bool_iff in H. now rewrite H.
  - intros Hwf. unfold size_from_lut. cbn zeta.
    destruct (Qle_bool (min b1 b2) 0) eqn:EL.
    + exists 0. split; [reflexivity|apply Qle_refl].
    + apply Qle_bool_false in EL.
      set (r := if Qgt_bool b1 0 then div b2 b1 else Val 0).
      assert (Hr : exists rv, r = Val rv).
      { subst r. destruct (Qgt_bool b1 0) eqn:Eb; [|eauto].
        apply Qlt_bool_true in Eb. rewrite div_nonzero; [eauto|].
        intros E; rewrite E in Eb; apply (Qlt_irrefl _ Eb). }
      destruct Hr as (rv & ->). simpl bind.
      destruct (_interp2_spec l s rv Hwf) as (gv & -> & _). simpl bind.
      eexists; split; [reflexivity|].
      apply Qmult_le_0_compat; [now apply Qlt_le_weak|apply max_0_nonneg].
Qed.

Lemma size_from_lut_total_nonneg_witness :
  size_from_lut Examples.grid5 (5 # 1000) 100 0 = Val 0
  /\ exists v : Q,
       size_from_lut Examples.grid5 (5 # 1000) 100 150 = Val v /\ 0 <= v.
Proof.
  split.
  - apply (size_from_lut_total_nonneg Examples.grid5 (5 # 1000) 100 0).
    vm_compute. discriminate.
  - apply (size_from_lut_total_nonneg Examples.grid5 (5 # 1000) 100 150).
    reflexivity.
Defined.

(** C9, as stated, fails on a grid without points: with positive reserves the
    lookup indexes [s_grid[0]] and raises [IndexError], so no value is
    returned. *)
Lemma size_from_lut_empty_grid_raises :
  size_from_lut Examples.empty_grid 1 1 1 = Raise IndexError
  /\ ~ (exists v : Q,
          size_from_lut Examples.empty_grid 1 1 1 = Val v /\ 0 <= v).
Proof.
  split; [reflexivity|].
  intros (v & H & _). vm_compute in H. discriminate.
Qed.

End LutFacts.

(** ** ankr_reserves.py: the fetcher *)

Module AnkrFacts.
Import Py AnkrReserves.

(** The loop stores an entry only under a pair of the batch, and only what
    the reply at that pair's position decodes to. *)
Lemma parse_loop_lookup (results : list json) (pairs : list string) :
  forall (i : nat) (acc : gmap string reserves) (k : string) (v : reserves),
    parse_loop results i pairs acc !! k = Some v ->
    acc !! k = Some v
    \/ exists j : nat,
         pairs !! j = Some k /\ parse_at results (i + j) = Val (Some v).
Proof.
  induction pairs as [|p rest IH]; intros i acc k v H; simpl in H.
  - now left.
  - destruct (parse_at results i) as [[entry|]|e] eqn:E.
    + apply IH in H. destruct H as [H|(j & Hj & Hv)].
      * destruct (decide (p = k)) as [->|Hne].
        -- rewrite lookup_insert_eq in H. inversion H; subst.
           right. exists 0%nat. rewrite Nat.add_0_r. auto.
        -- rewrite lookup_insert_ne in H by assumption. now left.
      * right. exists (S j). split; [exact Hj|].
        now replace (i + S j)%nat with (S i + j)%nat by lia.
    + apply IH in H. destruct H as [H|(j & Hj & Hv)]; [now left|].
      right. exists (S j). split; [exact Hj|].
      now replace (i + S j)%nat with (S i + j)%nat by lia.
    + now left.
Qed.

Lemma get_reserves_batch_lookup (net : outcome) (pairs : list string)
    (m : gmap string reserves) (k : string) (v : reserves) :
  get_reserves_batch net pairs = Val m -> m !! k = Some v ->
  exists (results : list json) (i : nat),
    net = Json (JList results)
    /\ pairs !! i = Some k /\ parse_at results i = Val (Some v).
Proof.
  unfold get_reserves_batch. intros H Hk.
  destruct pairs as [|p rest].
  - inversion H; subst. rewrite lookup_empty in Hk. discriminate.
  - destruct net as [e|e|[ | | | |results| ]]; inversion H; subst;
      try (rewrite lookup_empty in Hk; discriminate).
    apply (parse_loop_lookup results (p :: rest) 0 ∅) in Hk.
    destruct Hk as [Hk|(j & Hj & Hv)].
    + rewrite lookup_empty in Hk. discriminate.
    + exists results, j. auto.
Qed.

Lemma get_reserves_batch_keys (net : outcome) (pairs : list string)
    (m : gmap string reserves) (k : string) (v : reserves) :
  get_reserves_batch net pairs = Val m -> m !! k = Some v -> k ∈ pairs.
Proof.
  intros H Hk.
  destruct (get_reserves_batch_lookup _ _ _ _ _ H Hk) as (r & i & _ & Hi & _).
  eapply list_elem_of_lookup_2, Hi.
Qed.

(** *** [_process_batch_with_retry] as one equation *)

Definition this_call (here : place) (batch : list string) (retry_count : nat)
  : call := Build_call here batch retry_count.

Lemma process_unfold (net : network) (here : place) (batch : list string)
    (retry_count : nat) :
  _process_batch_with_retry net here batch retry_count =
  match get_reserves_batch (net here batch) batch with
  | Val result =>
      if decide (result = ∅) then
        if (MIN_BATCH_SIZE <? length batch)%nat
           && (retry_count <? MAX_RETRIES)%nat
        then
          let mid := (length batch / 2)%nat in
          let left_task :=
            _process_batch_with_retry net (here ++ [SplitLeft])
                                      (take mid batch) (retry_count + 1) in
          let right_task :=
            _process_batch_with_retry net (here ++ [SplitRight])
                                      (drop mid batch) (retry_count + 1) in
          (right_task.1 ∪ left_task.1,
           this_call here batch retry_count :: left_task.2 ++ right_task.2)
        else (∅, [this_call here batch retry_count])
      else (result, [this_call here batch retry_count])
  | Raise e =>
      if (retry_count <? MAX_RETRIES)%nat && retried e then
        let again :=
          _process_batch_with_retry net (here ++ [Retry])
                                    batch (retry_count + 1) in
        (again.1, this_call here batch retry_count :: again.2)
      else (∅, [this_call here batch retry_count])
  end.
Proof.
  rewrite _process_batch_with_retry_equation_1.
  destruct (get_reserves_batch (net here batch) batch) as [result|e].
  - simp _process_batch_with_retry.
    destruct (decide (result = ∅)) as [Hempty|Hne];
      simp _process_batch_with_retry; [|reflexivity].
    destruct (lt_dec retry_count MAX_RETRIES) as [Hlt|Hge];
      destruct (MIN_BATCH_SIZE <? length batch)%nat eqn:Hsize;
      simp _process_batch_with_retry; simpl andb.
    + apply Nat.ltb_lt in Hlt. rewrite Hlt. reflexivity.
    + reflexivity.
    + apply Nat.ltb_nlt in Hge. rewrite Hge. reflexivity.
    + reflexivity.
  - simp _process_batch_with_retry.
    destruct (lt_dec retry_count MAX_RETRIES) as [Hlt|Hge];
      simp _process_batch_with_retry.
    + apply Nat.ltb_lt in Hlt. rewrite Hlt. reflexivity.
    + apply Nat.ltb_nlt in Hge. rewrite Hge. reflexivity.
Qed.

(** Induction on the number of retries left. *)
Lemma retry_count_ind (P : nat -> Prop) :
  (forall n, (forall m, (n < MAX_RETRIES)%nat -> m = (n + 1)%nat -> P m) -> P n) ->
  forall n, P n.
Proof.
  intros Hstep n.
  remember (MAX_RETRIES - n)%nat as fuel eqn:Hfuel.
  revert n Hfuel. induction fuel as [fuel IH] using lt_wf_ind.
  intros n Hfuel. apply Hstep. intros m Hlt ->.
  apply (IH (MAX_RETRIES - (n + 1))%nat); [lia|reflexivity].
Qed.

Lemma process_keys (net : network) (retry_count : nat) :
  forall (here : place) (batch : list string) (k : string) (v : reserves),
    (_process_batch_with_retry net here batch retry_count).1 !! k = Some v ->
    k ∈ batch.
Proof.
  induction retry_count as [rc IH] using retry_count_ind.
  intros here batch k v. rewrite process_unfold.
  destruct (get_reserves_batch (net here batch) batch) as [result|e] eqn:E.
  - destruct (decide (result = ∅)) as [Hempty|Hne].
    + destruct ((MIN_BATCH_SIZE <? length batch)%nat
                && (rc <? MAX_RETRIES)%nat) eqn:G; cbn zeta; simpl.
      * apply andb_true_iff in G. destruct G as [_ G].
        apply Nat.ltb_lt in G.
        intros H. apply lookup_union_Some_raw in H.
        destruct H as [H|[_ H]];
          apply (IH _ G eq_refl) in H.
        -- eapply subseteq_drop, H.
        -- eapply subseteq_take, H.
      * rewrite lookup_empty. discriminate.
    + simpl. intros H. eapply get_reserves_batch_keys; eassumption.
  - destruct ((rc <? MAX_RETRIES)%nat && retried e) eqn:G; cbn zeta; simpl.
    + apply andb_true_iff in G. destruct G as [G _]. apply Nat.ltb_lt in G.
      apply (IH _ G eq_refl).
    + rewrite lookup_empty. discriminate.
Qed.

(** Every invocation in the tree below one started at [retry_count] carries a
    retry count in between, and sits as many levels down as its count says. *)
Lemma process_calls_depth (net : network) (retry_count : nat) :
  forall (here : place) (batch : list string) (c : call),
    c ∈ (_process_batch_with_retry net here batch retry_count).2 ->
    (retry_count <= call_retry_count c)%nat
    /\ (call_retry_count c <= Nat.max retry_count MAX_RETRIES)%nat
    /\ length (call_place c)
       = (length here + (call_retry_count c - retry_count))%nat.
Proof.
  induction retry_count as [rc IH] using retry_count_ind.
  intros here batch c. rewrite process_unfold.
  assert (Hhere : forall c', c' ∈ [this_call here batch rc] ->
            (rc <= call_retry_count c')%nat
            /\ (call_retry_count c' <= Nat.max rc MAX_RETRIES)%nat
            /\ length (call_place c')
               = (length here + (call_retry_count c' - rc))%nat).
  { intros c' Hc. apply list_elem_of_singleton in Hc. subst c'. simpl. lia. }
  assert (Hsub : forall st c', (rc < MAX_RETRIES)%nat ->
            c' ∈ (_process_batch_with_retry net (here ++ [st])
                      (call_batch c') (rc + 1)).2 -> True) by auto.
  destruct (get_reserves_batch (net here batch) batch) as [result|e] eqn:E.
  - destruct (decide (result = ∅)) as [Hempty|Hne]; [|apply Hhere].
    destruct ((MIN_BATCH_SIZE <? length batch)%nat
              && (rc <? MAX_RETRIES)%nat) eqn:G; cbn zeta; simpl;
      [|apply Hhere].
    apply andb_true_iff in G. destruct G as [_ G]. apply Nat.ltb_lt in G.
    intros H. apply elem_of_cons in H. destruct H as [->|H].
    + simpl. lia.
    + apply elem_of_app in H.
      destruct H as [H|H]; apply (IH _ G eq_refl) in H;
        rewrite length_app in H; simpl in H; lia.
  - destruct ((rc <? MAX_RETRIES)%nat && retried e) eqn:G; cbn zeta; simpl;
      [|apply Hhere].
    apply andb_true_iff in G. destruct G as [G _]. apply Nat.ltb_lt in G.
    intros H. apply elem_of_cons in H. destruct H as [->|H].
    + simpl. lia.
    + apply (IH _ G eq_refl) in H.
      rewrite length_app in H; simpl in H; lia.
Qed.


(** Keys of [get_reserves_many] come from the batches it cut. *)
Lemma gather_batches_keys (net : network) (batches : list (list string)) :
  forall (n : nat) (acc : gmap string reserves) (k : string) (v : reserves),
    gather_batches net n batches acc !! k = Some v ->
    acc !! k = Some v \/ exists batch, batch ∈ batches /\ k ∈ batch.
Proof.
  induction batches as [|batch rest IH]; intros n acc k v H; simpl in H.
  - now left.
  - apply IH in H. destruct H as [H|(b & Hb & Hk)].
    + apply lookup_union_Some_raw in H. destruct H as [H|[_ H]].
      * right. exists batch. split; [apply list_elem_of_here|].
        eapply process_keys, H.
      * now left.
    + right. exists b. split; [now apply list_elem_of_further|exact Hk].
Qed.

Lemma batches_of_subset (unique_pairs batch : list string) (k : string) :
  batch ∈ batches_of unique_pairs -> k ∈ batch -> k ∈ unique_pairs.
Proof.
  unfold batches_of. intros Hb Hk.
  apply list_elem_of_In, in_map_iff in Hb. destruct Hb as (n & <- & _).
  eapply subseteq_drop, subseteq_take, Hk.
Qed.

Lemma get_reserves_many_keys (net : network) (pairs : list string)
    (k : string) (t : Z * Z * option string * option string) :
  get_reserves_many net pairs !! k = Some t -> k ∈ pairs.
Proof.
  unfold get_reserves_many. destruct pairs as [|p rest].
  - rewrite lookup_empty. discriminate.
  - intros H. apply lookup_fmap_Some in H. destruct H as (v & _ & H).
    apply gather_batches_keys in H. destruct H as [H|(b & Hb & Hk)].
    + rewrite lookup_empty in H. discriminate.
    + pose proof (batches_of_subset _ _ _ Hb Hk) as Hu.
      unfold unique in Hu.
      apply elem_of_elements, elem_of_list_to_set in Hu. exact Hu.
Qed.

(** Whatever [get_reserves_batch] stores carries no token addresses. *)
Lemma parse_at_tokens (results : list json) (i : nat) (v : reserves) :
  parse_at results i = Val (Some v) -> token0 v = None /\ token1 v = None.
Proof.
  unfold parse_at. intros H.
  destruct (nth_error results i) as [r|]; [|discriminate].
  destruct (contains "result" r) as [[|]|]; simpl in H; try discriminate.
  destruct (subscript "result" r) as [data|]; simpl in H; [|discriminate].
  destruct (truthy data && negb (is_str "0x" data)); [|discriminate].
  destruct (word data 2 66); simpl in H; [|discriminate].
  destruct (word data 66 130); simpl in H; [|discriminate].
  inversion H; subst. auto.
Qed.

Lemma get_reserves_batch_tokens (net : outcome) (pairs : list string)
    (m : gmap string reserves) (k : string) (v : reserves) :
  get_reserves_batch net pairs = Val m -> m !! k = Some v ->
  token0 v = None /\ token1 v = None.
Proof.
  intros H Hk.
  destruct (get_reserves_batch_lookup _ _ _ _ _ H Hk) as (r & i & _ & _ & Hv).
  eapply parse_at_tokens, Hv.
Qed.

Lemma process_tokens (net : network) (retry_count : nat) :
  forall (here : place) (batch : list string) (k : string) (v : reserves),
    (_process_batch_with_retry net here batch retry_count).1 !! k = Some v ->
    token0 v = None /\ token1 v = None.
Proof.
  induction retry_count as [rc IH] using retry_count_ind.
  intros here batch k v. rewrite process_unfold.
  destruct (get_reserves_batch (net here batch) batch) as [result|e] eqn:E.
  - destruct (decide (result = ∅)) as [Hempty|Hne].
    + destruct ((MIN_BATCH_SIZE <? length batch)%nat
                && (rc <? MAX_RETRIES)%nat) eqn:G; cbn zeta; simpl.
      * apply andb_true_iff in G. destruct G as [_ G].
        apply Nat.ltb_lt in G.
        intros H. apply lookup_union_Some_raw in H.
        destruct H as [H|[_ H]]; apply (IH _ G eq_refl) in H; exact H.
      * rewrite lookup_empty. discriminate.
    + simpl. intros H. eapply get_reserves_batch_tokens; eassumption.
  - destruct ((rc <? MAX_RETRIES)%nat && retried e) eqn:G; cbn zeta; simpl.
    + apply andb_true_iff in G. destruct G as [G _]. apply Nat.ltb_lt in G.
      apply (IH _ G eq_refl).
    + rewrite lookup_empty. discriminate.
Qed.

Lemma gather_batches_tokens (net : network) (batches : list (list string)) :
  forall (n : nat) (acc : gmap string reserves),
    (forall k v, acc !! k = Some v -> token0 v = None /\ token1 v = None) ->
    forall k v,
      gather_batches net n batches acc !! k = Some v ->
      token0 v = None /\ token1 v = None.
Proof.
  induction batches as [|batch rest IH]; intros n acc Hacc k v H; simpl in H.
  - eapply Hacc, H.
  - eapply IH; [|exact H]. intros k' v' H'.
    apply lookup_union_Some_raw in H'. destruct H' as [H'|[_ H']].
    + eapply process_tokens, H'.
    + eapply Hacc, H'.
Qed.

(** The tuples handed to the evaluator by [get_reserves_many] never carry
    token addresses. *)
Lemma get_reserves_many_tokens (net : network) (pairs : list string)
    (k : string) (r0 r1 : Z) (t0 t1 : option string) :
  get_reserves_many net pairs !! k = Some (r0, r1, t0, t1) ->
  t0 = None /\ t1 = None.
Proof.
  unfold get_reserves_many. destruct pairs as [|p rest].
  - rewrite lookup_empty. discriminate.
  - intros H. apply lookup_fmap_Some in H. destruct H as (v & Hv & H).
    unfold as_tuple in Hv. inversion Hv; subst.
    eapply gather_batches_tokens; [|exact H].
    intros k' v'. rewrite lookup_empty. discriminate.
Qed.

(** C3, as amended.  Every entry of the map returned by [get_reserves_batch]
    sits under one of the input pair addresses, namely one whose position in
    the batch holds a reply element with a usable ["result"], and it is what
    that reply decodes to; every key of [get_reserves_many] is one of its
    input addresses.  Nothing is promised about the sign of the reserves. *)
Theorem reserves_keys_are_requested_pairs :
  (forall (net : outcome) (pairs : list string) (m : gmap string reserves)
          (k : string) (v : reserves),
      get_reserves_batch net pairs = Val m -> m !! k = Some v ->
      exists (results : list json) (i : nat),
        net = Json (JList results)
        /\ pairs !! i = Some k /\ parse_at results i = Val (Some v))
  /\ (forall (net : network) (pairs : list string) (k : string)
             (t : Z * Z * option string * option string),
        get_reserves_many net pairs !! k = Some t -> k ∈ pairs).
Proof.
  split.
  - apply get_reserves_batch_lookup.
  - apply get_reserves_many_keys.
Qed.

Lemma reserves_keys_are_requested_pairs_witness :
  exists (results : list json) (i : nat),
    Examples.empty_pool_reply = Json (JList results)
    /\ [Examples.pair_a] !! i = Some Examples.pair_a
    /\ parse_at results i
       = Val (Some {| reserve0 := 0; reserve1 := 0;
                      token0 := None; token1 := None |}).
Proof.
  apply (proj1 reserves_keys_are_requested_pairs
           Examples.empty_pool_reply [Examples.pair_a]
           {[ Examples.pair_a := {| reserve0 := 0; reserve1 := 0;
                                    token0 := None; token1 := None |} ]}).
  - vm_compute. reflexivity.
  - apply lookup_singleton_eq.
Defined.

(** C3, as stated, fails: the well-formed reply of a pool without liquidity
    is stored with both reserves equal to zero. *)
Lemma get_reserves_batch_keeps_zero_reserves :
  exists (m : gmap string reserves) (v : reserves),
    get_reserves_batch Examples.empty_pool_reply [Examples.pair_a] = Val m
    /\ m !! Examples.pair_a = Some v
    /\ ~ ((0 < reserve0 v)%Z /\ (0 < reserve1 v)%Z).
Proof.
  exists {[ Examples.pair_a := {| reserve0 := 0; reserve1 := 0;
                                  token0 := None; token1 := None |} ]},
    {| reserve0 := 0; reserve1 := 0; token0 := None; token1 := None |}.
  split; [vm_compute; reflexivity|]. split.
  - apply lookup_singleton_eq.
  - simpl. lia.
Qed.

(** C7.  When a batch comes back empty, it is split if and only if it has more
    than [MIN_BATCH_SIZE = 2] items and fewer than [MAX_RETRIES = 3] levels
    lie above it: the halves [batch[:mid]] and [batch[mid:]] are sent as two
    batches of their own, one level down, and their results are merged.  A
    batch of at most 2 items that comes back empty yields the empty map and
    sends nothing further, so none of its pairs is in the output.  No
    invocation below a batch started at level 0 sits deeper than level 3. *)
Theorem halving_on_failure (net : network) (here : place)
    (batch : list string) (retry_count : nat) :
  (get_reserves_batch (net here batch) batch = Val ∅ ->
   (2 < length batch)%nat -> (retry_count < 3)%nat ->
   let mid := (length batch / 2)%nat in
   let left_task :=
     _process_batch_with_retry net (here ++ [SplitLeft])
                               (take mid batch) (retry_count + 1) in
   let right_task :=
     _process_batch_with_retry net (here ++ [SplitRight])
                               (drop mid batch) (retry_count + 1) in
   _process_batch_with_retry net here batch retry_count
   = (right_task.1 ∪ left_task.1,
      this_call here batch retry_count :: left_task.2 ++ right_task.2))
  /\ (get_reserves_batch (net here batch) batch = Val ∅ ->
      (length batch <= 2)%nat ->
      _process_batch_with_retry net here batch retry_count
      = (∅, [this_call here batch retry_count])
      /\ forall pair : string,
           (_process_batch_with_retry net here batch retry_count).1 !! pair
           = None)
  /\ (forall c : call,
        c ∈ (_process_batch_with_retry net here batch 0).2 ->
        (call_retry_count c <= 3)%nat
        /\ (length (call_place c) <= length here + 3)%nat).
Proof.
  split; [|split].
  - intros E Hlen Hrc. cbn zeta. rewrite process_unfold, E.
    destruct (decide ((∅ : gmap string reserves) = ∅)) as [_|Hne];
      [|contradiction].
    assert (G : ((MIN_BATCH_SIZE <? length batch)%nat
                 && (retry_count <? MAX_RETRIES)%nat) = true).
    { apply andb_true_iff. split; apply Nat.ltb_lt; assumption. }
    rewrite G. reflexivity.
  - intros E Hlen.
    assert (R : _process_batch_with_retry net here batch retry_count
                = (∅, [this_call here batch retry_count])).
    { rewrite process_unfold, E.
      destruct (decide ((∅ : gmap string reserves) = ∅)) as [_|Hne];
        [|contradiction].
      assert (G : (MIN_BATCH_SIZE <? length batch)%nat = false)
        by (apply Nat.ltb_ge; exact Hlen).
      rewrite G. reflexivity. }
    split; [exact R|]. intros pair. rewrite R. apply lookup_empty.
  - intros c Hc. apply process_calls_depth in Hc.
    unfold MAX_RETRIES in Hc. lia.
Qed.

Lemma halving_on_failure_witness :
  _process_batch_with_retry Examples.failing_network []
    [Examples.pair_a; Examples.pair_b; Examples.pair_c] 0
  = ((_process_batch_with_retry Examples.failing_network [SplitRight]
        [Examples.pair_b; Examples.pair_c] 1).1
     ∪ (_process_batch_with_retry Examples.failing_network [SplitLeft]
          [Examples.pair_a] 1).1,
     this_call [] [Examples.pair_a; Examples.pair_b; Examples.pair_c] 0
       :: (_process_batch_with_retry Examples.failing_network [SplitLeft]
             [Examples.pair_a] 1).2
          ++ (_process_batch_with_retry Examples.failing_network [SplitRight]
                [Examples.pair_b; Examples.pair_c] 1).2).
Proof.
  apply (proj1 (halving_on_failure Examples.failing_network []
                  [Examples.pair_a; Examples.pair_b; Examples.pair_c] 0)).
  - reflexivity.
  - simpl. lia.
  - lia.
Defined.

End AnkrFacts.

(** ** arbitrage_bot.py *)

Module BotFacts.
Import Py PyFacts LutRuntime LutSpec LutFacts Config Bot.
Open Scope Q_scope.

(** *** The AMM model *)

Lemma Qdiv_pos (a b : Q) : 0 < a -> 0 < b -> 0 < a / b.
Proof.
  intros Ha Hb. apply Qlt_shift_div_l; [exact Hb|]. now rewrite Qmult_0_l.
Qed.

Lemma Qpos_nonzero (a : Q) : 0 < a -> ~ a == 0.
Proof. intros H E. rewrite E in H. apply (Qlt_irrefl _ H). Qed.

(** C8.  For a positive input amount and positive reserves, and a fee for
    which the denominator [Rin + x(1 - phi)] does not vanish, the model
    returns [out = x(1 - phi) Rout / (Rin + x(1 - phi))] and the price
    impact [100 (Rout/Rin - out/x) / (Rout/Rin)], where [phi] is the fee as a
    fraction ([fee_percent / 100]). *)
Theorem calculate_price_impact_amm_formula (x Rin Rout fee_percent : Q) :
  0 < x -> 0 < Rin -> 0 < Rout ->
  ~ Rin + x * (1 - fee_percent / 100) == 0 ->
  exists out impact : Q,
    calculate_price_impact_amm x Rin Rout fee_percent = Val (out, impact)
    /\ out == (x * (1 - fee_percent / 100) * Rout)
              / (Rin + x * (1 - fee_percent / 100))
    /\ impact == 100 * (Rout / Rin - out / x) / (Rout / Rin).
Proof.
  intros Hx Hin Hout Hden.
  unfold calculate_price_impact_amm.
  assert (G : Qle_bool Rin 0 || Qle_bool Rout 0 || Qle_bool x 0 = false).
  { apply Qle_bool_false in Hx. apply Qle_bool_false in Hin.
    apply Qle_bool_false in Hout. now rewrite Hx, Hin, Hout. }
  rewrite G.
  rewrite (div_nonzero Rout Rin) by now apply Qpos_nonzero.
  simpl bind. cbn zeta.
  rewrite (div_nonzero _ (Rin + x * (1 - fee_percent / 100))) by exact Hden.
  simpl bind.
  rewrite (div_nonzero _ x) by now apply Qpos_nonzero.
  simpl bind.
  assert (Hprice : ~ Rout / Rin == 0)
    by (apply Qpos_nonzero, Qdiv_pos; assumption).
  rewrite (div_nonzero _ (Rout / Rin)) by exact Hprice.
  simpl bind.
  eexists _, _. split; [reflexivity|]. split; [reflexivity|].
  field. repeat split; try (now apply Qpos_nonzero).
  intros E. apply Hden.
  assert (E' : Rin + x * (1 - fee_percent / 100)
               == (Rin * 100 + x * (100 - fee_percent)) / 100) by field.
  rewrite E', E. reflexivity.
Qed.

Lemma calculate_price_impact_amm_formula_witness :
  exists out impact : Q,
    calculate_price_impact_amm 10 1000 2000 (3 # 10) = Val (out, impact)
    /\ out == (10 * (1 - (3 # 10) / 100) * 2000)
              / (1000 + 10 * (1 - (3 # 10) / 100))
    /\ impact == 100 * (2000 / 1000 - out / 10) / (2000 / 1000).
Proof.
  apply calculate_price_impact_amm_formula;
    try reflexivity.
  vm_compute. discriminate.
Defined.

(** *** The [minFinalOutput] word *)

(** C6, as amended.  Whenever parameters are prepared, the expected output in
    wei exceeds the repayment [R = L + int(L * fee% / 100)], and
    [minFinalOutput] is [m = int(expected * (1 - 0.005))] when [m >= R] and
    [R + 1] otherwise.  Hence it is never below the repayment, and it equals
    [max(m, R + 1)] except when [m] hits [R] exactly. *)
Theorem min_amount_out_floor (cfg : config) (base_out_dec : Q)
    (base_decimals loan_amount : Z) (minFinalOutput : Z) :
  min_amount_out cfg base_out_dec base_decimals loan_amount
  = Some minFinalOutput ->
  let expected := int (base_out_dec * pow10 base_decimals) in
  let repay :=
    (loan_amount
     + int (inject_Z loan_amount * get_flash_loan_fee cfg / 100))%Z in
  let m := int (inject_Z expected * (1 - (5 # 1000))) in
  (repay < expected)%Z
  /\ minFinalOutput = (if (m <? repay)%Z then repay + 1 else m)%Z
  /\ (repay <= minFinalOutput)%Z
  /\ (m <> repay -> minFinalOutput = Z.max m (repay + 1)).
Proof.
  unfold min_amount_out. cbn zeta.
  set (expected := int (base_out_dec * pow10 base_decimals)).
  set (repay := (loan_amount
                 + int (inject_Z loan_amount * get_flash_loan_fee cfg / 100))%Z).
  set (m := int (inject_Z expected * (1 - (5 # 1000)))).
  destruct (expected <=? repay)%Z eqn:Gate; [discriminate|].
  apply Z.leb_gt in Gate.
  destruct (m <? repay)%Z eqn:Low; intros H; inversion H; subst.
  - apply Z.ltb_lt in Low. repeat split; lia.
  - apply Z.ltb_ge in Low. repeat split; lia.
Qed.

Lemma min_amount_out_floor_witness :
  (1000500 < 1005528)%Z
  /\ 1000500%Z = (if (1000500 <? 1000500)%Z then 1000500 + 1 else 1000500)%Z
  /\ (1000500 <= 1000500)%Z
  /\ (1000500%Z <> 1000500%Z -> 1000500%Z = Z.max 1000500 (1000500 + 1)).
Proof.
  exact (min_amount_out_floor shipped (1005528 # 1000000) 6 1000000 1000500
           eq_refl).
Defined.

(** C6, as stated, fails.  With a loan of 1 000 000 wei at the shipped fee of
    0.05 % the repayment is 1 000 500; for an expected output of 1 005 528 wei
    the slippage-adjusted amount truncates to exactly 1 000 500, which the
    code keeps: it is neither [max(expected * 0.995, repayment + 1)] nor
    strictly above the repayment. *)
Lemma min_amount_out_can_equal_repayment :
  min_amount_out shipped (1005528 # 1000000) 6 1000000 = Some 1000500%Z
  /\ ~ (inject_Z 1000500
        == max (1005528 * (1 - (5 # 1000)))
               (1000000 * (1 + (5 # 100) / 100) + 1))
  /\ ~ (1000000 * (1 + (5 # 100) / 100) < inject_Z 1000500).
Proof.
  split; [reflexivity|]. split.
  - vm_compute. discriminate.
  - vm_compute. discriminate.
Qed.

(** *** CREATE2 derivation *)

Lemma to_checksum_address_lower (keccak : list Init.Byte.byte -> list Init.Byte.byte)
    (a b : string) :
  lower a = lower b ->
  to_checksum_address keccak a = to_checksum_address keccak b.
Proof. intros E. unfold to_checksum_address. now rewrite E. Qed.

(** C10.  Whatever the hash function, the factory and the init-code hash, the
    derived pair address does not depend on the order in which the two tokens
    are given: the tokens are put in the order of their lower-cased text
    before they are encoded, and two tokens with the same lower-cased text
    encode alike. *)
Theorem compute_pair_address_create2_symmetric
    (keccak : list Init.Byte.byte -> list Init.Byte.byte)
    (factory a b init_code_hash : string) :
  compute_pair_address_create2 keccak factory a b init_code_hash
  = compute_pair_address_create2 keccak factory b a init_code_hash.
Proof.
  unfold compute_pair_address_create2, str_gt, String.ltb.
  rewrite (String.compare_antisym (lower a) (lower b)).
  destruct (String.compare (lower b) (lower a)) eqn:C; simpl CompOpp; cbv iota.
  - apply String.compare_eq_iff in C.
    rewrite (to_checksum_address_lower keccak b a C). reflexivity.
  - reflexivity.
  - reflexivity.
Qed.

(** *** The evaluator: sizing *)

(** Only the last [return] of [size_and_profit] yields a 4-tuple without a
    counter, and its size is the grid lookup on the two base reserves. *)
Lemma size_and_profit_sized (cfg : config) (grid : LutRuntime.lut)
    (opportunity : opportunity_data) (st : locals) (b1 b2 : Q)
    (c : option counter) (size profit impact : Q) (flipped : bool) :
  well_formed grid = true ->
  size_and_profit cfg grid opportunity st b1 b2
  = Val (c, Ret4 size profit impact flipped) ->
  0 < b1 /\ 0 < b2
  /\ exists gv : Q,
       clamped_bilinear grid (l_spread st) (b2 / b1) gv
       /\ size = min b1 b2 * max 0 gv.
Proof.
  intros Hwf. unfold size_and_profit.
  destruct (Qle_bool b1 0) eqn:E1; [discriminate|].
  destruct (Qle_bool b2 0) eqn:E2; [discriminate|].
  apply Qle_bool_false in E1. apply Qle_bool_false in E2.
  simpl orb. cbn zeta.
  destruct (div 500 _) as [min_reserve_units|e]; simpl bind; [|discriminate].
  destruct (Qlt_bool b1 min_reserve_units || Qlt_bool b2 min_reserve_units);
    [discriminate|].
  destruct (size_from_lut_value grid (l_spread st) b1 b2 Hwf E1 E2)
    as (gv & Hg & Esize).
  rewrite Esize. simpl bind. intros H. inversion H; subst.
  split; [exact E1|]. split; [exact E2|]. exists gv. split; [exact Hg|reflexivity].
Qed.

Lemma after_sizing_appended (cfg : config) (base_token_symbol : string)
    (spread : Q) (min_price_dex max_price_dex : venue)
    (returned : option counter * sizing) (pairs_have_code : bool)
    (o : ArbitrageOpportunity) :
  appended (after_sizing cfg base_token_symbol spread min_price_dex
                         max_price_dex returned pairs_have_code) = Some o ->
  optimal_trade_size o = (unpack (snd returned)).1.1.1
  /\ 0 < optimal_trade_size o
  /\ buy_dex o = v_dex min_price_dex /\ sell_dex o = v_dex max_price_dex.
Proof.
  unfold after_sizing.
  destruct (unpack (snd returned)) as [[[size profit] impact] flipped].
  destruct (Qeq_bool size 0 && Qeq_bool profit 0 && Qeq_bool impact 0);
    [discriminate|].
  destruct (Qle_bool size 0) eqn:E; [discriminate|].
  apply Qle_bool_false in E.
  destruct (Qlt_bool profit (MIN_PROFIT_USD cfg)); [discriminate|].
  destruct (negb (String.eqb (v_pair_address min_price_dex) "")
            && negb (String.eqb (v_pair_address max_price_dex) "")
            && negb pairs_have_code); [discriminate|].
  simpl. intros H. inversion H; subst. simpl. auto.
Qed.

(** A filter that returns always names the counter it bumped. *)
Lemma onchain_filter_returned (cfg : config) (b : bot) (base_token : string)
    (spread : Q) (buy_reserves sell_reserves : AnkrReserves.reserves)
    (bumped : option counter) (r : sizing) :
  onchain_filter cfg b base_token spread buy_reserves sell_reserves
  = Val (Returned bumped r) ->
  bumped <> None /\ r = Ret4 0 0 0 false.
Proof.
  unfold onchain_filter.
  destruct (price_onchain b base_token buy_reserves) as [pb|];
    simpl bind; [|discriminate].
  destruct (price_onchain b base_token sell_reserves) as [ps|];
    simpl bind; [|discriminate].
  destruct (Qgt_bool pb 0 && Qgt_bool ps 0); [|discriminate].
  cbn zeta.
  destruct (Qlt_bool _ (MIN_SPREAD_PERCENT cfg)).
  { intros H; inversion H; subst. split; [discriminate|reflexivity]. }
  destruct (token_lower _) as [t0|]; simpl bind; [|discriminate].
  destruct (Qlt_bool _ (MIN_LIQUIDITY_USD cfg)).
  { intros H; inversion H; subst. split; [discriminate|reflexivity]. }
  discriminate.
Qed.

Lemma fetch_and_filter_returned (cfg : config) (b : bot)
    (opportunity : opportunity_data) (chain : chain_reads)
    (bumped : option counter) (r : sizing) :
  fetch_and_filter cfg b opportunity chain = Val (Returned bumped r) ->
  bumped <> None.
Proof.
  unfold fetch_and_filter.
  destruct (ankr_provider chain); [|discriminate].
  destruct (AnkrReserves.get_reserves_batch _ _) as [reserves_map|];
    simpl bind; [|discriminate].
  destruct (resolve _ _ _ _ _ Unbound _) as [buy|]; simpl bind; [|discriminate].
  destruct (resolve _ _ _ _ _ (snd buy) _) as [sell|];
    simpl bind; [|discriminate].
  cbn zeta.
  destruct (match fst buy with Some r0 => Some r0 | None => _ end)
    as [buy_reserves|]; [|intros H; inversion H; discriminate].
  destruct (match fst sell with Some r0 => Some r0 | None => _ end)
    as [sell_reserves|]; [|intros H; inversion H; discriminate].
  intros H. now apply onchain_filter_returned in H.
Qed.

(** Whenever [find_optimal_trade_size] gets as far as its sizing step (it
    returns a 4-tuple and bumps no drop counter), the size returned is the
    grid lookup at the spread of the locals and at the ratio [b2 / b1],
    scaled by [min(b1, b2)], where [b1] and [b2] are what [base_units] reads
    from the two reserve records held by the locals, each with the token
    order of the pair contract at [buy_pair] and at [sell_pair].  An
    opportunity is appended only with the size that was returned and only if
    that size is positive. *)
Lemma sizing_step (cfg : config) (b : bot) (grid : LutRuntime.lut) :
  lut b = Some grid -> well_formed grid = true ->
  (forall (opportunity : opportunity_data) (chain : chain_reads)
          (size profit impact : Q) (flipped : bool),
      find_optimal_trade_size cfg b opportunity chain
      = Val (None, Ret4 size profit impact flipped) ->
      exists (st : locals) (b1 b2 gv : Q),
        fetch_and_filter cfg b opportunity chain = Val (Continues st)
        /\ base_units (od_base_token_address opportunity)
                      (get_token_decimals b (od_base_token_address opportunity))
                      (l_buy_reserves st) (buy_pair_tokens chain) = Some b1
        /\ base_units (od_base_token_address opportunity)
                      (get_token_decimals b (od_base_token_address opportunity))
                      (l_sell_reserves st) (sell_pair_tokens chain) = Some b2
        /\ 0 < b1 /\ 0 < b2
        /\ clamped_bilinear grid (l_spread st) (b2 / b1) gv
        /\ size = min b1 b2 * max 0 gv)
  /\ (forall (base_token_symbol : string) (spread : Q)
             (min_price_dex max_price_dex : venue)
             (returned : option counter * sizing) (pairs_have_code : bool)
             (o : ArbitrageOpportunity),
        appended (after_sizing cfg base_token_symbol spread min_price_dex
                               max_price_dex returned pairs_have_code)
        = Some o ->
        optimal_trade_size o = (unpack (snd returned)).1.1.1
        /\ 0 < optimal_trade_size o).
Proof.
  intros Hlut Hwf. split.
  - intros opportunity chain size profit impact flipped.
    unfold find_optimal_trade_size. rewrite Hlut.
    destruct (String.eqb (od_buy_pair opportunity) ""
              || String.eqb (od_sell_pair opportunity) ""); [discriminate|].
    destruct (negb (buy_is_v2 chain) || negb (sell_is_v2 chain));
      [discriminate|].
    destruct (fetch_and_filter cfg b opportunity chain)
      as [[bumped r|st]|e] eqn:F; simpl bind; try discriminate.
    + (* a filter returned: it bumped a counter *)
      intros H. inversion H; subst.
      exfalso. now apply fetch_and_filter_returned in F.
    + cbn zeta.
      destruct (base_units _ _ (l_buy_reserves st) _) as [b1|] eqn:B1;
        [|discriminate].
      destruct (base_units _ _ (l_sell_reserves st) _) as [b2|] eqn:B2;
        [|discriminate].
      intros H.
      destruct (size_and_profit_sized _ _ _ _ _ _ _ _ _ _ _ Hwf H)
        as (P1 & P2 & gv & Hg & Hs).
      exists st, b1, b2, gv. repeat split; assumption.
  - intros sym spread mn mx returned code o H.
    apply after_sizing_appended in H. tauto.
Qed.


(** *** The evaluator: liquidity filter *)








(** For instance, with a buy pool of 1 000 000 USDC and a sell pool of 100
    USDC that loop body skips the candidate on liquidity. *)
Example process_v2_combo_thin_sell_side :
  process_v2_combo shipped Examples.bot5 Examples.thin_sell_reserves
                   Examples.known_decimals Examples.thin_sell_combo
  = Skipped (Some n_low_liquidity_usd).
Proof. vm_compute. reflexivity. Qed.

(** *** The evaluator: direction fix *)

(** What the direction fix does inside [find_optimal_trade_size]: when the
    on-chain sell price is not above the buy price and the filters are
    passed, the two reserve records change places in the locals and
    [flipped] is bound to [True]. *)
Lemma direction_fix_swaps_locals (cfg : config) (b : bot)
    (base_token : string) (spread : Q)
    (buy_reserves sell_reserves : AnkrReserves.reserves)
    (buy_price_onchain sell_price_onchain : Q) (st : locals) :
  price_onchain b base_token buy_reserves = Val buy_price_onchain ->
  price_onchain b base_token sell_reserves = Val sell_price_onchain ->
  0 < buy_price_onchain -> 0 < sell_price_onchain ->
  sell_price_onchain <= buy_price_onchain ->
  onchain_filter cfg b base_token spread buy_reserves sell_reserves
  = Val (Continues st) ->
  l_flipped st = Some true
  /\ l_buy_reserves st = Some sell_reserves
  /\ l_sell_reserves st = Some buy_reserves.
Proof.
  intros Hpb Hps Hb Hs Hle. unfold onchain_filter.
  rewrite Hpb, Hps. simpl bind.
  assert (G : Qgt_bool buy_price_onchain 0 && Qgt_bool sell_price_onchain 0
              = true).
  { apply andb_true_iff. split; now apply Qlt_bool_true. }
  rewrite G. cbn zeta.
  apply Qle_bool_iff in Hle. rewrite Hle.
  destruct (Qlt_bool _ (MIN_SPREAD_PERCENT cfg)); [discriminate|].
  destruct (token_lower _); simpl bind; [|discriminate].
  destruct (Qlt_bool _ (MIN_LIQUIDITY_USD cfg)); [discriminate|].
  intros H. inversion H; subst. simpl. auto.
Qed.

(** Whatever came back from the sizing call, an appended opportunity names
    the venue with the lower listed price as the buy venue. *)
Lemma appended_keeps_listed_direction (cfg : config)
    (base_token_symbol : string) (spread : Q)
    (min_price_dex max_price_dex : venue)
    (returned : option counter * sizing) (pairs_have_code : bool)
    (o : ArbitrageOpportunity) :
  appended (after_sizing cfg base_token_symbol spread min_price_dex
                         max_price_dex returned pairs_have_code) = Some o ->
  buy_dex o = v_dex min_price_dex /\ sell_dex o = v_dex max_price_dex.
Proof. intros H. apply after_sizing_appended in H. tauto. Qed.

(** C2 at a failing input.  QuickSwap lists the lower price, but on chain its
    pool is the dearer one (2020 against 2000 USDC per WETH).  The sizing call
    flips and reports [flipped = True]; the opportunity appended still buys on
    QuickSwap and sells on SushiSwap, at the listed prices. *)
Lemma flipped_candidate_keeps_listed_direction :
  (exists on_chain_quickswap on_chain_sushiswap : Q,
     price_onchain Examples.bot5 Examples.usdc Examples.pool_2020
     = Val on_chain_quickswap
     /\ price_onchain Examples.bot5 Examples.usdc Examples.pool_2000
        = Val on_chain_sushiswap
     /\ on_chain_quickswap == 2020 /\ on_chain_sushiswap == 2000)
  /\ exists (p : pass) (o : ArbitrageOpportunity),
       combination shipped Examples.bot5 "USDC" None
                   Examples.on_quickswap Examples.on_sushiswap
                   Examples.chain_reversed true = Val p
       /\ flipped_after p = Some true
       /\ appended p = Some o
       /\ buy_dex o = "quickswap"%string
       /\ sell_dex o = "sushiswap"%string
       /\ buy_price o = 2000 /\ sell_price o = 2020.
Proof.
  split.
  { eexists _, _. split; [reflexivity|]. split; [reflexivity|].
    split; reflexivity. }
  destruct (combination shipped Examples.bot5 "USDC" None
              Examples.on_quickswap Examples.on_sushiswap
              Examples.chain_reversed true) as [p|e] eqn:E;
    [|vm_compute in E; discriminate].
  destruct (appended p) as [o|] eqn:A;
    [|vm_compute in E; inversion E; subst; discriminate].
  exists p, o. split; [reflexivity|].
  vm_compute in E. inversion E; subst. vm_compute in A. inversion A; subst.
  repeat split; reflexivity.
Qed.

(** *** [process_v2_combos] behind the fetcher *)

(** Fed with the reserves that [get_reserves_many] delivers, the loop body of
    [process_v2_combos] never gets to its prices: the tuples carry [None] for
    both token addresses, so every candidate is skipped at the reserve join or
    at the orientation guard. *)
Lemma process_v2_combo_behind_fetcher (cfg : config) (b : bot)
    (net : AnkrReserves.network) (pairs : list string)
    (decimals_cache : string -> option Z) (c : combo) :
  let outcome :=
    process_v2_combo cfg b (AnkrReserves.get_reserves_many net pairs)
                     decimals_cache c in
  outcome = Skipped None \/ outcome = Skipped (Some skip_bad_reserves_onchain).
Proof.
  cbn zeta. unfold process_v2_combo.
  destruct (AnkrReserves.get_reserves_many net pairs !! c_buy_pair c)
    as [[[[r0 r1] t0] t1]|] eqn:Hb; [|now right].
  destruct (AnkrReserves.get_reserves_many net pairs !! c_sell_pair c)
    as [sell|]; [|now right].
  destruct (String.eqb (c_base c) "" || String.eqb (c_trade c) "");
    [now left|].
  apply AnkrFacts.get_reserves_many_tokens in Hb. destruct Hb as [-> ->].
  cbn zeta. simpl orient. now left.
Qed.

(** The derivation runs to an address on both orders of a real pair. *)
Example create2_usdc_weth_either_order :
  compute_pair_address_create2 Examples.toy_keccak Examples.quickswap_factory
    Examples.usdc Examples.weth Examples.quickswap_init_code_hash
  = compute_pair_address_create2 Examples.toy_keccak Examples.quickswap_factory
      Examples.weth Examples.usdc Examples.quickswap_init_code_hash
  /\ is_val (compute_pair_address_create2 Examples.toy_keccak
               Examples.quickswap_factory Examples.usdc Examples.weth
               Examples.quickswap_init_code_hash) = true.
Proof. split; vm_compute; reflexivity. Qed.

End BotFacts.
(** ** lut_runtime_v2.py: further properties of the lookup *)

Module LutMore.
Import Py PyFacts LutRuntime LutSpec LutFacts LutGrid.
Open Scope Q_scope.

Lemma increasing_step (xs : list Q) (i : nat) :
  increasing xs = true -> (S i < length xs)%nat ->
  nth i xs 0 < nth (S i) xs 0.
Proof.
  revert i. induction xs as [|a rest IH]; intros i H Hi; [simpl in Hi; lia|].
  destruct rest as [|b rest']; [simpl in Hi; lia|].
  simpl in H. apply andb_true_iff in H. destruct H as [Hab Hrest].
  destruct i as [|i].
  - simpl. now apply Qlt_bool_true.
  - change (nth i (b :: rest') 0 < nth (S i) (b :: rest') 0).
    apply IH; [exact Hrest|simpl in *; lia].
Qed.

Lemma increasing_nth (xs : list Q) (i j : nat) :
  increasing xs = true -> (i < j)%nat -> (j < length xs)%nat ->
  nth i xs 0 < nth j xs 0.
Proof.
  intros H Hij Hj. induction j as [|j IH]; [lia|].
  destruct (Nat.eq_dec i j) as [->|Hne].
  - now apply increasing_step.
  - apply Qlt_trans with (nth j xs 0).
    + apply IH; lia.
    + now apply increasing_step.
Qed.

(** Between two points of a growing axis lies no third. *)
Lemma increasing_between (xs : list Q) (k k' : nat) :
  increasing xs = true -> (k < length xs)%nat -> (k' + 1 < length xs)%nat ->
  nth k' xs 0 <= nth k xs 0 -> nth k xs 0 < nth (k' + 1) xs 0 -> k' = k.
Proof.
  intros H Hk Hk' Hle Hlt.
  destruct (Nat.lt_trichotomy k k') as [L|[E|G]]; [|now symmetry|].
  - exfalso. pose proof (increasing_nth xs k k' H L ltac:(lia)) as C.
    apply (Qlt_irrefl (nth k xs 0)). eapply Qlt_le_trans; eassumption.
  - exfalso. destruct (Nat.eq_dec (k' + 1)%nat k) as [E|Hne].
    + rewrite E in Hlt. apply (Qlt_irrefl _ Hlt).
    + pose proof (increasing_nth xs (k' + 1)%nat k H ltac:(lia) Hk) as C.
      apply (Qlt_irrefl (nth k xs 0)). eapply Qlt_trans; eassumption.
Qed.

Lemma clamped_linear_at_node (xs ys : list Q) (k : nat) (v : Q) :
  increasing xs = true -> length ys = length xs -> (k < length xs)%nat ->
  clamped_linear xs ys (nth k xs 0) v -> v == nth k ys 0.
Proof.
  intros H Hlen Hk [[Hle ->]|[(Hlt & Hle & ->)|(Hlt & Hlt' & k' & Hk' & A & B & ->)]];
    unfold at_, last_ in *.
  - destruct k as [|k]; [reflexivity|]. exfalso.
    pose proof (increasing_nth xs 0 (S k) H ltac:(lia) Hk) as C.
    apply (Qlt_irrefl (nth 0 xs 0)). eapply Qlt_le_trans; eassumption.
  - destruct (Nat.eq_dec k (length xs - 1)%nat) as [->|Hne];
      [rewrite Hlen; reflexivity|]. exfalso.
    pose proof (increasing_nth xs k (length xs - 1)%nat H ltac:(lia) ltac:(lia)) as C.
    apply (Qlt_irrefl (nth k xs 0)). eapply Qlt_le_trans; eassumption.
  - assert (k' = k) by (eapply increasing_between; eassumption). subst k'.
    unfold Qdiv. ring.
Qed.

Lemma clamped_rows_at_node (xs : list Q) (i i0 i1 : nat) (ts : Q) :
  increasing xs = true -> (i < length xs)%nat ->
  clamped_rows xs (nth i xs 0) i0 i1 ts -> i0 = i /\ ts == 0.
Proof.
  intros H Hi [(Hle & -> & -> & ->)|[(Hlt & Hle & -> & -> & ->)
                                    |(Hlt & Hlt' & Hi1 & -> & A & B & E)]];
    unfold at_, last_ in *.
  - split; [|reflexivity]. destruct i as [|i]; [reflexivity|]. exfalso.
    pose proof (increasing_nth xs 0 (S i) H ltac:(lia) Hi) as C.
    apply (Qlt_irrefl (nth 0 xs 0)). eapply Qlt_le_trans; eassumption.
  - split; [|reflexivity].
    destruct (Nat.eq_dec i (length xs - 1)%nat) as [->|Hne]; [reflexivity|]. exfalso.
    pose proof (increasing_nth xs i (length xs - 1)%nat H ltac:(lia) ltac:(lia)) as C.
    apply (Qlt_irrefl (nth i xs 0)). eapply Qlt_le_trans; eassumption.
  - assert (i0 = i) by (eapply increasing_between; eassumption). subst i0.
    split; [reflexivity|]. rewrite E. unfold Qdiv. ring.
Qed.

(** At a point of the grid the lookup returns the table entry. *)
Theorem _interp2_exact_at_grid_points (l : lut) (i j : nat) :
  well_formed l = true ->
  increasing (s_grid l) = true -> increasing (r_grid l) = true ->
  (i < length (s_grid l))%nat -> (j < length (r_grid l))%nat ->
  exists v : Q,
    _interp2 (s_grid l) (r_grid l) (g l)
             (nth i (s_grid l) 0) (nth j (r_grid l) 0) = Val v
    /\ v == nth j (nth i (g l) []) 0.
Proof.
  intros Hwf Hs Hr Hi Hj.
  destruct (well_formed_inv l Hwf) as (_ & _ & Hg & Hrows).
  destruct (_interp2_spec l (nth i (s_grid l) 0) (nth j (r_grid l) 0) Hwf)
    as (v & E & i0 & i1 & ts & g0 & g1 & Rows & L0 & L1 & Ev).
  exists v. split; [exact E|].
  destruct (clamped_rows_at_node _ _ _ _ _ Hs Hi Rows) as [-> Ets].
  apply clamped_linear_at_node in L0;
    [|assumption|apply Hrows; lia|assumption].
  rewrite Ev, Ets, L0. ring.
Qed.

Lemma _interp2_exact_at_grid_points_witness :
  exists v : Q,
    _interp2 (s_grid Examples.grid5) (r_grid Examples.grid5) (g Examples.grid5)
             (1 # 100) 1 = Val v
    /\ v == 2 # 10.
Proof.
  apply (_interp2_exact_at_grid_points Examples.grid5 1 1);
    try reflexivity; simpl; lia.
Defined.


(** *** The lookup stays within the range of the table *)

Lemma table_within_entry (l : lut) (lo hi : Q) (i k : nat) :
  table_within l lo hi = true ->
  (i < length (g l))%nat -> (k < length (nth i (g l) []))%nat ->
  lo <= nth k (nth i (g l) []) 0 /\ nth k (nth i (g l) []) 0 <= hi.
Proof.
  unfold table_within. intros H Hi Hk.
  rewrite forallb_forall in H.
  specialize (H (nth i (g l) []) (nth_In _ _ Hi)).
  rewrite forallb_forall in H.
  specialize (H (nth k (nth i (g l) []) 0) (nth_In _ _ Hk)).
  apply andb_true_iff in H. destruct H as [A B].
  split; now apply Qle_bool_iff.
Qed.

(** A point between two values weighted by [t] in [0, 1] lies between the
    bounds of the two. *)
Lemma weighted_within (y0 y1 t lo hi : Q) :
  0 <= t -> t <= 1 -> lo <= y0 -> y0 <= hi -> lo <= y1 -> y1 <= hi ->
  lo <= y0 + t * (y1 - y0) /\ y0 + t * (y1 - y0) <= hi.
Proof.
  intros T0 T1 A0 B0 A1 B1. split.
  - assert (E : y0 + t * (y1 - y0) - lo == (1 - t) * (y0 - lo) + t * (y1 - lo))
      by ring.
    assert (P : 0 <= (1 - t) * (y0 - lo) + t * (y1 - lo)).
    { apply (Qplus_le_compat 0 _ 0 _); apply Qmult_le_0_compat; lra. }
    lra.
  - assert (E : hi - (y0 + t * (y1 - y0)) == (1 - t) * (hi - y0) + t * (hi - y1))
      by ring.
    assert (P : 0 <= (1 - t) * (hi - y0) + t * (hi - y1)).
    { apply (Qplus_le_compat 0 _ 0 _); apply Qmult_le_0_compat; lra. }
    lra.
Qed.

Lemma weight_in_unit (x x0 x1 : Q) :
  x0 <= x -> x < x1 -> 0 <= (x - x0) / (x1 - x0) /\ (x - x0) / (x1 - x0) <= 1.
Proof.
  intros A B. assert (D : 0 < x1 - x0) by lra. split.
  - apply Qle_shift_div_l; [exact D|]. lra.
  - apply Qle_shift_div_r; [exact D|]. lra.
Qed.

Lemma clamped_linear_within (xs ys : list Q) (x v lo hi : Q) :
  length xs <> 0%nat -> length ys = length xs ->
  (forall k, (k < length ys)%nat -> lo <= nth k ys 0 /\ nth k ys 0 <= hi) ->
  clamped_linear xs ys x v -> lo <= v /\ v <= hi.
Proof.
  intros Hne Hlen Hys
    [[_ ->]|[(_ & _ & ->)|(_ & _ & k & Hk & A & B & E)]];
    unfold at_, last_ in *.
  - apply Hys. lia.
  - apply Hys. lia.
  - destruct (weight_in_unit x _ _ A B) as [T0 T1].
    destruct (Hys k ltac:(lia)) as [A0 B0].
    destruct (Hys (k + 1)%nat ltac:(lia)) as [A1 B1].
    destruct (weighted_within _ _ _ lo hi T0 T1 A0 B0 A1 B1) as [P Q'].
    rewrite E. split; assumption.
Qed.

Lemma clamped_rows_weight (xs : list Q) (s : Q) (i0 i1 : nat) (ts : Q) :
  length xs <> 0%nat -> clamped_rows xs s i0 i1 ts ->
  (i0 < length xs)%nat /\ (i1 < length xs)%nat /\ 0 <= ts /\ ts <= 1.
Proof.
  intros Hne [(_ & -> & -> & ->)|[(_ & _ & -> & -> & ->)
                                 |(_ & _ & Hi1 & -> & A & B & E)]];
    unfold at_, last_ in *.
  - repeat split; try lia; lra.
  - repeat split; try lia; lra.
  - destruct (weight_in_unit s _ _ A B) as [T0 T1].
    repeat split; try lia; rewrite E; assumption.
Qed.

Lemma clamped_bilinear_within (l : lut) (s r v lo hi : Q) :
  well_formed l = true -> table_within l lo hi = true ->
  clamped_bilinear l s r v -> lo <= v /\ v <= hi.
Proof.
  intros Hwf Hin (i0 & i1 & ts & g0 & g1 & Rows & L0 & L1 & E).
  destruct (well_formed_inv l Hwf) as (Hs & Hr & Hg & Hrows).
  destruct (clamped_rows_weight _ _ _ _ _ Hs Rows) as (Hi0 & Hi1 & T0 & T1).
  assert (Row : forall i, (i < length (g l))%nat ->
            forall k, (k < length (nth i (g l) []))%nat ->
              lo <= nth k (nth i (g l) []) 0 /\ nth k (nth i (g l) []) 0 <= hi)
    by (intros; now apply table_within_entry).
  apply (clamped_linear_within _ _ _ _ lo hi Hr
           (Hrows i0 ltac:(lia)) (Row i0 ltac:(lia))) in L0.
  apply (clamped_linear_within _ _ _ _ lo hi Hr
           (Hrows i1 ltac:(lia)) (Row i1 ltac:(lia))) in L1.
  destruct L0 as [A0 B0]. destruct L1 as [A1 B1].
  destruct (weighted_within _ _ _ lo hi T0 T1 A0 B0 A1 B1) as [P Q'].
  rewrite E. split; assumption.
Qed.

Lemma max_0_monotone (a b : Q) : a <= b -> max 0 a <= max 0 b.
Proof.
  intros H. unfold max, Qgt_bool.
  destruct (Qlt_bool 0 a) eqn:A; destruct (Qlt_bool 0 b) eqn:B;
    try apply Qlt_bool_true in A; try apply Qlt_bool_true in B;
    try apply Qlt_bool_false in A; try apply Qlt_bool_false in B; lra.
Qed.

(** When every entry of the table lies between [lo] and [hi], the size
    returned for positive reserves lies between [L * max(0, lo)] and
    [L * max(0, hi)], [L] being the smaller reserve: with a table of
    fractions (entries at most 1) the size never exceeds the smaller
    reserve. *)
Theorem size_from_lut_within_table_range (l : lut) (s b1 b2 lo hi : Q) :
  well_formed l = true -> table_within l lo hi = true ->
  0 < b1 -> 0 < b2 ->
  exists v : Q,
    size_from_lut l s b1 b2 = Val v
    /\ min b1 b2 * max 0 lo <= v /\ v <= min b1 b2 * max 0 hi.
Proof.
  intros Hwf Hin H1 H2.
  destruct (size_from_lut_value l s b1 b2 Hwf H1 H2) as (gv & Hg & E).
  destruct (clamped_bilinear_within l s _ gv lo hi Hwf Hin Hg) as [A B].
  assert (HL : 0 <= min b1 b2)
    by (destruct (min_cases b1 b2) as [-> | ->]; lra).
  eexists. split; [exact E|]. split.
  - rewrite !(Qmult_comm (min b1 b2)).
    apply Qmult_le_compat_r; [now apply max_0_monotone|exact HL].
  - rewrite !(Qmult_comm (min b1 b2)).
    apply Qmult_le_compat_r; [now apply max_0_monotone|exact HL].
Qed.

Lemma size_from_lut_within_table_range_witness :
  exists v : Q,
    size_from_lut Examples.grid5 (5 # 1000) 100 150 = Val v
    /\ min 100 150 * max 0 0 <= v /\ v <= min 100 150 * max 0 (2 # 10).
Proof.
  apply size_from_lut_within_table_range; reflexivity.
Defined.

(** *** Scaling both reserves *)

Lemma agree_refl (a : result Q) : agree a a.
Proof. destruct a; simpl; reflexivity. Qed.

Lemma Qlt_bool_compat_l (x x' v : Q) : x == x' -> Qlt_bool x v = Qlt_bool x' v.
Proof. intros E. unfold Qlt_bool. now rewrite E. Qed.

Lemma bisect_loop_unfold (a : list Q) (x : Q) (lo hi : nat) :
  bisect_loop a x lo hi =
  if lt_dec lo hi then
    if Qlt_bool x (nth ((lo + hi) / 2) a 0)
    then bisect_loop a x lo ((lo + hi) / 2)
    else bisect_loop a x (S ((lo + hi) / 2)) hi
  else lo.
Proof.
  funelim (bisect_loop a x lo hi).
  - rewrite Heq. reflexivity.
  - rewrite Heq0. cbv iota. rewrite Heq. reflexivity.
  - rewrite Heq0. cbv iota. rewrite Heq. reflexivity.
Qed.

Lemma bisect_loop_compat (a : list Q) (x x' : Q) :
  x == x' -> forall n lo hi, (hi - lo <= n)%nat ->
  bisect_loop a x lo hi = bisect_loop a x' lo hi.
Proof.
  intros E. induction n as [|n IH]; intros lo hi Hn;
    rewrite (bisect_loop_unfold a x), (bisect_loop_unfold a x');
    destruct (lt_dec lo hi) as [L|L]; try reflexivity; try lia.
  assert (Hmid : (lo <= (lo + hi) / 2 < hi)%nat).
  { pose proof (Nat.div_mod_eq (lo + hi) 2).
    pose proof (Nat.mod_upper_bound (lo + hi) 2 ltac:(lia)). lia. }
  rewrite (Qlt_bool_compat_l x x' _ E).
  destruct (Qlt_bool x' _); apply IH; lia.
Qed.

Lemma bisect_right_compat (a : list Q) (x x' : Q) :
  x == x' -> bisect_right a x = bisect_right a x'.
Proof.
  intros E. unfold bisect_right.
  apply (bisect_loop_compat a x x' E (length a)). lia.
Qed.

Lemma _interp1_compat (xs ys : list Q) (x x' : Q) :
  x == x' -> agree (_interp1 xs ys x) (_interp1 xs ys x').
Proof.
  intros E. unfold _interp1.
  destruct (index xs 0) as [x_first|e]; simpl bind; [|reflexivity].
  rewrite <- E at 1.
  destruct (Qle_bool x x_first); [apply agree_refl|].
  destruct (last xs) as [x_last|e]; simpl bind; [|reflexivity].
  assert (G : Qle_bool x_last x = Qle_bool x_last x') by now rewrite E.
  rewrite <- G.
  destruct (Qle_bool x_last x); [apply agree_refl|].
  cbn zeta. rewrite <- (bisect_right_compat xs x x' E).
  destruct (index xs (bisect_right xs x - 1)) as [x0|e]; simpl bind;
    [|reflexivity].
  destruct (index xs (bisect_right xs x - 1 + 1)) as [x1|e]; simpl bind;
    [|reflexivity].
  destruct (index ys (bisect_right xs x - 1)) as [y0|e]; simpl bind;
    [|reflexivity].
  destruct (index ys (bisect_right xs x - 1 + 1)) as [y1|e]; simpl bind;
    [|reflexivity].
  destruct (Qne_bool x1 x0); simpl bind.
  - unfold div. destruct (Qeq_bool (x1 - x0) 0); simpl; [reflexivity|].
    now rewrite E.
  - reflexivity.
Qed.

Lemma _interp2_compat (xs rs : list Q) (G : list (list Q)) (s r r' : Q) :
  r == r' -> agree (_interp2 xs rs G s r) (_interp2 xs rs G s r').
Proof.
  intros E. unfold _interp2.
  destruct (_interp2_rows xs s) as [[[i0 i1] ts]|e]; simpl bind; [|reflexivity].
  destruct (index G i0) as [row0|e]; simpl bind; [|reflexivity].
  destruct (index G i1) as [row1|e]; simpl bind; [|reflexivity].
  pose proof (_interp1_compat rs row0 r r' E) as A0.
  pose proof (_interp1_compat rs row1 r r' E) as A1.
  destruct (_interp1 rs row0 r) as [g0|e0], (_interp1 rs row0 r') as [g0'|e0'];
    simpl in A0; try contradiction; simpl bind; [|exact A0].
  destruct (_interp1 rs row1 r) as [g1|e1], (_interp1 rs row1 r') as [g1'|e1'];
    simpl in A1; try contradiction; simpl bind; [|exact A1].
  simpl. now rewrite A0, A1.
Qed.

Lemma max_0_compat (a b : Q) : a == b -> max 0 a == max 0 b.
Proof.
  intros E. unfold max, Qgt_bool.
  assert (G : Qlt_bool 0 a = Qlt_bool 0 b) by (unfold Qlt_bool; now rewrite E).
  rewrite G. destruct (Qlt_bool 0 b); [exact E|reflexivity].
Qed.

(** Scaling both reserves by the same positive factor scales the size by
    that factor: the lookup sees the reserves only through their ratio, and
    the result is that fraction of the smaller one.  If the lookup raises,
    it raises the same exception for the scaled reserves. *)
Theorem size_from_lut_scales_with_reserves (l : lut) (s b1 b2 c : Q) :
  0 < c ->
  match size_from_lut l s (c * b1) (c * b2), size_from_lut l s b1 b2 with
  | Val scaled, Val v => scaled == c * v
  | Raise e', Raise e => e' = e
  | _, _ => False
  end.
Proof.
  intros Hc. unfold size_from_lut. cbn zeta.
  assert (Hmin : min (c * b1) (c * b2) == c * min b1 b2).
  { unfold min.
    assert (G : Qlt_bool (c * b2) (c * b1) = Qlt_bool b2 b1).
    { destruct (Qlt_bool b2 b1) eqn:B.
      - apply Qlt_bool_true in B. apply Qlt_bool_true.
        rewrite !(Qmult_comm c). now apply Qmult_lt_compat_r.
      - apply Qlt_bool_false in B. apply Qlt_bool_false.
        rewrite !(Qmult_comm c). apply Qmult_le_compat_r; lra. }
    rewrite G. destruct (Qlt_bool b2 b1); reflexivity. }
  assert (G0 : Qle_bool (min (c * b1) (c * b2)) 0 = Qle_bool (min b1 b2) 0).
  { rewrite Hmin. destruct (Qle_bool (min b1 b2) 0) eqn:B.
    - apply Qle_bool_iff in B. apply Qle_bool_iff.
      assert (P : 0 <= c * - min b1 b2) by (apply Qmult_le_0_compat; lra).
      lra.
    - apply Qle_bool_false in B. apply Qle_bool_false.
      now apply Qmult_lt_0_compat. }
  rewrite G0. destruct (Qle_bool (min b1 b2) 0); [simpl; ring|].
  assert (G1 : Qgt_bool (c * b1) 0 = Qgt_bool b1 0).
  { unfold Qgt_bool. destruct (Qlt_bool 0 b1) eqn:B.
    - apply Qlt_bool_true in B. apply Qlt_bool_true.
      now apply Qmult_lt_0_compat.
    - apply Qlt_bool_false in B. apply Qlt_bool_false.
      assert (P : 0 <= c * - b1) by (apply Qmult_le_0_compat; lra).
      lra. }
  rewrite G1. destruct (Qgt_bool b1 0) eqn:B1.
  - apply Qlt_bool_true in B1.
    rewrite (div_nonzero b2 b1) by lra.
    assert (Hcb : 0 < c * b1) by now apply Qmult_lt_0_compat.
    rewrite (div_nonzero (c * b2) (c * b1)) by lra.
    simpl bind.
    assert (Er : c * b2 / (c * b1) == b2 / b1) by (field; split; lra).
    pose proof (_interp2_compat (s_grid l) (r_grid l) (g l) s _ _ Er) as A.
    destruct (_interp2 _ _ _ s (c * b2 / (c * b1))) as [g'|e'],
             (_interp2 _ _ _ s (b2 / b1)) as [gv|e];
      simpl in A; try contradiction; simpl bind; [|exact A].
    change (min (c * b1) (c * b2) * max 0 g' == c * (min b1 b2 * max 0 gv)).
    rewrite Hmin, (max_0_compat _ _ A). ring.
  - simpl bind.
    destruct (_interp2 _ _ _ s 0) as [gv|e]; simpl bind; [|reflexivity].
    change (min (c * b1) (c * b2) * max 0 gv == c * (min b1 b2 * max 0 gv)).
    rewrite Hmin. ring.
Qed.

Lemma size_from_lut_scales_with_reserves_witness :
  match size_from_lut Examples.grid5 (5 # 1000) (3 * 100) (3 * 150),
        size_from_lut Examples.grid5 (5 # 1000) 100 150 with
  | Val scaled, Val v => scaled == 3 * v
  | Raise e', Raise e => e' = e
  | _, _ => False
  end.
Proof.
  apply (size_from_lut_scales_with_reserves Examples.grid5 (5 # 1000) 100 150 3).
  reflexivity.
Defined.

End LutMore.
(** ** ankr_reserves.py: further properties of the fetcher *)

Module AnkrMore.
Import Py AnkrReserves AnkrFacts.

(** *** The loop of [get_reserves_batch], position by position *)

Lemma nth_error_lookup {A} (l : list A) (i : nat) : nth_error l i = l !! i.
Proof. revert i. induction l; intros [|i]; simpl; auto. Qed.

Lemma parse_loop_absent (results : list json) (pairs : list string) :
  forall (i : nat) (acc : gmap string reserves) (p : string),
    p ∉ pairs -> parse_loop results i pairs acc !! p = acc !! p.
Proof.
  induction pairs as [|q rest IH]; intros i acc p Hp; simpl; [reflexivity|].
  apply not_elem_of_cons in Hp. destruct Hp as [Hne Hp].
  destruct (parse_at results i) as [[entry|]|e]; [|now apply IH|reflexivity].
  rewrite IH by exact Hp. now apply lookup_insert_ne.
Qed.

(** Without repeated addresses, what the map holds for the pair at position
    [j] is decided by the reply at that position alone, provided no earlier
    reply made the loop raise. *)
Lemma parse_loop_complete (results : list json) (pairs : list string) :
  NoDup pairs ->
  forall (i j : nat) (acc : gmap string reserves) (p : string),
    pairs !! j = Some p ->
    (forall j', (j' < j)%nat -> is_val (parse_at results (i + j')) = true) ->
    parse_loop results i pairs acc !! p =
    match parse_at results (i + j) with
    | Val (Some v) => Some v
    | _ => acc !! p
    end.
Proof.
  induction 1 as [|q rest Hq Hnd IH]; intros i j acc p Hj Hok;
    [rewrite lookup_nil in Hj; discriminate|].
  destruct j as [|j]; simpl in Hj.
  - inversion Hj; subst q. rewrite Nat.add_0_r. simpl.
    destruct (parse_at results i) as [[entry|]|e].
    + rewrite parse_loop_absent by exact Hq. apply lookup_insert_eq.
    + now apply parse_loop_absent.
    + reflexivity.
  - assert (Hne : q <> p).
    { intros ->. apply Hq. eapply list_elem_of_lookup_2, Hj. }
    pose proof (Hok 0%nat ltac:(lia)) as H0. rewrite Nat.add_0_r in H0.
    simpl. replace (i + S j)%nat with (S i + j)%nat by lia.
    assert (Hok' : forall j', (j' < j)%nat ->
              is_val (parse_at results (S i + j')) = true).
    { intros j' Hj'. replace (S i + j')%nat with (i + S j')%nat by lia.
      apply Hok. lia. }
    destruct (parse_at results i) as [[entry|]|e]; simpl in H0;
      [| |discriminate].
    + rewrite (IH (S i) j _ p Hj Hok').
      destruct (parse_at results (S i + j)) as [[v|]|e]; try reflexivity;
        now apply lookup_insert_ne.
    + apply (IH (S i) j _ p Hj Hok').
Qed.

(** Every entry of the map was decoded at a position up to which no reply
    made the loop raise. *)
Lemma parse_loop_lookup_before (results : list json) (pairs : list string) :
  forall (i : nat) (acc : gmap string reserves) (k : string) (v : reserves),
    parse_loop results i pairs acc !! k = Some v ->
    acc !! k = Some v
    \/ exists j : nat,
         pairs !! j = Some k /\ parse_at results (i + j) = Val (Some v)
         /\ forall j', (j' <= j)%nat ->
                       is_val (parse_at results (i + j')) = true.
Proof.
  induction pairs as [|p rest IH]; intros i acc k v H; simpl in H.
  - now left.
  - destruct (parse_at results i) as [[entry|]|e] eqn:E.
    + apply IH in H. destruct H as [H|(j & Hj & Hv & Hok)].
      * destruct (decide (p = k)) as [->|Hne].
        -- rewrite lookup_insert_eq in H. inversion H; subst.
           right. exists 0%nat. rewrite Nat.add_0_r.
           split; [reflexivity|]. split; [exact E|].
           intros j' Hj'. replace j' with 0%nat by lia.
           rewrite Nat.add_0_r, E. reflexivity.
        -- rewrite lookup_insert_ne in H by assumption. now left.
      * right. exists (S j). split; [exact Hj|].
        replace (i + S j)%nat with (S i + j)%nat by lia. split; [exact Hv|].
        intros [|j'] Hj'.
        -- rewrite Nat.add_0_r, E. reflexivity.
        -- replace (i + S j')%nat with (S i + j')%nat by lia.
           apply Hok. lia.
    + apply IH in H. destruct H as [H|(j & Hj & Hv & Hok)]; [now left|].
      right. exists (S j). split; [exact Hj|].
      replace (i + S j)%nat with (S i + j)%nat by lia. split; [exact Hv|].
      intros [|j'] Hj'.
      * rewrite Nat.add_0_r, E. reflexivity.
      * replace (i + S j')%nat with (S i + j')%nat by lia.
        apply Hok. lia.
    + now left.
Qed.

(** A reply that makes the decoder raise ends the loop: the map returned
    holds only what the replies before it decoded to, and, when no address is
    repeated, no pair at or after that position has an entry, whatever its own
    reply looks like. *)
Theorem get_reserves_batch_stops_at_bad_reply (results : list json)
    (pairs : list string) (i : nat) (e : exn) :
  parse_at results i = Raise e ->
  exists m : gmap string reserves,
    get_reserves_batch (Json (JList results)) pairs = Val m
    /\ (forall (k : string) (v : reserves),
          m !! k = Some v ->
          exists j : nat,
            (j < i)%nat /\ pairs !! j = Some k
            /\ parse_at results j = Val (Some v))
    /\ (NoDup pairs ->
        forall (j : nat) (k : string),
          (i <= j)%nat -> pairs !! j = Some k -> m !! k = None).
Proof.
  intros Hbad.
  assert (Before : forall (k : string) (v : reserves),
            parse_loop results 0 pairs ∅ !! k = Some v ->
            exists j : nat,
              (j < i)%nat /\ pairs !! j = Some k
              /\ parse_at results j = Val (Some v)).
  { intros k v H. apply parse_loop_lookup_before in H.
    destruct H as [H|(j & Hj & Hv & Hok)];
      [rewrite lookup_empty in H; discriminate|].
    exists j. simpl in Hv. repeat split; try assumption.
    destruct (Nat.lt_ge_cases j i) as [L|G]; [exact L|].
    specialize (Hok i G). simpl in Hok. rewrite Hbad in Hok. discriminate. }
  exists (parse_loop results 0 pairs ∅). split; [|split].
  - destruct pairs; reflexivity.
  - exact Before.
  - intros Hnd j k Hij Hj.
    destruct (parse_loop results 0 pairs ∅ !! k) as [v|] eqn:L; [|reflexivity].
    exfalso. destruct (Before k v L) as (j' & Hlt & Hj' & _).
    assert (j = j') by (eapply NoDup_lookup; eassumption). lia.
Qed.

Lemma get_reserves_batch_stops_at_bad_reply_witness :
  exists m : gmap string reserves,
    get_reserves_batch (Json (JList Examples.reply_with_null))
                       [Examples.pair_a; Examples.pair_b; Examples.pair_c]
    = Val m
    /\ (forall (k : string) (v : reserves),
          m !! k = Some v ->
          exists j : nat,
            (j < 1)%nat
            /\ [Examples.pair_a; Examples.pair_b; Examples.pair_c] !! j = Some k
            /\ parse_at Examples.reply_with_null j = Val (Some v))
    /\ (NoDup [Examples.pair_a; Examples.pair_b; Examples.pair_c] ->
        forall (j : nat) (k : string),
          (1 <= j)%nat ->
          [Examples.pair_a; Examples.pair_b; Examples.pair_c] !! j = Some k ->
          m !! k = None).
Proof.
  apply (get_reserves_batch_stops_at_bad_reply Examples.reply_with_null
           [Examples.pair_a; Examples.pair_b; Examples.pair_c] 1 TypeError).
  reflexivity.
Defined.

End AnkrMore.

Module AnkrDecode.
Import Py AnkrReserves AnkrFacts AbiWords.
Open Scope Z_scope.

(** *** Reading back a 32-byte word *)

Lemma hex_char_facts (d : nat) :
  (d < 16)%nat ->
  hex_digit (Bot.hex_char d) = Some (Z.of_nat d)
  /\ is_space (Bot.hex_char d) = false
  /\ (forall (A : Type) (plus minus other : A),
        match Bot.hex_char d with
        | "+"%char => plus
        | "-"%char => minus
        | _ => other
        end = other)
  /\ (Ascii.eqb (Bot.hex_char d) "x" || Ascii.eqb (Bot.hex_char d) "X")%bool
     = false
  /\ (forall rest : string,
        strip_0x (String (Bot.hex_char d) rest)
        = match rest with
          | String x rest' =>
              if (Ascii.eqb (Bot.hex_char d) "0"
                  && (Ascii.eqb x "x" || Ascii.eqb x "X"))%bool
              then match rest' with
                   | String "_" rest'' => rest''
                   | _ => rest'
                   end
              else String (Bot.hex_char d) rest
          | EmptyString => String (Bot.hex_char d) rest
          end).
Proof.
  intros H.
  do 16 (destruct d as [|d];
         [repeat split; try reflexivity; intros [|x rest]; reflexivity|]).
  lia.
Qed.

Lemma digit_of_lt (n : nat) (z : Z) : (digit_of n z < 16)%nat.
Proof.
  unfold digit_of.
  pose proof (Z.mod_pos_bound (z / 16 ^ Z.of_nat n) 16 ltac:(lia)). lia.
Qed.

Lemma digits_S (n : nat) (z : Z) :
  digits (S n) z = String (Bot.hex_char (digit_of n z)) (digits n z).
Proof. reflexivity. Qed.

Lemma length_digits (n : nat) (z : Z) : String.length (digits n z) = n.
Proof. induction n; [reflexivity|]. rewrite digits_S. simpl. now f_equal. Qed.

Lemma lstrip_digits (n : nat) (z : Z) : lstrip (digits n z) = digits n z.
Proof.
  destruct n; [reflexivity|]. rewrite digits_S. simpl.
  destruct (hex_char_facts _ (digit_of_lt n z)) as (_ & -> & _). reflexivity.
Qed.

Lemma rstrip_digits (n : nat) (z : Z) : rstrip (digits n z) = digits n z.
Proof.
  induction n; [reflexivity|]. rewrite digits_S. simpl. rewrite IHn.
  destruct (hex_char_facts _ (digit_of_lt n z)) as (_ & -> & _).
  destruct (digits n z); reflexivity.
Qed.

Lemma strip_0x_digits (n : nat) (z : Z) : strip_0x (digits n z) = digits n z.
Proof.
  destruct n; [reflexivity|]. rewrite digits_S.
  destruct (hex_char_facts _ (digit_of_lt n z)) as (_ & _ & _ & _ & ->).
  destruct n; [reflexivity|]. rewrite digits_S.
  destruct (hex_char_facts _ (digit_of_lt n z)) as (_ & _ & _ & -> & _).
  now rewrite andb_false_r.
Qed.

Lemma hex_digits_digits (n : nat) (z acc : Z) :
  hex_digits (digits n z) true acc
  = Some (acc * 16 ^ Z.of_nat n + z mod 16 ^ Z.of_nat n).
Proof.
  revert acc. induction n as [|n IH]; intros acc.
  - simpl. rewrite Z.mod_1_r. f_equal. lia.
  - rewrite digits_S. simpl hex_digits.
    destruct (hex_char_facts _ (digit_of_lt n z)) as (-> & _).
    rewrite IH. f_equal.
    rewrite Nat2Z.inj_succ, Z.pow_succ_r by lia.
    rewrite (Z.mul_comm 16 (16 ^ Z.of_nat n)).
    assert (P : (0 < 16 ^ Z.of_nat n)%Z) by (apply Z.pow_pos_nonneg; lia).
    rewrite (Z.rem_mul_r z (16 ^ Z.of_nat n) 16) by lia.
    unfold digit_of.
    pose proof (Z.mod_pos_bound (z / 16 ^ Z.of_nat n) 16 ltac:(lia)).
    rewrite Z2Nat.id by lia. ring.
Qed.

Lemma int16_digits (n : nat) (z : Z) :
  int16 (digits (S n) z) = Val (z mod 16 ^ Z.of_nat (S n)).
Proof.
  unfold int16. rewrite lstrip_digits, rstrip_digits.
  rewrite (digits_S n z) at 1.
  destruct (hex_char_facts _ (digit_of_lt n z)) as (Hd & _ & -> & _).
  rewrite strip_0x_digits.
  assert (E : hex_digits (digits (S n) z) false 0
              = hex_digits (digits (S n) z) true 0).
  { rewrite digits_S. simpl. now rewrite Hd. }
  rewrite E, hex_digits_digits. simpl Z.mul. reflexivity.
Qed.

Lemma int16_abi_word (z : Z) :
  0 <= z < 2 ^ 256 -> int16 (abi_word z) = Val z.
Proof.
  intros H. unfold abi_word. rewrite int16_digits.
  f_equal. apply Z.mod_small.
  change (16 ^ Z.of_nat 64) with (2 ^ 256). exact H.
Qed.

Close Scope Z_scope.

(** *** Cutting the words out of the reply *)

Lemma append_cons (c : ascii) (a b : string) :
  (String c a ++ b = String c (a ++ b))%string.
Proof. reflexivity. Qed.

Lemma length_append (a b : string) :
  String.length (a ++ b) = (String.length a + String.length b)%nat.
Proof.
  induction a; [reflexivity|]. rewrite append_cons. simpl. now f_equal.
Qed.

Lemma substring_skip (a s : string) (n : nat) :
  substring (String.length a) n (a ++ s) = substring 0 n s.
Proof. induction a; [reflexivity|]. rewrite append_cons. exact IHa. Qed.

Lemma substring_prefix (b c : string) :
  substring 0 (String.length b) (b ++ c) = b.
Proof.
  induction b; [now destruct c|]. rewrite append_cons. simpl. now f_equal.
Qed.

Lemma append_assoc (a b c : string) : ((a ++ b) ++ c = a ++ b ++ c)%string.
Proof.
  induction a; [reflexivity|]. rewrite !append_cons. now f_equal.
Qed.

Lemma substring_middle (a b c : string) :
  substring (String.length a) (String.length b) (a ++ b ++ c) = b.
Proof. rewrite substring_skip. apply substring_prefix. Qed.

Lemma slice_words (w0 w1 w2 : string) :
  String.length w0 = 64%nat -> String.length w1 = 64%nat ->
  String.length w2 = 64%nat ->
  let s := ("0x" ++ w0 ++ w1 ++ w2)%string in
  String.length s = 194%nat /\ slice s 2 66 = w0 /\ slice s 66 130 = w1.
Proof.
  intros L0 L1 L2 s.
  assert (Ls : String.length s = 194%nat).
  { subst s. rewrite !length_append, L0, L1, L2. reflexivity. }
  split; [exact Ls|]. unfold slice. rewrite Ls. split.
  - pose proof (substring_middle "0x" w0 (w1 ++ w2)) as H.
    rewrite L0 in H. exact H.
  - pose proof (substring_middle ("0x" ++ w0) w1 w2) as H.
    rewrite length_append, L0, L1, append_assoc in H. exact H.
Qed.

(** A well-formed reply at position [i] decodes to the two reserves. *)
Lemma parse_at_getReserves_reply (results : list json) (i : nat)
    (f : list (string * json)) (r0 r1 ts : Z) :
  results !! i = Some (JDict f) ->
  dict_get "result" f = Some (JStr (getReserves_reply r0 r1 ts)) ->
  (0 <= r0 < 2 ^ 256)%Z -> (0 <= r1 < 2 ^ 256)%Z ->
  parse_at results i
  = Val (Some {| reserve0 := r0; reserve1 := r1;
                 token0 := None; token1 := None |}).
Proof.
  intros Hi Hf H0 H1. unfold parse_at.
  rewrite AnkrMore.nth_error_lookup, Hi. simpl contains. rewrite Hf.
  simpl bind. rewrite Hf. simpl bind.
  destruct (slice_words (abi_word r0) (abi_word r1) (abi_word ts)
              (length_digits _ _) (length_digits _ _) (length_digits _ _))
    as (Ls & S0 & S1).
  fold (getReserves_reply r0 r1 ts) in Ls, S0, S1.
  unfold word, len. rewrite Ls. unfold bind.
  change (66 <=? 194)%nat with true. change (130 <=? 194)%nat with true.
  cbv iota. rewrite S0, S1, (int16_abi_word r0 H0), (int16_abi_word r1 H1).
  reflexivity.
Qed.

(** A batch whose pair at position [i] got a well-formed reply holds the two
    reserves of that reply under the pair's address, decoded as the contract
    encoded them, provided no address is repeated in the batch and no reply
    before position [i] makes the decoder raise. *)
Theorem get_reserves_batch_decodes_reply (pairs : list string)
    (results : list json) (i : nat) (p : string)
    (f : list (string * json)) (r0 r1 ts : Z) :
  NoDup pairs -> pairs !! i = Some p ->
  results !! i = Some (JDict f) ->
  dict_get "result" f = Some (JStr (getReserves_reply r0 r1 ts)) ->
  (0 <= r0 < 2 ^ 256)%Z -> (0 <= r1 < 2 ^ 256)%Z ->
  (forall j, (j < i)%nat -> is_val (parse_at results j) = true) ->
  exists m : gmap string reserves,
    get_reserves_batch (Json (JList results)) pairs = Val m
    /\ m !! p = Some {| reserve0 := r0; reserve1 := r1;
                        token0 := None; token1 := None |}.
Proof.
  intros Hnd Hp Hi Hf H0 H1 Hok.
  exists (parse_loop results 0 pairs ∅). split.
  - destruct pairs; [rewrite lookup_nil in Hp; discriminate|reflexivity].
  - rewrite (AnkrMore.parse_loop_complete results pairs Hnd 0 i ∅ p Hp Hok).
    simpl. now rewrite (parse_at_getReserves_reply results i f r0 r1 ts).
Qed.

Lemma get_reserves_batch_decodes_reply_witness :
  exists m : gmap string reserves,
    get_reserves_batch (Json (JList Examples.reply_with_null))
                       [Examples.pair_a] = Val m
    /\ m !! Examples.pair_a
       = Some {| reserve0 := 1000; reserve1 := 2000;
                 token0 := None; token1 := None |}.
Proof.
  apply (get_reserves_batch_decodes_reply [Examples.pair_a]
           Examples.reply_with_null 0 Examples.pair_a
           [("result", JStr (getReserves_reply 1000 2000 0))] 1000 2000 0).
  - apply NoDup_singleton.
  - reflexivity.
  - reflexivity.
  - reflexivity.
  - lia.
  - lia.
  - intros j Hj. lia.
Defined.

End AnkrDecode.

Module AnkrRetry.
Import Py AnkrReserves AnkrFacts AnkrLog.

(** *** How many requests one batch can cost *)

Lemma process_calls_bound (net : network) (retry_count : nat) :
  forall (here : place) (batch : list string),
    (retry_count <= MAX_RETRIES)%nat ->
    (1 <= length (_process_batch_with_retry net here batch retry_count).2
     <= 2 ^ (S MAX_RETRIES - retry_count) - 1)%nat.
Proof.
  induction retry_count as [rc IH] using retry_count_ind.
  intros here batch Hrc. rewrite process_unfold.
  assert (Hone : (1 <= 2 ^ (S MAX_RETRIES - rc) - 1)%nat).
  { unfold MAX_RETRIES in *.
    destruct rc as [|[|[|[|rc]]]]; simpl; lia. }
  assert (Hstep : (rc < MAX_RETRIES)%nat ->
            (1 + 2 * (2 ^ (S MAX_RETRIES - (rc + 1)) - 1)
             <= 2 ^ (S MAX_RETRIES - rc) - 1)%nat).
  { unfold MAX_RETRIES in *. intros Hlt.
    destruct rc as [|[|[|rc]]]; simpl; lia. }
  assert (Hlen1 : forall c : call, length [c] = 1%nat) by reflexivity.
  destruct (get_reserves_batch (net here batch) batch) as [result|e] eqn:E.
  - destruct (decide (result = ∅)) as [Hempty|Hne];
      [|simpl snd; rewrite Hlen1; lia].
    destruct ((MIN_BATCH_SIZE <? length batch)%nat
              && (rc <? MAX_RETRIES)%nat) eqn:G; cbn zeta;
      simpl snd; [|rewrite Hlen1; lia].
    apply andb_true_iff in G. destruct G as [_ G]. apply Nat.ltb_lt in G.
    rewrite length_cons, length_app.
    pose proof (IH (rc + 1)%nat G eq_refl (here ++ [SplitLeft])
                  (take (length batch / 2) batch) ltac:(lia)) as L.
    pose proof (IH (rc + 1)%nat G eq_refl (here ++ [SplitRight])
                  (drop (length batch / 2) batch) ltac:(lia)) as R.
    specialize (Hstep G).
    change (Nat.divmod (length batch) 1 0 1).1 with (length batch / 2)%nat.
    lia.
  - destruct ((rc <? MAX_RETRIES)%nat && retried e) eqn:G; cbn zeta;
      simpl snd; [|rewrite Hlen1; lia].
    apply andb_true_iff in G. destruct G as [G _]. apply Nat.ltb_lt in G.
    rewrite length_cons.
    pose proof (IH (rc + 1)%nat G eq_refl (here ++ [Retry]) batch ltac:(lia)) as A.
    specialize (Hstep G). lia.
Qed.

Lemma length_requests (net : network) (calls : list call) :
  (length (requests net calls) <= length calls)%nat.
Proof. apply List.filter_length_le. Qed.

(** Whatever the network does, handling one batch makes at least one and at
    most fifteen calls of [get_reserves_batch]: a call is retried or split at
    most three levels deep, and each level at most doubles their number.  So
    at most fifteen requests are sent, and none for an empty batch. *)
Theorem _process_batch_with_retry_request_budget (net : network)
    (here : place) (batch : list string) :
  let calls := (_process_batch_with_retry net here batch 0).2 in
  (1 <= length calls <= 15)%nat
  /\ (length (requests net calls) <= 15)%nat
  /\ requests net (_process_batch_with_retry net here [] 0).2 = [].
Proof.
  cbn zeta.
  assert (B : (1 <= length (_process_batch_with_retry net here batch 0).2
               <= 15)%nat).
  { pose proof (process_calls_bound net 0 here batch) as H.
    unfold MAX_RETRIES in H. simpl in H. apply H. lia. }
  split; [exact B|]. split.
  - pose proof (length_requests net
                  (_process_batch_with_retry net here batch 0).2). lia.
  - rewrite process_unfold. reflexivity.
Qed.

(** *** Where the entries come from *)

Lemma process_provenance (net : network) (retry_count : nat) :
  forall (here : place) (batch : list string) (k : string) (v : reserves),
    (_process_batch_with_retry net here batch retry_count).1 !! k = Some v ->
    exists c : call,
      c ∈ (_process_batch_with_retry net here batch retry_count).2
      /\ call_batch c ⊆ batch
      /\ exists m : gmap string reserves,
           get_reserves_batch (net (call_place c) (call_batch c))
                              (call_batch c) = Val m
           /\ m !! k = Some v.
Proof.
  induction retry_count as [rc IH] using retry_count_ind.
  intros here batch k v. rewrite process_unfold.
  destruct (get_reserves_batch (net here batch) batch) as [result|e] eqn:E.
  - destruct (decide (result = ∅)) as [Hempty|Hne].
    + destruct ((MIN_BATCH_SIZE <? length batch)%nat
                && (rc <? MAX_RETRIES)%nat) eqn:G; cbn zeta; simpl.
      * apply andb_true_iff in G. destruct G as [_ G].
        apply Nat.ltb_lt in G.
        intros H. apply lookup_union_Some_raw in H.
        destruct H as [H|[_ H]];
          apply (IH _ G eq_refl) in H;
          destruct H as (c & Hc & Hsub & m & Hm & Hk);
          exists c; (split; [|split; [|exists m; split; assumption]]).
        -- apply elem_of_cons. right. apply elem_of_app. now right.
        -- etransitivity; [exact Hsub|apply subseteq_drop].
        -- apply elem_of_cons. right. apply elem_of_app. now left.
        -- etransitivity; [exact Hsub|apply subseteq_take].
      * rewrite lookup_empty. discriminate.
    + simpl. intros H. exists (this_call here batch rc).
      split; [apply list_elem_of_here|]. split; [reflexivity|].
      exists result. split; assumption.
  - destruct ((rc <? MAX_RETRIES)%nat && retried e) eqn:G; cbn zeta; simpl.
    + apply andb_true_iff in G. destruct G as [G _]. apply Nat.ltb_lt in G.
      intros H. apply (IH _ G eq_refl) in H.
      destruct H as (c & Hc & Hsub & m & Hm & Hk).
      exists c. split; [|split; [exact Hsub|exists m; split; assumption]].
      apply elem_of_cons. now right.
    + rewrite lookup_empty. discriminate.
Qed.

(** Every entry of the result of a batch was delivered by one of the requests
    made for it: there is a request in the log, for a part of the batch,
    whose reply decodes to a map that holds this very entry.  Retrying and
    splitting never alter or invent an entry. *)
Theorem _process_batch_with_retry_entries_come_from_replies (net : network)
    (here : place) (batch : list string) (retry_count : nat)
    (k : string) (v : reserves) :
  (_process_batch_with_retry net here batch retry_count).1 !! k = Some v ->
  exists c : call,
    c ∈ (_process_batch_with_retry net here batch retry_count).2
    /\ call_batch c ⊆ batch
    /\ exists m : gmap string reserves,
         get_reserves_batch (net (call_place c) (call_batch c))
                            (call_batch c) = Val m
         /\ m !! k = Some v.
Proof. apply process_provenance. Qed.

Lemma _process_batch_with_retry_entries_come_from_replies_witness :
  exists c : call,
    c ∈ (_process_batch_with_retry Examples.answering_network []
           [Examples.pair_a] 0).2
    /\ call_batch c ⊆ [Examples.pair_a]
    /\ exists m : gmap string reserves,
         get_reserves_batch
           (Examples.answering_network (call_place c) (call_batch c))
           (call_batch c) = Val m
         /\ m !! Examples.pair_a
            = Some {| reserve0 := 1000; reserve1 := 2000;
                      token0 := None; token1 := None |}.
Proof.
  apply (_process_batch_with_retry_entries_come_from_replies
           Examples.answering_network [] [Examples.pair_a] 0).
  vm_compute. reflexivity.
Defined.

(** *** Giving up *)

Lemma post_failure_swallowed (net : network) (pl : place)
    (batch : list string) :
  (exists e : exn, net pl batch = PostFails e) ->
  get_reserves_batch (net pl batch) batch = Val ∅.
Proof.
  intros (e & ->). now destruct batch.
Qed.

Lemma halved_from_here (here : place) (batch : list string) (rc : nat) :
  halved_from here (this_call here batch rc).
Proof.
  exists []. split; [simpl; now rewrite app_nil_r|constructor].
Qed.

Lemma halved_from_step (here : place) (s : step) (c : call) :
  s = SplitLeft \/ s = SplitRight ->
  halved_from (here ++ [s]) c -> halved_from here c.
Proof.
  intros Hs (path & E & F). exists (s :: path). split.
  - rewrite E, <- app_assoc. reflexivity.
  - now constructor.
Qed.

Lemma process_post_failures (net : network) (retry_count : nat) :
  (forall (pl : place) (b : list string),
      exists e : exn, net pl b = PostFails e) ->
  forall (here : place) (batch : list string),
    (_process_batch_with_retry net here batch retry_count).1 = ∅
    /\ Forall (halved_from here)
              (_process_batch_with_retry net here batch retry_count).2.
Proof.
  intros Hnet.
  induction retry_count as [rc IH] using retry_count_ind.
  intros here batch. rewrite process_unfold.
  rewrite (post_failure_swallowed net here batch (Hnet here batch)).
  destruct (decide ((∅ : gmap string reserves) = ∅)) as [_|N];
    [|contradiction].
  destruct ((MIN_BATCH_SIZE <? length batch)%nat
            && (rc <? MAX_RETRIES)%nat) eqn:G; cbn zeta.
  - apply andb_true_iff in G. destruct G as [_ G]. apply Nat.ltb_lt in G.
    destruct (IH (rc + 1)%nat G eq_refl (here ++ [SplitLeft])
                 (take (length batch / 2) batch)) as [L1 L2].
    destruct (IH (rc + 1)%nat G eq_refl (here ++ [SplitRight])
                 (drop (length batch / 2) batch)) as [R1 R2].
    cbn [fst snd]. rewrite L1, R1. split; [apply map_union_empty|].
    constructor; [apply halved_from_here|].
    apply Forall_app. split.
    + eapply Forall_impl; [exact L2|].
      intros c. apply halved_from_step. now left.
    + eapply Forall_impl; [exact R2|].
      intros c. apply halved_from_step. now right.
  - split; [reflexivity|].
    constructor; [apply halved_from_here|constructor].
Qed.

(** The retry branch is reached only by an exception that leaves
    [get_reserves_batch], which is one raised while the session is created.
    When that keeps failing with an error the code retries (a time-out, or a
    message that names a rate limit), the batch is taken up four times in
    all, with retry counts 0 to 3, no request is sent and the result is
    empty.  A POST that fails, by a time-out or a rate limit as by anything
    else, is never retried: the error stays inside [get_reserves_batch], the
    result is empty, and every further call comes from halving the batch. *)
Theorem _process_batch_with_retry_gives_up_after_three_retries
    (here : place) (batch : list string) :
  (forall net : network,
      batch <> [] ->
      (forall pl : place,
          exists e : exn, net pl batch = SessionFails e /\ retried e = true) ->
      _process_batch_with_retry net here batch 0
      = (∅, [Build_call here batch 0;
             Build_call (here ++ [Retry]) batch 1;
             Build_call ((here ++ [Retry]) ++ [Retry]) batch 2;
             Build_call (((here ++ [Retry]) ++ [Retry]) ++ [Retry]) batch 3])
      /\ requests net (_process_batch_with_retry net here batch 0).2 = [])
  /\ (forall (net : network) (retry_count : nat),
        (forall (pl : place) (b : list string),
            exists e : exn, net pl b = PostFails e) ->
        (_process_batch_with_retry net here batch retry_count).1 = ∅
        /\ Forall (halved_from here)
                  (_process_batch_with_retry net here batch retry_count).2).
Proof.
  split; [|intros net rc Hnet; now apply process_post_failures].
  intros net Hne Hnet.
  assert (Hraise : forall pl, exists e,
            get_reserves_batch (net pl batch) batch = Raise e
            /\ retried e = true).
  { intros pl. destruct (Hnet pl) as (e & -> & He). exists e.
    split; [|exact He]. destruct batch; [contradiction|reflexivity]. }
  assert (Hsilent : forall pl rc,
            sends_request net (Build_call pl batch rc) = false).
  { intros pl rc. unfold sends_request. cbn [call_batch call_place].
    destruct (Hnet pl) as (e & -> & _). now destruct batch. }
  assert (E : _process_batch_with_retry net here batch 0
          = (∅, [Build_call here batch 0;
                 Build_call (here ++ [Retry]) batch 1;
                 Build_call ((here ++ [Retry]) ++ [Retry]) batch 2;
                 Build_call (((here ++ [Retry]) ++ [Retry]) ++ [Retry])
                            batch 3])).
  { rewrite process_unfold.
    destruct (Hraise here) as (e0 & -> & ->). simpl andb. cbv iota. cbn zeta.
    rewrite process_unfold.
    destruct (Hraise (here ++ [Retry])) as (e1 & -> & ->).
    simpl andb. cbv iota. cbn zeta.
    rewrite process_unfold.
    destruct (Hraise ((here ++ [Retry]) ++ [Retry])) as (e2 & -> & ->).
    simpl andb. cbv iota. cbn zeta.
    rewrite process_unfold.
    destruct (Hraise (((here ++ [Retry]) ++ [Retry]) ++ [Retry]))
      as (e3 & -> & _).
    reflexivity. }
  split; [exact E|].
  rewrite E. cbn [snd]. unfold requests. cbn [List.filter].
  now rewrite !Hsilent.
Qed.

Lemma _process_batch_with_retry_gives_up_after_three_retries_witness :
  (_process_batch_with_retry Examples.timing_out_network []
                             [Examples.pair_a] 0
   = (∅, [Build_call [] [Examples.pair_a] 0;
          Build_call [Retry] [Examples.pair_a] 1;
          Build_call [Retry; Retry] [Examples.pair_a] 2;
          Build_call [Retry; Retry; Retry] [Examples.pair_a] 3])
   /\ requests Examples.timing_out_network
        (_process_batch_with_retry Examples.timing_out_network []
                                   [Examples.pair_a] 0).2 = [])
  /\ (_process_batch_with_retry Examples.dropping_network []
         [Examples.pair_a; Examples.pair_b; Examples.pair_c] 0).1 = ∅
     /\ Forall (halved_from [])
               (_process_batch_with_retry Examples.dropping_network []
                  [Examples.pair_a; Examples.pair_b; Examples.pair_c] 0).2.
Proof.
  split.
  - apply (proj1 (_process_batch_with_retry_gives_up_after_three_retries
                    [] [Examples.pair_a]) Examples.timing_out_network).
    + discriminate.
    + intros pl. exists TimeoutError. split; reflexivity.
  - apply (proj2 (_process_batch_with_retry_gives_up_after_three_retries
                    [] [Examples.pair_a; Examples.pair_b; Examples.pair_c])
             Examples.dropping_network 0%nat).
    intros pl b. exists TimeoutError. reflexivity.
Defined.

(** *** Cutting the batches *)

Lemma chunks_concat (size : nat) (k : nat) :
  forall l : list string,
    (length l <= k * size)%nat ->
    concat (map (fun n => take size (drop (n * size) l)) (seq 0 k)) = l.
Proof.
  induction k as [|k IH]; intros l Hl.
  - simpl in *. destruct l; [reflexivity|simpl in Hl; lia].
  - simpl seq. rewrite <- seq_shift, map_cons, map_map, concat_cons.
    assert (E : map (fun n => take size (drop (S n * size) l)) (seq 0 k)
                = map (fun n => take size (drop (n * size) (drop size l)))
                      (seq 0 k)).
    { apply map_ext. intros n. rewrite drop_drop.
      do 2 f_equal; try (simpl; lia). }
    rewrite E, IH by (rewrite length_drop; simpl in Hl; lia).
    simpl. apply take_drop.
Qed.

(** The batches cut from the list of distinct addresses, put end to end,
    are that list again, and each batch holds at least one and at most 30
    addresses: every address is requested in exactly one batch. *)
Theorem batches_of_partition (unique_pairs : list string) :
  concat (batches_of unique_pairs) = unique_pairs
  /\ Forall (fun batch => (1 <= length batch <= BATCH_SIZE)%nat)
            (batches_of unique_pairs).
Proof.
  unfold batches_of, BATCH_SIZE. cbn zeta.
  pose proof (Nat.div_mod_eq (length unique_pairs + 30 - 1) 30) as D.
  pose proof (Nat.mod_upper_bound (length unique_pairs + 30 - 1) 30
                ltac:(lia)) as M.
  split.
  - apply chunks_concat. lia.
  - apply Forall_forall. intros batch Hb.
    apply list_elem_of_In, in_map_iff in Hb. destruct Hb as (n & <- & Hn).
    apply in_seq in Hn. rewrite length_take, length_drop. lia.
Qed.

(** *** No token addresses *)

(** The tuples of [get_reserves_many] never carry token addresses: both
    address slots are [None] in every entry, whatever the node replied. *)
Theorem get_reserves_many_never_names_tokens (net : network)
    (pairs : list string) (k : string) (r0 r1 : Z) (t0 t1 : option string) :
  get_reserves_many net pairs !! k = Some (r0, r1, t0, t1) ->
  t0 = None /\ t1 = None.
Proof. apply get_reserves_many_tokens. Qed.

Lemma get_reserves_many_never_names_tokens_witness :
  (None : option string) = None /\ (None : option string) = None.
Proof.
  apply (get_reserves_many_never_names_tokens Examples.answering_network
           [Examples.pair_a] Examples.pair_a 1000 2000 None None).
  vm_compute. reflexivity.
Defined.

End AnkrRetry.

Module ScanFacts.
Import Py Config Bot Scan.

(** With or without the ANKR provider, no pass of the loop of
    [process_v2_combos] gets as far as computing a price: every combination
    is skipped, either because a reserve is missing or at the guard that
    wants both token addresses, which the fetcher never supplies.  The list
    the function returns is therefore always empty. *)
Theorem process_v2_combos_skips_every_combination (cfg : config) (b : bot)
    (ankr_provider : option AnkrReserves.network)
    (decimals_cache : string -> option Z) (combos : list combo) :
  Forall (fun outcome =>
            outcome = Skipped None
            \/ outcome = Skipped (Some skip_bad_reserves_onchain))
         (process_v2_combos cfg b ankr_provider decimals_cache combos).
Proof.
  unfold process_v2_combos. apply Forall_forall. intros outcome Ho.
  apply list_elem_of_In, in_map_iff in Ho. destruct Ho as (c & <- & _).
  destruct ankr_provider as [net|]; simpl all_reserves.
  - apply BotFacts.process_v2_combo_behind_fetcher.
  - right. unfold process_v2_combo. now rewrite lookup_empty.
Qed.

End ScanFacts.

Module DecimalsFacts.
Import Py AnkrReserves AnkrDecimals.

(** *** The cache check *)

Lemma check_cache_result (cache : gmap string Z) (toks : list string) :
  forall (res : gmap string Z) (fetch : list string) (t : string),
    (check_cache cache toks res fetch).1 !! t =
    if decide (t ∈ toks) then
      match cache !! lower t with
      | Some d => Some d
      | None => res !! t
      end
    else res !! t.
Proof.
  induction toks as [|tok rest IH]; intros res fetch t; simpl.
  - destruct (decide (t ∈ [])) as [H|H]; [|reflexivity].
    apply elem_of_nil in H. contradiction.
  - destruct (cache !! lower tok) as [dec|] eqn:Hit; rewrite IH.
    + destruct (decide (t = tok)) as [->|Hne].
      * rewrite Hit, lookup_insert_eq.
        destruct (decide (tok ∈ rest)), (decide (tok ∈ tok :: rest)) as [|N];
          try reflexivity; exfalso; apply N, list_elem_of_here.
      * rewrite lookup_insert_ne by congruence.
        destruct (decide (t ∈ rest)) as [Y|N],
                 (decide (t ∈ tok :: rest)) as [Y'|N']; try reflexivity.
        -- exfalso. apply N'. now apply elem_of_cons; right.
        -- exfalso. apply elem_of_cons in Y'. destruct Y'; contradiction.
    + destruct (decide (t ∈ rest)) as [Y|N],
               (decide (t ∈ tok :: rest)) as [Y'|N']; try reflexivity.
      * exfalso. apply N'. now apply elem_of_cons; right.
      * apply elem_of_cons in Y'. destruct Y' as [->|?]; [|contradiction].
        now rewrite Hit.
Qed.

Lemma check_cache_fetch (cache : gmap string Z) (toks : list string) :
  forall (res : gmap string Z) (fetch : list string) (t : string),
    t ∈ (check_cache cache toks res fetch).2
    <-> t ∈ fetch \/ (t ∈ toks /\ cache !! lower t = None).
Proof.
  induction toks as [|tok rest IH]; intros res fetch t; simpl.
  - split; [now left|]. intros [?|[H _]]; [assumption|].
    apply elem_of_nil in H. contradiction.
  - destruct (cache !! lower tok) as [dec|] eqn:Hit; rewrite IH.
    + split.
      * intros [?|[Hin Hn]]; [now left|]. right. split; [|exact Hn].
        now apply elem_of_cons; right.
      * intros [?|[Hin Hn]]; [now left|]. right. split; [|exact Hn].
        apply elem_of_cons in Hin. destruct Hin as [->|Hin]; [|exact Hin].
        congruence.
    + rewrite elem_of_app, list_elem_of_singleton. split.
      * intros [[?| ->]|[Hin Hn]]; [now left| |].
        -- right. split; [apply list_elem_of_here|exact Hit].
        -- right. split; [now apply elem_of_cons; right|exact Hn].
      * intros [?|[Hin Hn]]; [now left; left|].
        apply elem_of_cons in Hin. destruct Hin as [->|Hin].
        -- left. now right.
        -- right. now split.
Qed.

Lemma elem_of_unique (l : list string) (t : string) : t ∈ unique l <-> t ∈ l.
Proof. unfold unique. now rewrite elem_of_elements, elem_of_list_to_set. Qed.

Lemma unique_in (l : list string) (t : string) : t ∈ unique l -> t ∈ l.
Proof. apply elem_of_unique. Qed.

Lemma in_unique (l : list string) (t : string) : t ∈ l -> t ∈ unique l.
Proof. apply elem_of_unique. Qed.

(** *** What a batch does to the two tables *)

Lemma store_loop_cache_frame (results : list json) (batch : list string)
    (k : string) :
  (forall t, t ∈ batch -> lower t <> k) ->
  forall (j : nat) (st : tables),
    t_decimals_cache (store_loop results j batch st).1 !! k
    = t_decimals_cache st !! k.
Proof.
  induction batch as [|tok rest IH]; intros Hk j st; simpl; [reflexivity|].
  destruct (decimals_at results j) as [d|e]; [|reflexivity].
  rewrite IH by (intros t Ht; apply Hk; now apply elem_of_cons; right).
  simpl. apply lookup_insert_ne, Hk, list_elem_of_here.
Qed.

Lemma default_batch_cache_frame (batch : list string) (k : string) :
  (forall t, t ∈ batch -> lower t <> k) ->
  forall st : tables,
    t_decimals_cache (default_batch batch st) !! k = t_decimals_cache st !! k.
Proof.
  induction batch as [|tok rest IH]; intros Hk st; simpl; [reflexivity|].
  rewrite IH by (intros t Ht; apply Hk; now apply elem_of_cons; right).
  simpl. apply lookup_insert_ne, Hk, list_elem_of_here.
Qed.

Lemma fetch_batch_cache_frame (r : reply) (batch : list string) (k : string)
    (st : tables) :
  (forall t, t ∈ batch -> lower t <> k) ->
  t_decimals_cache (fetch_batch r batch st) !! k = t_decimals_cache st !! k.
Proof.
  intros Hk. unfold fetch_batch.
  destruct r as [e|[ | | | |results| ]]; try reflexivity.
  - now apply default_batch_cache_frame.
  - pose proof (store_loop_cache_frame results batch k Hk 0 st) as S.
    destruct (store_loop results 0 batch st) as [st' [e|]]; simpl in S.
    + rewrite default_batch_cache_frame by exact Hk. exact S.
    + exact S.
Qed.

Lemma store_loop_result_keys (results : list json) (batch : list string)
    (t : string) :
  forall (j : nat) (st : tables) (d : Z),
    t_result (store_loop results j batch st).1 !! t = Some d ->
    t_result st !! t = Some d \/ t ∈ batch.
Proof.
  induction batch as [|tok rest IH]; intros j st d H; simpl in H; [now left|].
  destruct (decimals_at results j) as [dec|e]; [|now left].
  apply IH in H. destruct H as [H|H].
  - simpl in H. destruct (decide (tok = t)) as [->|Hne].
    + right. apply list_elem_of_here.
    + rewrite lookup_insert_ne in H by assumption. now left.
  - right. now apply elem_of_cons; right.
Qed.

Lemma default_batch_result_keys (batch : list string) (t : string) :
  forall (st : tables) (d : Z),
    t_result (default_batch batch st) !! t = Some d ->
    t_result st !! t = Some d \/ t ∈ batch.
Proof.
  induction batch as [|tok rest IH]; intros st d H; simpl in H; [now left|].
  apply IH in H. destruct H as [H|H].
  - simpl in H. destruct (decide (tok = t)) as [->|Hne].
    + right. apply list_elem_of_here.
    + rewrite lookup_insert_ne in H by assumption. now left.
  - right. now apply elem_of_cons; right.
Qed.

Lemma fetch_batch_result_keys (r : reply) (batch : list string) (t : string)
    (st : tables) (d : Z) :
  t_result (fetch_batch r batch st) !! t = Some d ->
  t_result st !! t = Some d \/ t ∈ batch.
Proof.
  unfold fetch_batch.
  destruct r as [e|[ | | | |results| ]]; try (now left).
  - apply default_batch_result_keys.
  - pose proof (store_loop_result_keys results batch t 0 st) as S.
    destruct (store_loop results 0 batch st) as [st' [e|]]; simpl in S.
    + intros H. apply default_batch_result_keys in H.
      destruct H as [H|H]; [now apply S|now right].
    + apply S.
Qed.

(** A table entry is never removed. *)
Lemma store_keeps (tok : string) (dec : Z) (st : tables) (t : string) :
  is_Some (t_result st !! t) -> is_Some (t_result (store tok dec st) !! t).
Proof.
  intros H. simpl. destruct (decide (tok = t)) as [->|Hne].
  - rewrite lookup_insert_eq. eauto.
  - now rewrite lookup_insert_ne.
Qed.

Lemma store_loop_keeps (results : list json) (batch : list string)
    (t : string) :
  forall (j : nat) (st : tables),
    is_Some (t_result st !! t) ->
    is_Some (t_result (store_loop results j batch st).1 !! t).
Proof.
  induction batch as [|tok rest IH]; intros j st H; simpl; [exact H|].
  destruct (decimals_at results j) as [dec|e]; [|exact H].
  now apply IH, store_keeps.
Qed.

Lemma default_batch_keeps (batch : list string) (t : string) :
  forall st : tables,
    is_Some (t_result st !! t) ->
    is_Some (t_result (default_batch batch st) !! t).
Proof.
  induction batch as [|tok rest IH]; intros st H; simpl; [exact H|].
  now apply IH, store_keeps.
Qed.

Lemma default_batch_covers (batch : list string) (t : string) :
  t ∈ batch ->
  forall st : tables, is_Some (t_result (default_batch batch st) !! t).
Proof.
  induction batch as [|tok rest IH]; intros Ht st;
    [apply elem_of_nil in Ht; contradiction|].
  simpl. destruct (decide (t ∈ rest)) as [Hr|Hr]; [now apply IH|].
  apply elem_of_cons in Ht. destruct Ht as [->|Ht]; [|contradiction].
  apply default_batch_keeps. simpl. rewrite lookup_insert_eq. eauto.
Qed.

Lemma store_loop_covers (results : list json) (batch : list string)
    (t : string) :
  t ∈ batch ->
  forall (j : nat) (st : tables),
    (store_loop results j batch st).2 = None ->
    is_Some (t_result (store_loop results j batch st).1 !! t).
Proof.
  induction batch as [|tok rest IH]; intros Ht j st;
    [apply elem_of_nil in Ht; contradiction|].
  simpl. destruct (decimals_at results j) as [dec|e]; [|discriminate].
  intros Hnone. destruct (decide (t ∈ rest)) as [Hr|Hr]; [now apply IH|].
  apply elem_of_cons in Ht. destruct Ht as [->|Ht]; [|contradiction].
  apply store_loop_keeps. simpl. rewrite lookup_insert_eq. eauto.
Qed.

Lemma fetch_batch_keeps (r : reply) (batch : list string) (t : string)
    (st : tables) :
  is_Some (t_result st !! t) ->
  is_Some (t_result (fetch_batch r batch st) !! t).
Proof.
  intros H. unfold fetch_batch.
  destruct r as [e|[ | | | |results| ]]; try exact H.
  - now apply default_batch_keeps.
  - pose proof (store_loop_keeps results batch t 0 st H) as S.
    destruct (store_loop results 0 batch st) as [st' [e|]]; simpl in S.
    + now apply default_batch_keeps.
    + exact S.
Qed.

Lemma fetch_batch_covers (r : reply) (batch : list string) (t : string)
    (st : tables) :
  answered r = true -> t ∈ batch ->
  is_Some (t_result (fetch_batch r batch st) !! t).
Proof.
  intros Hr Ht. unfold fetch_batch.
  destruct r as [e|[ | | | |results| ]]; try discriminate.
  - now apply default_batch_covers.
  - pose proof (store_loop_covers results batch t Ht 0 st) as S.
    destruct (store_loop results 0 batch st) as [st' [e|]]; simpl in S.
    + now apply default_batch_covers.
    + now apply S.
Qed.

(** *** All the batches *)

Lemma decimals_batches_subset (l batch : list string) (t : string) :
  batch ∈ batches_of l -> t ∈ batch -> t ∈ l.
Proof.
  unfold batches_of. intros Hb Ht.
  apply list_elem_of_In, in_map_iff in Hb. destruct Hb as (n & <- & _).
  eapply subseteq_drop, subseteq_take, Ht.
Qed.

Lemma batches_of_cover (l : list string) (t : string) :
  t ∈ l -> exists batch, batch ∈ batches_of l /\ t ∈ batch.
Proof.
  intros Ht.
  assert (E : concat (batches_of l) = l).
  { unfold batches_of, BATCH_SIZE. cbn zeta. apply AnkrRetry.chunks_concat.
    pose proof (Nat.div_mod_eq (length l + 100 - 1) 100).
    pose proof (Nat.mod_upper_bound (length l + 100 - 1) 100 ltac:(lia)).
    lia. }
  rewrite <- E in Ht. apply list_elem_of_In, in_concat in Ht.
  destruct Ht as (batch & Hb & Hin). exists batch.
  split; now apply list_elem_of_In.
Qed.

Lemma fetch_batches_cache_frame (net : nat -> list string -> reply)
    (batches : list (list string)) (k : string) :
  (forall batch t, batch ∈ batches -> t ∈ batch -> lower t <> k) ->
  forall (n : nat) (st : tables),
    t_decimals_cache (fetch_batches net n batches st) !! k
    = t_decimals_cache st !! k.
Proof.
  induction batches as [|batch rest IH]; intros Hk n st; simpl; [reflexivity|].
  rewrite IH by (intros b t Hb; apply Hk; now apply elem_of_cons; right).
  apply fetch_batch_cache_frame. intros t. apply Hk, list_elem_of_here.
Qed.

Lemma fetch_batches_result_keys (net : nat -> list string -> reply)
    (batches : list (list string)) (t : string) :
  forall (n : nat) (st : tables) (d : Z),
    t_result (fetch_batches net n batches st) !! t = Some d ->
    t_result st !! t = Some d \/ exists batch, batch ∈ batches /\ t ∈ batch.
Proof.
  induction batches as [|batch rest IH]; intros n st d H; simpl in H;
    [now left|].
  apply IH in H. destruct H as [H|(b & Hb & Ht)].
  - apply fetch_batch_result_keys in H. destruct H as [H|H]; [now left|].
    right. exists batch. split; [apply list_elem_of_here|exact H].
  - right. exists b. split; [now apply elem_of_cons; right|exact Ht].
Qed.

Lemma fetch_batches_keeps (net : nat -> list string -> reply)
    (batches : list (list string)) (t : string) :
  forall (n : nat) (st : tables),
    is_Some (t_result st !! t) ->
    is_Some (t_result (fetch_batches net n batches st) !! t).
Proof.
  induction batches as [|batch rest IH]; intros n st H; simpl; [exact H|].
  now apply IH, fetch_batch_keeps.
Qed.

Lemma fetch_batches_covers (net : nat -> list string -> reply)
    (batches : list (list string)) (t : string) :
  (forall n batch, answered (net n batch) = true) ->
  (exists batch, batch ∈ batches /\ t ∈ batch) ->
  forall (n : nat) (st : tables),
    is_Some (t_result (fetch_batches net n batches st) !! t).
Proof.
  intros Hnet. induction batches as [|batch rest IH];
    intros (b & Hb & Ht) n st; [apply elem_of_nil in Hb; contradiction|].
  simpl. apply elem_of_cons in Hb. destruct Hb as [->|Hb].
  - apply fetch_batches_keeps, fetch_batch_covers; [apply Hnet|exact Ht].
  - apply IH. exists b. now split.
Qed.

(** What [get_decimals_many] computes, with the cache check spelled out. *)
Lemma get_decimals_many_unfold (session : option exn)
    (net : nat -> list string -> reply) (cache : gmap string Z)
    (tokens : list string) :
  tokens <> [] ->
  let checked := check_cache cache (unique tokens) ∅ [] in
  get_decimals_many session net cache tokens =
  match checked.2 with
  | [] => Val (checked.1, None)
  | _ =>
      match session with
      | Some e => Raise e
      | None =>
          let st := fetch_batches net 0 (batches_of checked.2)
                      {| t_result := checked.1; t_decimals_cache := cache |} in
          Val (t_result st, Some (t_decimals_cache st))
      end
  end.
Proof.
  intros Hne. cbn zeta. unfold get_decimals_many.
  destruct tokens as [|t0 rest]; [contradiction|].
  destruct (check_cache cache (unique (t0 :: rest)) ∅ []) as [res fetch].
  reflexivity.
Qed.

(** When every token is in the cache file, the answer is read from it:
    each token gets the decimals stored under its lower-case text, no request
    is sent (neither the session nor the network is consulted) and the file is
    not written. *)
Theorem get_decimals_many_answers_from_cache (session : option exn)
    (net : nat -> list string -> reply) (cache_file : gmap string Z)
    (tokens : list string) :
  (forall t, t ∈ tokens -> is_Some (cache_file !! lower t)) ->
  exists result : gmap string Z,
    get_decimals_many session net cache_file tokens = Val (result, None)
    /\ (forall t, t ∈ tokens -> result !! t = cache_file !! lower t)
    /\ (forall t d, result !! t = Some d -> t ∈ tokens).
Proof.
  intros Hall.
  destruct (decide (tokens = [])) as [->|Hne].
  { exists ∅. split; [reflexivity|]. split.
    - intros t Ht. apply elem_of_nil in Ht. contradiction.
    - intros t d Hd. rewrite lookup_empty in Hd. discriminate. }
  rewrite (get_decimals_many_unfold session net cache_file tokens Hne).
  cbn zeta.
  destruct (check_cache cache_file (unique tokens) ∅ []).2 as [|t1 more] eqn:F.
  - eexists. split; [reflexivity|]. split.
    + intros t Ht. rewrite check_cache_result.
      pose proof (in_unique _ _ Ht) as Hu.
      destruct (decide (t ∈ unique tokens)); [|contradiction].
      destruct (Hall t Ht) as (d & ->). reflexivity.
    + intros t d. rewrite check_cache_result.
      destruct (decide (t ∈ unique tokens)) as [Hu|Hu].
      * intros _. now apply unique_in.
      * rewrite lookup_empty. discriminate.
  - exfalso.
    assert (Hin : t1 ∈ (check_cache cache_file (unique tokens) ∅ []).2)
      by (rewrite F; apply list_elem_of_here).
    apply check_cache_fetch in Hin. destruct Hin as [Hin|[Hin Hnone]].
    + apply elem_of_nil in Hin. contradiction.
    + apply unique_in in Hin. destruct (Hall t1 Hin) as (d & Hd).
      congruence.
Qed.

Lemma get_decimals_many_answers_from_cache_witness :
  exists result : gmap string Z,
    get_decimals_many (Some TimeoutError) Examples.silent_node
                      Examples.decimals_file [Examples.usdc]
    = Val (result, None)
    /\ (forall t, t ∈ [Examples.usdc] ->
                  result !! t = Examples.decimals_file !! lower t)
    /\ (forall t d, result !! t = Some d -> t ∈ [Examples.usdc]).
Proof.
  apply get_decimals_many_answers_from_cache.
  intros t Ht. apply list_elem_of_singleton in Ht. subst t.
  exists 6%Z. vm_compute. reflexivity.
Defined.

(** The file written back extends the file read: an entry that was in the
    cache is still there, unchanged, and every new key is the lower-case text
    of a requested token that was missing.  The keys of [result] are
    requested tokens. *)
Theorem get_decimals_many_only_adds_to_cache (session : option exn)
    (net : nat -> list string -> reply) (cache_file : gmap string Z)
    (tokens : list string) (result written : gmap string Z) :
  get_decimals_many session net cache_file tokens
  = Val (result, Some written) ->
  (forall k d, cache_file !! k = Some d -> written !! k = Some d)
  /\ (forall k d, written !! k = Some d ->
        cache_file !! k = Some d
        \/ exists t, t ∈ tokens /\ k = lower t /\ cache_file !! k = None)
  /\ (forall t d, result !! t = Some d -> t ∈ tokens).
Proof.
  destruct tokens as [|t0 rest] eqn:Etok; [discriminate|].
  rewrite <- Etok.
  rewrite (get_decimals_many_unfold session net cache_file tokens)
    by (rewrite Etok; discriminate).
  cbn zeta.
  set (checked := check_cache cache_file (unique tokens) ∅ []).
  destruct (checked.2) as [|t1 more] eqn:F; [discriminate|].
  rewrite <- F. destruct session as [e|]; [discriminate|].
  intros H. inversion H; subst result written. clear H.
  assert (Hfetch : forall t, t ∈ checked.2 ->
            t ∈ tokens /\ cache_file !! lower t = None).
  { intros t Ht. apply check_cache_fetch in Ht.
    destruct Ht as [Ht|[Ht Hn]]; [apply elem_of_nil in Ht; contradiction|].
    split; [now apply unique_in|exact Hn]. }
  split; [|split].
  - intros k d Hk. rewrite fetch_batches_cache_frame; [exact Hk|].
    intros batch t Hb Ht E. subst k.
    destruct (Hfetch t (decimals_batches_subset _ _ _ Hb Ht)) as [_ Hn]. congruence.
  - intros k d Hk.
    destruct (cache_file !! k) as [d0|] eqn:C.
    + left. rewrite fetch_batches_cache_frame in Hk;
        [simpl in Hk; congruence|].
      intros batch t Hb Ht E. subst k.
      destruct (Hfetch t (decimals_batches_subset _ _ _ Hb Ht)) as [_ Hn].
      congruence.
    + right.
      destruct (decide (k ∈ map lower checked.2)) as [Y|N].
      * apply list_elem_of_In, in_map_iff in Y. destruct Y as (t & E & Ht).
        apply list_elem_of_In in Ht.
        exists t. destruct (Hfetch t Ht) as [Hin _]. auto.
      * exfalso. rewrite fetch_batches_cache_frame in Hk;
          [simpl in Hk; congruence|].
        intros batch t Hb Ht E. apply N.
        apply list_elem_of_In, in_map_iff. exists t.
        split; [exact E|].
        apply list_elem_of_In. eapply decimals_batches_subset; eassumption.
  - intros t d Ht. apply fetch_batches_result_keys in Ht.
    destruct Ht as [Ht|(b & Hb & Hin)].
    + simpl in Ht. subst checked. rewrite check_cache_result in Ht.
      destruct (decide (t ∈ unique tokens)) as [Hu|Hu];
        [now apply unique_in|].
      rewrite lookup_empty in Ht. discriminate.
    + apply (Hfetch t), (decimals_batches_subset _ _ _ Hb Hin).
Qed.

Lemma get_decimals_many_only_adds_to_cache_witness :
  (forall k d, Examples.decimals_file !! k = Some d ->
               (<[lower Examples.weth := 18%Z]> Examples.decimals_file) !! k
               = Some d)
  /\ (forall k d,
        (<[lower Examples.weth := 18%Z]> Examples.decimals_file) !! k = Some d ->
        Examples.decimals_file !! k = Some d
        \/ exists t, t ∈ [Examples.usdc; Examples.weth] /\ k = lower t
                     /\ Examples.decimals_file !! k = None)
  /\ (forall t d,
        ({[ Examples.usdc := 6%Z; Examples.weth := 18%Z ]} : gmap string Z) !! t
        = Some d ->
        t ∈ [Examples.usdc; Examples.weth]).
Proof.
  apply (get_decimals_many_only_adds_to_cache None Examples.silent_node
           Examples.decimals_file [Examples.usdc; Examples.weth]).
  vm_compute. reflexivity.
Defined.

(** Every requested token gets decimals, provided each batch either fails
    or is answered by a JSON list: what the reply does not settle is filled
    in with 18. *)
Theorem get_decimals_many_covers_every_token
    (net : nat -> list string -> reply) (cache_file : gmap string Z)
    (tokens : list string) :
  (forall n batch, answered (net n batch) = true) ->
  exists (result : gmap string Z) (written : option (gmap string Z)),
    get_decimals_many None net cache_file tokens = Val (result, written)
    /\ forall t, t ∈ tokens -> is_Some (result !! t).
Proof.
  intros Hnet. destruct tokens as [|t0 rest] eqn:Etok.
  { eexists _, _. split; [reflexivity|]. intros t Ht.
    apply elem_of_nil in Ht. contradiction. }
  rewrite <- Etok.
  rewrite (get_decimals_many_unfold None net cache_file tokens)
    by (rewrite Etok; discriminate).
  cbn zeta.
  set (checked := check_cache cache_file (unique tokens) ∅ []).
  assert (Hchecked : forall t, t ∈ tokens ->
            is_Some (checked.1 !! t) \/ t ∈ checked.2).
  { intros t Ht. apply in_unique in Ht.
    destruct (cache_file !! lower t) as [d|] eqn:C.
    - left. subst checked. rewrite check_cache_result.
      destruct (decide (t ∈ unique tokens)); [|contradiction].
      rewrite C. eauto.
    - right. apply check_cache_fetch. right. now split. }
  destruct (checked.2) as [|t1 more] eqn:F.
  - eexists _, _. split; [reflexivity|]. intros t Ht.
    destruct (Hchecked t Ht) as [H|H]; [exact H|].
    apply elem_of_nil in H. contradiction.
  - rewrite <- F in *. eexists _, _. split; [reflexivity|]. intros t Ht.
    destruct (Hchecked t Ht) as [H|H].
    + now apply fetch_batches_keeps.
    + apply fetch_batches_covers; [exact Hnet|].
      now apply batches_of_cover.
Qed.

Lemma get_decimals_many_covers_every_token_witness :
  exists (result : gmap string Z) (written : option (gmap string Z)),
    get_decimals_many None Examples.silent_node Examples.decimals_file
                      [Examples.usdc; Examples.weth] = Val (result, written)
    /\ forall t, t ∈ [Examples.usdc; Examples.weth] -> is_Some (result !! t).
Proof.
  apply get_decimals_many_covers_every_token.
  intros n batch. reflexivity.
Defined.

End DecimalsFacts.
(** ** arbitrage_bot.py: further properties *)

Module RpcFacts.
Import Py Rpc.

(** *** The rotator *)

Lemma succ_div_mod (m : nat) :
  (m mod 20 = 19 -> S m / 20 = m / 20 + 1 /\ S m mod 20 = 0)%nat
  /\ (m mod 20 <> 19 -> S m / 20 = m / 20 /\ S m mod 20 = m mod 20 + 1)%nat.
Proof.
  pose proof (Nat.div_mod_eq m 20) as D.
  pose proof (Nat.mod_upper_bound m 20 ltac:(lia)) as U.
  split; intros H.
  - split.
    + symmetry. apply (Nat.div_unique (S m) 20 (m / 20 + 1) 0); lia.
    + symmetry. apply (Nat.mod_unique (S m) 20 (m / 20 + 1) 0); lia.
  - split.
    + symmetry. apply (Nat.div_unique (S m) 20 (m / 20) (m mod 20 + 1)); lia.
    + symmetry. apply (Nat.mod_unique (S m) 20 (m / 20) (m mod 20 + 1)); lia.
Qed.

(** Starting from the state the constructor leaves, [get_next] moves on to
    the next endpoint at every 20th call and at no other: after [m] calls the
    rotator points at endpoint [(m / 20) mod n] of its [n] endpoints, its
    counter stands at [m mod 20], and reading the current endpoint succeeds. *)
Theorem get_next_switches_every_20th_call (endpoints : list string) (m : nat) :
  endpoints <> [] ->
  let r := get_next_times m (fresh endpoints) in
  rpcs r = endpoints
  /\ switch_after r = 20%nat
  /\ current r = ((m / 20) mod length endpoints)%nat
  /\ request_count r = (m mod 20)%nat
  /\ is_val (get_current r) = true.
Proof.
  intros Hne. cbn zeta.
  assert (Hlen : (0 < length endpoints)%nat)
    by (destruct endpoints; [contradiction|simpl; lia]).
  assert (Hcur : forall r : RPCRotator,
            rpcs r = endpoints -> (current r < length endpoints)%nat ->
            is_val (get_current r) = true).
  { intros r Hr Hc. unfold get_current, index. rewrite Hr.
    destruct (nth_error endpoints (current r)) eqn:E; [reflexivity|].
    apply nth_error_None in E. lia. }
  induction m as [|m IH].
  - simpl. repeat split; try reflexivity.
    + symmetry. apply Nat.mod_small. exact Hlen.
    + apply Hcur; simpl; [reflexivity|exact Hlen].
  - destruct IH as (Hr & Hs & Hc & Hq & _).
    change (get_next_times (S m) (fresh endpoints))
      with (snd (get_next (get_next_times m (fresh endpoints)))).
    set (r := get_next_times m (fresh endpoints)) in *.
    destruct (succ_div_mod m) as [Hfull Hpart].
    unfold get_next. cbn [switch_after request_count rpcs current].
    rewrite Hs, Hq.
    destruct (Nat.eq_dec (m mod 20) 19) as [E|E].
    + destruct (Hfull E) as [Ediv Emod].
      assert (G : (20 <=? m mod 20 + 1)%nat = true)
        by (apply Nat.leb_le; lia).
      rewrite G. unfold advance. cbn [rpcs current request_count switch_after].
      rewrite Hr. destruct (length endpoints) as [|n'] eqn:L; [lia|].
      cbn [snd rpcs current request_count switch_after].
      rewrite <- L in *.
      assert (C : ((current r + 1) mod length endpoints
                   = (S m / 20) mod length endpoints)%nat).
      { rewrite Hc, Ediv. apply Nat.Div0.add_mod_idemp_l. }
      repeat split; try reflexivity; try assumption.
      * symmetry. exact Emod.
      * apply Hcur; simpl; [reflexivity|].
        apply Nat.mod_upper_bound. lia.
    + destruct (Hpart E) as [Ediv Emod].
      pose proof (Nat.mod_upper_bound m 20 ltac:(lia)) as U.
      assert (G : (20 <=? m mod 20 + 1)%nat = false)
        by (apply Nat.leb_gt; lia).
      rewrite G. cbn [snd rpcs current request_count switch_after].
      repeat split; try assumption.
      * rewrite Hc, Ediv. reflexivity.
      * symmetry. exact Emod.
      * apply Hcur; simpl; [exact Hr|]. rewrite Hc.
        apply Nat.mod_upper_bound. lia.
Qed.

Lemma get_next_switches_every_20th_call_witness :
  let r := get_next_times 45 (fresh polygon_rpcs) in
  rpcs r = polygon_rpcs
  /\ switch_after r = 20%nat
  /\ current r = ((45 / 20) mod length polygon_rpcs)%nat
  /\ request_count r = (45 mod 20)%nat
  /\ is_val (get_current r) = true.
Proof.
  apply get_next_switches_every_20th_call. discriminate.
Defined.

(** *** [safe_web3_call] *)

Lemma force_switch_ok (rot : RPCRotator) :
  rpcs rot <> [] ->
  exists url rot', force_switch rot = (Val url, rot') /\ rpcs rot' = rpcs rot.
Proof.
  intros Hne. unfold force_switch, advance.
  destruct (length (rpcs rot)) as [|n] eqn:L.
  - destruct (rpcs rot); [contradiction|discriminate].
  - cbn [rpcs current]. rewrite <- L. unfold index.
    destruct (nth_error (rpcs rot) ((current rot + 1) mod length (rpcs rot)))
      as [url|] eqn:E.
    + eexists _, _. split; reflexivity.
    + apply nth_error_None in E.
      pose proof (Nat.mod_upper_bound (current rot + 1) (length (rpcs rot))
                    ltac:(lia)). lia.
Qed.

Lemma attempts_first_success {A} (func : nat -> result A) (max_retries : nat) :
  forall (remaining : nat) (rot : RPCRotator) (i : nat) (a : A),
    rpcs rot <> [] -> (remaining <= max_retries)%nat ->
    (max_retries - remaining <= i)%nat -> (i < max_retries)%nat ->
    func i = Val a ->
    (forall j, (max_retries - remaining <= j)%nat -> (j < i)%nat ->
               is_val (func j) = false) ->
    (safe_web3_attempts func max_retries remaining rot).1 = Val (Some a).
Proof.
  induction remaining as [|r IH]; intros rot i a Hne Hr Hlo Hhi Hi Hbefore;
    [lia|].
  cbn [safe_web3_attempts].
  destruct (Nat.eq_dec i (max_retries - S r)) as [E|E].
  - rewrite <- E, Hi. reflexivity.
  - pose proof (Hbefore (max_retries - S r)%nat ltac:(lia) ltac:(lia)) as F.
    destruct (func (max_retries - S r)) as [x|e]; [discriminate|].
    assert (Hnext : forall rot', rpcs rot' <> [] ->
              (safe_web3_attempts func max_retries r rot').1 = Val (Some a)).
    { intros rot' Hne'. apply (IH rot' i a); try assumption; try lia.
      intros j Hj Hji. apply Hbefore; lia. }
    assert (Hlt : (max_retries - S r <? max_retries - 1)%nat = true)
      by (apply Nat.ltb_lt; lia).
    assert (Hneq : (max_retries - S r =? max_retries - 1)%nat = false)
      by (apply Nat.eqb_neq; lia).
    destruct (is_rate_limit_error e).
    + destruct (force_switch_ok rot Hne) as (url & rot' & -> & Hrot).
      rewrite Hlt. apply Hnext. now rewrite Hrot.
    + rewrite Hneq. now apply Hnext.
Qed.

Lemma attempts_all_fail {A} (func : nat -> result A) (max_retries : nat) :
  forall (remaining : nat) (rot : RPCRotator),
    rpcs rot <> [] -> (1 <= remaining)%nat -> (remaining <= max_retries)%nat ->
    (forall j, (max_retries - remaining <= j)%nat -> (j < max_retries)%nat ->
               is_val (func j) = false) ->
    exists e : exn,
      func (max_retries - 1) = Raise e
      /\ (safe_web3_attempts func max_retries remaining rot).1 = Raise e.
Proof.
  induction remaining as [|r IH]; intros rot Hne H1 Hr Hfail; [lia|].
  cbn [safe_web3_attempts].
  pose proof (Hfail (max_retries - S r)%nat ltac:(lia) ltac:(lia)) as F.
  destruct (func (max_retries - S r)) as [x|e] eqn:E; [discriminate|].
  destruct (Nat.eq_dec r 0) as [->|Hr0].
  - assert (Hlt : (max_retries - 1 <? max_retries - 1)%nat = false)
      by (apply Nat.ltb_ge; lia).
    assert (Heq : (max_retries - 1 =? max_retries - 1)%nat = true)
      by (apply Nat.eqb_eq; lia).
    exists e. split; [exact E|].
    destruct (is_rate_limit_error e).
    + destruct (force_switch_ok rot Hne) as (url & rot' & -> & Hrot).
      rewrite Hlt, Heq. reflexivity.
    + rewrite Heq. reflexivity.
  - assert (Hnext : forall rot', rpcs rot' <> [] ->
              exists e0 : exn,
                func (max_retries - 1) = Raise e0
                /\ (safe_web3_attempts func max_retries r rot').1 = Raise e0).
    { intros rot' Hne'. apply IH; try assumption; try lia.
      intros j Hj Hjm. apply Hfail; lia. }
    assert (Hlt : (max_retries - S r <? max_retries - 1)%nat = true)
      by (apply Nat.ltb_lt; lia).
    assert (Hneq : (max_retries - S r =? max_retries - 1)%nat = false)
      by (apply Nat.eqb_neq; lia).
    destruct (is_rate_limit_error e).
    + destruct (force_switch_ok rot Hne) as (url & rot' & -> & Hrot).
      rewrite Hlt. apply Hnext. now rewrite Hrot.
    + rewrite Hneq. now apply Hnext.
Qed.

(** With a rotator that has an endpoint, [safe_web3_call] makes up to
    [max_retries] attempts and returns the value of the first one that does
    not raise; every failed attempt before the last is followed by another
    one, whether its error names a rate limit or not.  When all attempts
    raise, the exception of the last attempt is raised. *)
Theorem safe_web3_call_returns_first_success {A} (func : nat -> result A)
    (max_retries : nat) (rot : RPCRotator) :
  rpcs rot <> [] ->
  (forall (i : nat) (a : A),
      (i < max_retries)%nat -> func i = Val a ->
      (forall j, (j < i)%nat -> is_val (func j) = false) ->
      (safe_web3_call func max_retries rot).1 = Val (Some a))
  /\ ((1 <= max_retries)%nat ->
      (forall j, (j < max_retries)%nat -> is_val (func j) = false) ->
      exists e : exn,
        func (max_retries - 1) = Raise e
        /\ (safe_web3_call func max_retries rot).1 = Raise e).
Proof.
  intros Hne. unfold safe_web3_call. split.
  - intros i a Hi Hv Hbefore.
    apply (attempts_first_success func max_retries max_retries rot i a);
      try assumption; try lia.
    intros j _ Hj. now apply Hbefore.
  - intros H1 Hfail.
    apply (attempts_all_fail func max_retries max_retries rot);
      try assumption; try lia.
    intros j _ Hj. now apply Hfail.
Qed.

Lemma safe_web3_call_returns_first_success_witness :
  (safe_web3_call Examples.third_time_lucky 3 (fresh polygon_rpcs)).1
  = Val (Some 18%Z).
Proof.
  apply (proj1 (safe_web3_call_returns_first_success
                  Examples.third_time_lucky 3 (fresh polygon_rpcs)
                  ltac:(discriminate)) 2%nat 18%Z).
  - lia.
  - reflexivity.
  - intros [|[|j]] Hj; [reflexivity|reflexivity|lia].
Defined.

(** *** [get_token_decimals] *)

(** Once a token has been asked for, the answer is fixed: asking again, with
    the address in any letter case and whatever the chain would say now,
    returns the same decimals and leaves [TOKEN_DECIMALS] as it is.  This
    holds for a failed read too, which is answered, and remembered, as 18. *)
Theorem get_token_decimals_remembers
    (keccak : list Init.Byte.byte -> list Init.Byte.byte)
    (TOKEN_DECIMALS : gmap string Z) (decimals_call : result Z)
    (token_address : string) (decimals : Z) (after : gmap string Z) :
  get_token_decimals keccak TOKEN_DECIMALS decimals_call token_address
  = Val (decimals, after) ->
  (forall (later_call : result Z) (same_token : string),
      lower same_token = lower token_address ->
      get_token_decimals keccak after later_call same_token
      = Val (decimals, after))
  /\ (forall (e : exn) (checksum_address : string),
        decimals_call = Raise e ->
        Bot.to_checksum_address keccak token_address = Val checksum_address ->
        TOKEN_DECIMALS !! checksum_address = None ->
        decimals = 18%Z /\ after !! checksum_address = Some 18%Z).
Proof.
  unfold get_token_decimals.
  destruct (Bot.to_checksum_address keccak token_address) as [c|e0] eqn:C;
    simpl bind; [|discriminate].
  intros H. split.
  - intros later same E.
    rewrite (BotFacts.to_checksum_address_lower keccak same token_address E), C.
    simpl bind.
    destruct (TOKEN_DECIMALS !! c) as [d0|] eqn:L.
    + inversion H; subst. now rewrite L.
    + destruct decimals_call as [d1|e1]; inversion H; subst;
        now rewrite lookup_insert_eq.
  - intros e c' -> Hc L. inversion Hc; subst c'. rewrite L in H.
    inversion H; subst. split; [reflexivity|apply lookup_insert_eq].
Qed.

Lemma get_token_decimals_remembers_witness :
  (forall (later_call : result Z) (same_token : string),
      lower same_token = lower Examples.usdc ->
      get_token_decimals Examples.toy_keccak Examples.cache_after_failure
                         later_call same_token
      = Val (18%Z, Examples.cache_after_failure))
  /\ (forall (e : exn) (checksum_address : string),
        (Raise TimeoutError : result Z) = Raise e ->
        Bot.to_checksum_address Examples.toy_keccak Examples.usdc
        = Val checksum_address ->
        (∅ : gmap string Z) !! checksum_address = None ->
        18%Z = 18%Z
        /\ Examples.cache_after_failure !! checksum_address = Some 18%Z).
Proof.
  apply (get_token_decimals_remembers Examples.toy_keccak ∅
           (Raise TimeoutError) Examples.usdc 18 Examples.cache_after_failure).
  vm_compute. reflexivity.
Defined.

(** *** The cache of pair addresses *)

Lemma cache_key_symmetric (dex a b : string) :
  cache_key dex a b = cache_key dex b a.
Proof.
  unfold cache_key, String.ltb. cbn zeta.
  rewrite (String.compare_antisym (lower a) (lower b)).
  destruct (String.compare (lower b) (lower a)) eqn:C; simpl CompOpp;
    cbv iota; try reflexivity.
  apply String.compare_eq_iff in C. now rewrite C.
Qed.

Lemma cache_key_lower (dex a b dex' a' b' : string) :
  lower dex' = lower dex -> lower a' = lower a -> lower b' = lower b ->
  cache_key dex' a' b' = cache_key dex a b.
Proof. intros Ed Ea Eb. unfold cache_key. now rewrite Ed, Ea, Eb. Qed.

(** An address stored for a pair of tokens on a DEX is found again under the
    same two tokens in either order and in any letter case, for the DEX name
    in any letter case; it comes back in lower case.  A lookup under another
    key is not affected by the store. *)
Theorem cache_pair_address_round_trip
    (pair_address_cache : gmap (string * string * string) string)
    (dex token0 token1 pair_address dex' tokenA tokenB : string) :
  lower dex' = lower dex ->
  (lower tokenA = lower token0 /\ lower tokenB = lower token1)
  \/ (lower tokenA = lower token1 /\ lower tokenB = lower token0) ->
  get_cached_pair_address
    (cache_pair_address pair_address_cache dex token0 token1 pair_address)
    dex' tokenA tokenB = Some (lower pair_address)
  /\ (forall other_dex t0 t1 : string,
        cache_key other_dex t0 t1 <> cache_key dex token0 token1 ->
        get_cached_pair_address
          (cache_pair_address pair_address_cache dex token0 token1
                              pair_address) other_dex t0 t1
        = get_cached_pair_address pair_address_cache other_dex t0 t1).
Proof.
  intros Ed Et. unfold get_cached_pair_address, cache_pair_address. split.
  - assert (K : cache_key dex' tokenA tokenB = cache_key dex token0 token1).
    { destruct Et as [[Ea Eb]|[Ea Eb]].
      - now apply cache_key_lower.
      - rewrite (cache_key_symmetric dex token0 token1).
        now apply cache_key_lower. }
    rewrite K. apply lookup_insert_eq.
  - intros other t0 t1 Hne. apply lookup_insert_ne. congruence.
Qed.

Lemma cache_pair_address_round_trip_witness :
  get_cached_pair_address
    (cache_pair_address ∅ "QuickSwap" Examples.usdc Examples.weth
                        Examples.pair_a)
    "quickswap" (lower Examples.weth) Examples.usdc
  = Some (lower Examples.pair_a).
Proof.
  apply (cache_pair_address_round_trip ∅ "QuickSwap" Examples.usdc
           Examples.weth Examples.pair_a "quickswap"
           (lower Examples.weth) Examples.usdc).
  - reflexivity.
  - right. split; reflexivity.
Defined.

End RpcFacts.

Module AmmFacts.
Import Py PyFacts Config Bot BotFacts.
Open Scope Q_scope.

Lemma pow10_pos (d : Z) : 0 < pow10 d.
Proof. unfold pow10. apply Qpower_0_lt. reflexivity. Qed.

Lemma normalized_nonzero (r d : Z) : r <> 0%Z -> ~ inject_Z r / pow10 d == 0.
Proof.
  intros Hr E. pose proof (pow10_pos d) as P.
  assert (E' : inject_Z r == inject_Z r / pow10 d * pow10 d)
    by (field; lra).
  rewrite E in E'. ring_simplify in E'.
  unfold Qeq in E'. simpl in E'. lia.
Qed.

Lemma Qdiv_zero (a b : Q) : ~ b == 0 -> a / b == 0 -> a == 0.
Proof.
  intros Hb E. assert (E' : a == a / b * b) by (field; exact Hb).
  rewrite E', E. ring.
Qed.

Lemma Qdiv_reciprocal (a b : Q) : ~ a == 0 -> ~ b == 0 -> a / b * (b / a) == 1.
Proof. intros Ha Hb. field. split; assumption. Qed.

(** The mid price is zero exactly when a reserve is zero.  Otherwise it is
    the ratio of the two normalised reserves, the two orientations are
    reciprocal, naming the tokens in the other order gives the same price, and
    positive reserves give a positive price. *)
Theorem calculate_mid_price_from_reserves_orientations (r0 r1 d0 d1 : Z) :
  let p := calculate_mid_price_from_reserves r0 r1 d0 d1 true in
  let q := calculate_mid_price_from_reserves r0 r1 d0 d1 false in
  (p == 0 <-> r0 = 0%Z \/ r1 = 0%Z)
  /\ (r0 <> 0%Z -> r1 <> 0%Z ->
      p == (inject_Z r0 / pow10 d0) / (inject_Z r1 / pow10 d1)
      /\ p * q == 1)
  /\ calculate_mid_price_from_reserves r1 r0 d1 d0 false == p
  /\ ((0 < r0)%Z -> (0 < r1)%Z -> 0 < p).
Proof.
  cbn zeta. unfold calculate_mid_price_from_reserves.
  rewrite (orb_comm (r1 =? 0)%Z (r0 =? 0)%Z).
  destruct (r0 =? 0)%Z eqn:E0; [apply Z.eqb_eq in E0|apply Z.eqb_neq in E0].
  { simpl orb. repeat split; try reflexivity; try (intros; auto; lia). }
  destruct (r1 =? 0)%Z eqn:E1; [apply Z.eqb_eq in E1|apply Z.eqb_neq in E1].
  { simpl orb. repeat split; try reflexivity; try (intros; auto; lia). }
  simpl orb. cbv iota. cbn zeta.
  pose proof (normalized_nonzero r0 d0 E0) as N0.
  pose proof (normalized_nonzero r1 d1 E1) as N1.
  rewrite (proj2 (Qeq_bool_false _ 0) N0), (proj2 (Qeq_bool_false _ 0) N1).
  pose proof (pow10_pos d0) as P0. pose proof (pow10_pos d1) as P1.
  split; [|split; [|split]].
  - split; [|intros [?|?]; contradiction].
    intros E. exfalso. apply N0. eapply Qdiv_zero; eassumption.
  - intros _ _. split; [reflexivity|]. now apply Qdiv_reciprocal.
  - reflexivity.
  - intros H0 H1.
    assert (I0 : 0 < inject_Z r0) by (unfold Qlt; simpl; lia).
    assert (I1 : 0 < inject_Z r1) by (unfold Qlt; simpl; lia).
    apply Qdiv_pos; apply Qdiv_pos; assumption.
Qed.

(** *** The AMM model, run on admissible inputs *)

(** The formula of the AMM model evaluated in exact arithmetic, where the
    Python code computes in doubles: these bounds are facts about the formula
    and are used below only with a margin. *)
Lemma amm_run (x Rin Rout fee : Q) :
  0 < x -> 0 < Rin -> 0 < Rout -> 0 <= fee -> fee < 100 ->
  exists out impact : Q,
    calculate_price_impact_amm x Rin Rout fee = Val (out, impact)
    /\ 0 < out /\ out < Rout /\ out < x * (Rout / Rin)
    /\ fee < impact /\ impact < 100
    /\ (Rin + x * (1 - fee / 100)) * (Rout - out) == Rin * Rout.
Proof.
  intros Hx Hin Hout Hf0 Hf1.
  assert (K0 : 0 <= fee / 100)
    by (apply Qle_shift_div_l; [reflexivity|lra]).
  assert (K1 : fee / 100 < 1)
    by (apply Qlt_shift_div_r; [reflexivity|lra]).
  set (f := 1 - fee / 100).
  assert (F0 : 0 < f) by (unfold f; lra).
  assert (F1 : f <= 1) by (unfold f; lra).
  assert (A : 0 < x * f) by now apply Qmult_lt_0_compat.
  assert (D : 0 < Rin + x * f) by lra.
  unfold calculate_price_impact_amm.
  assert (G : Qle_bool Rin 0 || Qle_bool Rout 0 || Qle_bool x 0 = false).
  { apply Qle_bool_false in Hx. apply Qle_bool_false in Hin.
    apply Qle_bool_false in Hout. now rewrite Hx, Hin, Hout. }
  rewrite G.
  rewrite (div_nonzero Rout Rin) by now apply Qpos_nonzero.
  simpl bind. cbn zeta. fold f.
  rewrite (div_nonzero _ (Rin + x * f)) by now apply Qpos_nonzero.
  simpl bind.
  rewrite (div_nonzero _ x) by now apply Qpos_nonzero.
  simpl bind.
  assert (Hprice : 0 < Rout / Rin) by now apply Qdiv_pos.
  rewrite (div_nonzero _ (Rout / Rin)) by now apply Qpos_nonzero.
  simpl bind.
  set (out := x * f * Rout / (Rin + x * f)).
  eexists _, _. split; [reflexivity|].
  assert (O0 : 0 < out).
  { unfold out. apply Qdiv_pos; [|exact D]. now apply Qmult_lt_0_compat. }
  assert (PR : 0 < Rout * Rin) by now apply Qmult_lt_0_compat.
  assert (O1 : out < Rout).
  { unfold out. apply Qlt_shift_div_r; [exact D|].
    assert (E : Rout * (Rin + x * f) == x * f * Rout + Rout * Rin) by ring.
    rewrite E. lra. }
  assert (O2 : out < x * (Rout / Rin)).
  { unfold out. apply Qlt_shift_div_r; [exact D|].
    assert (E : x * (Rout / Rin) * (Rin + x * f)
                == x * Rout + x * f * Rout * (x / Rin))
      by (field; lra).
    rewrite E.
    assert (P1 : 0 < x * f * Rout * (x / Rin)).
    { apply Qmult_lt_0_compat; [now apply Qmult_lt_0_compat|].
      now apply Qdiv_pos. }
    assert (P2 : x * f * Rout <= x * Rout).
    { assert (E2 : x * Rout - x * f * Rout == x * Rout * (1 - f)) by ring.
      assert (P3 : 0 <= x * Rout * (1 - f)).
      { apply Qmult_le_0_compat; [|lra].
        apply Qlt_le_weak. now apply Qmult_lt_0_compat. }
      lra. }
    lra. }
  assert (EI : (Rout / Rin - out / x) / (Rout / Rin) * 100
               == 100 - 100 * (f * Rin / (Rin + x * f))).
  { unfold out. field. repeat split; lra. }
  assert (S0 : 0 < f * Rin / (Rin + x * f)).
  { apply Qdiv_pos; [|exact D]. now apply Qmult_lt_0_compat. }
  assert (S1 : f * Rin / (Rin + x * f) < f).
  { apply Qlt_shift_div_r; [exact D|].
    assert (E : f * (Rin + x * f) == f * Rin + f * (x * f)) by ring.
    assert (P : 0 < f * (x * f)) by now apply Qmult_lt_0_compat.
    lra. }
  assert (Ef : fee == 100 - 100 * f) by (unfold f; field).
  repeat split; try assumption.
  - rewrite EI. lra.
  - rewrite EI. lra.
  - unfold out. field. lra.
Qed.

(** The swap keeps the product of the reserves: the input reserve grown by
    the input after the fee, times the output reserve reduced by the output,
    equals the product of the reserves before. *)
Theorem calculate_price_impact_amm_constant_product (x Rin Rout fee : Q) :
  0 < x -> 0 < Rin -> 0 < Rout -> 0 <= fee -> fee < 100 ->
  exists out impact : Q,
    calculate_price_impact_amm x Rin Rout fee = Val (out, impact)
    /\ (Rin + x * (1 - fee / 100)) * (Rout - out) == Rin * Rout.
Proof.
  intros Hx Hin Hout Hf0 Hf1.
  destruct (amm_run x Rin Rout fee Hx Hin Hout Hf0 Hf1)
    as (out & impact & E & H).
  exists out, impact. tauto.
Qed.

Lemma calculate_price_impact_amm_constant_product_witness :
  exists out impact : Q,
    calculate_price_impact_amm 10 1000 2000 (3 # 10) = Val (out, impact)
    /\ (1000 + 10 * (1 - (3 # 10) / 100)) * (2000 - out) == 1000 * 2000.
Proof.
  apply calculate_price_impact_amm_constant_product; reflexivity || discriminate.
Defined.

End AmmFacts.

Module ProfitFacts.
Import Py PyFacts Config Bot BotFacts AmmFacts Profit.
Open Scope Q_scope.

Lemma token_price_pos (s : string) (p : Q) : token_price s = Some p -> 0 < p.
Proof.
  unfold token_price.
  destruct (String.eqb s "WMATIC"); [intros H; inversion H; reflexivity|].
  destruct (String.eqb s "WETH"); [intros H; inversion H; reflexivity|].
  discriminate.
Qed.

Lemma gas_cost_pos : 0 < get_gas_cost CHAIN.
Proof. reflexivity. Qed.

(** A round trip through two pools returns less than was put in unless the
    sell pool prices the token above the buy pool: with reserves passed in,
    a positive amount and fees between 0 and 100 percent, if the sell price
    [sell_base / sell_quote] is not above the buy price
    [buy_base / buy_quote] the function returns a pair whose net profit is
    negative. *)
Theorem calculate_real_profit_needs_a_price_gap (cfg : config)
    (get_pair_reserves : string -> option pair_reserves)
    (get_token_decimals : string -> Z)
    (base_amount : Q) (buy_dex sell_dex base_token_symbol : string)
    (buy_pair sell_pair base_token_address trade_token_address : option string)
    (buy_base buy_quote sell_base sell_quote : Q) :
  0 < base_amount ->
  0 < buy_base -> 0 < buy_quote -> 0 < sell_base -> 0 < sell_quote ->
  0 <= get_dex_fee cfg (or_default buy_dex) ->
  get_dex_fee cfg (or_default buy_dex) < 100 ->
  0 <= get_dex_fee cfg (or_default sell_dex) ->
  get_dex_fee cfg (or_default sell_dex) < 100 ->
  0 <= get_flash_loan_fee cfg ->
  sell_base / sell_quote <= buy_base / buy_quote ->
  exists net_profit_usd total_impact : Q,
    calculate_real_profit cfg get_pair_reserves get_token_decimals
      base_amount buy_dex sell_dex base_token_symbol
      buy_pair sell_pair base_token_address trade_token_address
      buy_base buy_quote sell_base sell_quote
    = Val (Ret2 net_profit_usd total_impact)
    /\ net_profit_usd < 0.
Proof.
  intros Hx Hbb Hbq Hsb Hsq F1a F1b F2a F2b Hflash Hgap.
  unfold calculate_real_profit. cbn zeta.
  assert (Gb : Qgt_bool buy_base 0 && Qgt_bool buy_quote 0 = true).
  { apply andb_true_iff. split; now apply Qlt_bool_true. }
  assert (Gs : Qgt_bool sell_base 0 && Qgt_bool sell_quote 0 = true).
  { apply andb_true_iff. split; now apply Qlt_bool_true. }
  rewrite Gb. simpl bind.
  destruct (amm_run base_amount buy_base buy_quote _ Hx Hbb Hbq F1a F1b)
    as (out1 & imp1 & -> & O0 & _ & O2 & _).
  simpl bind. cbv iota beta. rewrite Gs. simpl bind.
  destruct (amm_run out1 sell_quote sell_base _ O0 Hsq Hsb F2a F2b)
    as (out2 & imp2 & -> & P0 & _ & P2 & _).
  simpl bind. cbv iota beta.
  (* the second output is below the input *)
  assert (Ps : 0 < sell_base / sell_quote) by now apply Qdiv_pos.
  assert (Pb : 0 < buy_quote / buy_base) by now apply Qdiv_pos.
  assert (R1 : sell_base / sell_quote * (buy_quote / buy_base) <= 1).
  { rewrite <- (Qdiv_reciprocal buy_base buy_quote)
      by now apply Qpos_nonzero.
    apply Qmult_le_compat_r; [exact Hgap|now apply Qlt_le_weak]. }
  assert (S1 : out1 * (sell_base / sell_quote)
               < base_amount * (buy_quote / buy_base)
                 * (sell_base / sell_quote))
    by (apply Qmult_lt_compat_r; assumption).
  assert (S2 : base_amount * (buy_quote / buy_base) * (sell_base / sell_quote)
               <= base_amount).
  { assert (E : base_amount * (buy_quote / buy_base) * (sell_base / sell_quote)
                == sell_base / sell_quote * (buy_quote / buy_base)
                   * base_amount) by ring.
    rewrite E.
    assert (L : sell_base / sell_quote * (buy_quote / buy_base) * base_amount
                <= 1 * base_amount)
      by (apply Qmult_le_compat_r; [exact R1|now apply Qlt_le_weak]).
    lra. }
  assert (Hout : out2 < base_amount) by lra.
  assert (Hfee : 0 <= base_amount * (get_flash_loan_fee cfg / 100)).
  { apply Qmult_le_0_compat; [now apply Qlt_le_weak|].
    apply Qle_shift_div_l; [reflexivity|lra]. }
  unfold settle. cbn zeta.
  pose proof gas_cost_pos as Hgas.
  destruct (token_price base_token_symbol) as [p|] eqn:T.
  - apply token_price_pos in T.
    rewrite (div_nonzero _ p) by now apply Qpos_nonzero.
    simpl bind. eexists _, _. split; [reflexivity|].
    assert (Gp : 0 < get_gas_cost CHAIN / p) by now apply Qdiv_pos.
    set (net := out2 - (base_amount + base_amount * (get_flash_loan_fee cfg / 100))
                - get_gas_cost CHAIN / p).
    assert (N : net < 0) by (unfold net; lra).
    assert (M : net * p < 0 * p) by (apply Qmult_lt_compat_r; assumption).
    lra.
  - simpl bind. eexists _, _. split; [reflexivity|]. lra.
Qed.

Lemma calculate_real_profit_needs_a_price_gap_witness :
  exists net_profit_usd total_impact : Q,
    calculate_real_profit shipped (fun _ => None) (fun _ => 18%Z)
      100 "quickswap" "sushiswap" "USDC" None None None None
      1000000 500 1000000 500
    = Val (Ret2 net_profit_usd total_impact)
    /\ net_profit_usd < 0.
Proof.
  apply calculate_real_profit_needs_a_price_gap;
    try reflexivity; vm_compute; discriminate.
Defined.

(** *** [minFinalOutput] against the expected output *)

Lemma int_floor (q : Q) : 0 <= q -> int q = Qfloor q.
Proof.
  intros H. destruct q as [n d]. unfold int, Qfloor. simpl.
  apply Z.quot_div_nonneg; [|lia].
  unfold Qle in H. simpl in H. lia.
Qed.

Lemma int_nonneg (q : Q) : 0 <= q -> (0 <= int q)%Z.
Proof.
  intros H. rewrite int_floor by exact H.
  change 0%Z with (Qfloor 0). now apply Qfloor_resp_le.
Qed.

Lemma int_le (q : Q) (z : Z) : 0 <= q -> q <= inject_Z z -> (int q <= z)%Z.
Proof.
  intros H0 H. rewrite int_floor by exact H0.
  rewrite <- (Qfloor_Z z). now apply Qfloor_resp_le.
Qed.

(** For a loan that is not negative and a flash-loan fee that is not
    negative, the [minFinalOutput] that is prepared lies between the loan and
    the expected output in wei: a trade that returns what was quoted passes
    the check. *)
Theorem min_amount_out_within_expected (cfg : config) (base_out_dec : Q)
    (base_decimals loan_amount minFinalOutput : Z) :
  (0 <= loan_amount)%Z -> 0 <= get_flash_loan_fee cfg ->
  min_amount_out cfg base_out_dec base_decimals loan_amount
  = Some minFinalOutput ->
  (loan_amount <= minFinalOutput)%Z
  /\ (minFinalOutput <= int (base_out_dec * pow10 base_decimals))%Z.
Proof.
  intros Hloan Hfee. unfold min_amount_out. cbn zeta.
  set (expected := int (base_out_dec * pow10 base_decimals)).
  set (fee := int (inject_Z loan_amount * get_flash_loan_fee cfg / 100)).
  assert (Hf : (0 <= fee)%Z).
  { apply int_nonneg. apply Qle_shift_div_l; [reflexivity|].
    rewrite Qmult_0_l. apply Qmult_le_0_compat; [|exact Hfee].
    unfold Qle. simpl. lia. }
  destruct (expected <=? loan_amount + fee)%Z eqn:Guard; [discriminate|].
  apply Z.leb_gt in Guard.
  assert (He : 0 <= inject_Z expected) by (unfold Qle; simpl; lia).
  assert (Hm : (int (inject_Z expected * (1 - (5 # 1000))) <= expected)%Z).
  { apply int_le; [|lra].
    apply Qmult_le_0_compat; [exact He|]. discriminate. }
  destruct (_ <? loan_amount + fee)%Z eqn:Low; intros H; inversion H; subst.
  - lia.
  - apply Z.ltb_ge in Low. lia.
Qed.

Lemma min_amount_out_within_expected_witness :
  (1000000 <= 1000500)%Z /\ (1000500 <= 1005528)%Z.
Proof.
  apply (min_amount_out_within_expected shipped (1005528 # 1000000) 6
           1000000 1000500).
  - lia.
  - discriminate.
  - reflexivity.
Defined.

End ProfitFacts.

Module FlashLoanFacts.
Import Py PyFacts Config Bot BotFacts FlashLoan.
Open Scope Q_scope.

(** What [prepare_plan] has computed when it returns. *)
Lemma prepare_plan_inv
    (keccak : list Init.Byte.byte -> list Init.Byte.byte)
    (get_aave_liquidity : string -> Q) (get_token_decimals : string -> Z)
    (o : ArbitrageOpportunity) (p : plan) :
  prepare_plan keccak get_aave_liquidity get_token_decimals o = Val p ->
  0 < optimal_trade_size o
  /\ loan_amount_of (optimal_trade_size o)
                    (get_token_decimals (flash_loan_asset p))
     = Val (loan_amount p)
  /\ ((in_aave (quote_token_address o) = true
       /\ flash_loan_asset p = quote_token_address o
       /\ first_dex p = buy_dex o /\ first_router p = buy_router o
       /\ second_dex p = sell_dex o /\ second_router p = sell_router o
       /\ to_checksum_address keccak (quote_token_address o)
          = Val (swap_token_in_1 p)
       /\ to_checksum_address keccak (token_address o)
          = Val (swap_token_out_1 p))
      \/ (in_aave (quote_token_address o) = false
          /\ in_aave (token_address o) = true
          /\ flash_loan_asset p = token_address o
          /\ (buy_dex o <> sell_dex o ->
              first_dex p = buy_dex o /\ first_router p = buy_router o
              /\ second_dex p = sell_dex o /\ second_router p = sell_router o
              /\ swap_token_in_1 p = quote_token_address o
              /\ swap_token_out_1 p = token_address o
              /\ swap_token_in_2 p = token_address o
              /\ swap_token_out_2 p = quote_token_address o))).
Proof.
  unfold prepare_plan.
  destruct (Qle_bool (optimal_trade_size o) 0) eqn:S; [discriminate|].
  apply Qle_bool_false in S.
  unfold choose_optimal_flash_loan_token, options.
  destruct (in_aave (quote_token_address o)) eqn:Aq;
    destruct (in_aave (token_address o)) eqn:At;
    cbn [app first_base_token o_strategy String.eqb Ascii.eqb Bool.eqb
         o_token o_symbol o_route];
    simpl bind; try discriminate.
  - (* both can be borrowed: the base token wins *)
    destruct (to_checksum_address keccak (quote_token_address o)) as [cq|];
      simpl bind; [|discriminate].
    destruct (to_checksum_address keccak (token_address o)) as [ct|];
      simpl bind; [|discriminate].
    cbn [dex router token_in token_out].
    rewrite String.eqb_refl. cbn [negb].
    destruct (loan_amount_of _ _) as [loan|] eqn:L; simpl bind; [|discriminate].
    destruct (String.eqb (buy_router o) "" || String.eqb (sell_router o) "");
      [discriminate|].
    intros H. inversion H; subst. cbn.
    split; [exact S|]. split; [exact L|]. left. repeat split; reflexivity.
  - destruct (to_checksum_address keccak (quote_token_address o)) as [cq|];
      simpl bind; [|discriminate].
    destruct (to_checksum_address keccak (token_address o)) as [ct|];
      simpl bind; [|discriminate].
    cbn [dex router token_in token_out].
    rewrite String.eqb_refl. cbn [negb].
    destruct (loan_amount_of _ _) as [loan|] eqn:L; simpl bind; [|discriminate].
    destruct (String.eqb (buy_router o) "" || String.eqb (sell_router o) "");
      [discriminate|].
    intros H. inversion H; subst. cbn.
    split; [exact S|]. split; [exact L|]. left. repeat split; reflexivity.
  - (* only the trade token can be borrowed *)
    destruct (to_checksum_address keccak (token_address o)) as [ct|];
      simpl bind; [|discriminate].
    destruct (to_checksum_address keccak (quote_token_address o)) as [cq|];
      simpl bind; [|discriminate].
    cbn [dex router token_in token_out].
    destruct (loan_amount_of _ _) as [loan|] eqn:L; simpl bind; [|discriminate].
    destruct (String.eqb (sell_dex o) (buy_dex o)) eqn:Edex;
      cbn [negb dex router token_in token_out].
    + destruct (String.eqb (sell_router o) "" || String.eqb (buy_router o) "");
        [discriminate|].
      intros H. inversion H; subst. cbn.
      split; [exact S|]. split; [exact L|]. right.
      repeat split; try reflexivity.
      all: exfalso; apply String.eqb_eq in Edex; congruence.
    + destruct (String.eqb (buy_router o) "" || String.eqb (sell_router o) "");
        [discriminate|].
      intros H. inversion H; subst. cbn.
      split; [exact S|]. split; [exact L|]. right.
      repeat split; reflexivity.
Qed.

(** Whatever token is borrowed, the route that is prepared for two different
    DEXes starts on the buy DEX and ends on the sell DEX.  When the quote
    token can be borrowed it is the loan asset and the first swap spends it.
    When only the trade token can be borrowed, the loan asset is the trade
    token, but the first swap still spends the quote token and the second
    one the trade token. *)
Theorem prepare_plan_starts_on_the_buy_dex
    (keccak : list Init.Byte.byte -> list Init.Byte.byte)
    (get_aave_liquidity : string -> Q) (get_token_decimals : string -> Z)
    (o : ArbitrageOpportunity) (p : plan) :
  prepare_plan keccak get_aave_liquidity get_token_decimals o = Val p ->
  buy_dex o <> sell_dex o ->
  first_dex p = buy_dex o /\ second_dex p = sell_dex o
  /\ first_router p = buy_router o /\ second_router p = sell_router o
  /\ (in_aave (quote_token_address o) = true ->
      flash_loan_asset p = quote_token_address o
      /\ to_checksum_address keccak (quote_token_address o)
         = Val (swap_token_in_1 p))
  /\ (in_aave (quote_token_address o) = false ->
      flash_loan_asset p = token_address o
      /\ swap_token_in_1 p = quote_token_address o
      /\ swap_token_out_1 p = token_address o
      /\ swap_token_in_2 p = token_address o
      /\ swap_token_out_2 p = quote_token_address o).
Proof.
  intros H Hdex. apply prepare_plan_inv in H.
  destruct H as (_ & _ & [(Aq & Ha & D1 & R1 & D2 & R2 & I1 & O1)
                         |(Aq & At & Ha & Hroute)]).
  - repeat split; try assumption; congruence.
  - destruct (Hroute Hdex) as (D1 & R1 & D2 & R2 & I1 & O1 & I2 & O2).
    repeat split; try assumption; congruence.
Qed.

Lemma prepare_plan_starts_on_the_buy_dex_witness :
  let p := Examples.trade_token_plan in
  first_dex p = "quickswap"%string /\ second_dex p = "sushiswap"%string
  /\ first_router p = buy_router Examples.weth_for_lowercase_usdc
  /\ second_router p = sell_router Examples.weth_for_lowercase_usdc
  /\ (in_aave (lower Examples.usdc) = true ->
      flash_loan_asset p = lower Examples.usdc
      /\ to_checksum_address Examples.toy_keccak (lower Examples.usdc)
         = Val (swap_token_in_1 p))
  /\ (in_aave (lower Examples.usdc) = false ->
      flash_loan_asset p = Examples.weth
      /\ swap_token_in_1 p = lower Examples.usdc
      /\ swap_token_out_1 p = Examples.weth
      /\ swap_token_in_2 p = Examples.weth
      /\ swap_token_out_2 p = lower Examples.usdc).
Proof.
  apply (prepare_plan_starts_on_the_buy_dex Examples.toy_keccak
           (fun _ => 0) (fun _ => 18%Z) Examples.weth_for_lowercase_usdc
           Examples.trade_token_plan).
  - vm_compute. reflexivity.
  - discriminate.
Defined.

(** Parameters are prepared only for a positive size, and the loan is the
    size in wei lifted to the minimum step of one millionth of a token: it
    is the larger of the two, and never negative. *)
Theorem prepare_plan_loan_amount
    (keccak : list Init.Byte.byte -> list Init.Byte.byte)
    (get_aave_liquidity : string -> Q) (get_token_decimals : string -> Z)
    (o : ArbitrageOpportunity) (p : plan) :
  prepare_plan keccak get_aave_liquidity get_token_decimals o = Val p ->
  let base_decimals := get_token_decimals (flash_loan_asset p) in
  0 < optimal_trade_size o
  /\ loan_amount p
     = Z.max (int (optimal_trade_size o * pow10 base_decimals))
             (int ((1 # 1000000) * pow10 base_decimals))
  /\ (0 <= loan_amount p)%Z.
Proof.
  intros H. cbn zeta. apply prepare_plan_inv in H.
  destruct H as (S & L & _). split; [exact S|].
  unfold loan_amount_of in L. cbn zeta in L.
  set (d := get_token_decimals (flash_loan_asset p)) in *.
  assert (Hmin : (0 <= int ((1 # 1000000) * pow10 d))%Z).
  { pose proof (AmmFacts.pow10_pos d) as P.
    assert (N : 0 <= (1 # 1000000) * pow10 d)
      by (apply Qmult_le_0_compat; [discriminate|now apply Qlt_le_weak]).
    rewrite ProfitFacts.int_floor by exact N.
    change 0%Z with (Qfloor 0). now apply Qfloor_resp_le. }
  destruct (_ <? _)%Z eqn:Low.
  - apply Z.ltb_lt in Low.
    apply Qle_bool_false in S. rewrite S in L. injection L as E.
    rewrite <- E. split; lia.
  - apply Z.ltb_ge in Low. injection L as E. rewrite <- E. split; lia.
Qed.

Lemma prepare_plan_loan_amount_witness :
  0 < optimal_trade_size Examples.weth_for_lowercase_usdc
  /\ loan_amount Examples.trade_token_plan
     = Z.max (int (optimal_trade_size Examples.weth_for_lowercase_usdc
                   * pow10 18))
             (int ((1 # 1000000) * pow10 18))
  /\ (0 <= loan_amount Examples.trade_token_plan)%Z.
Proof.
  apply (prepare_plan_loan_amount Examples.toy_keccak
           (fun _ => 0) (fun _ => 18%Z) Examples.weth_for_lowercase_usdc
           Examples.trade_token_plan).
  vm_compute. reflexivity.
Defined.

End FlashLoanFacts.

Module EvaluatorFacts.
Import Py PyFacts LutRuntime LutSpec LutFacts Config Bot BotFacts.
Open Scope Q_scope.

(** *** What an appended opportunity looks like *)

Lemma after_sizing_fields (cfg : config) (base_token_symbol : string)
    (spread : Q) (min_price_dex max_price_dex : venue)
    (returned : option counter * sizing) (pairs_have_code : bool)
    (o : ArbitrageOpportunity) :
  appended (after_sizing cfg base_token_symbol spread min_price_dex
                         max_price_dex returned pairs_have_code) = Some o ->
  0 < optimal_trade_size o
  /\ MIN_PROFIT_USD cfg <= expected_profit o
  /\ buy_dex o = v_dex min_price_dex /\ sell_dex o = v_dex max_price_dex
  /\ buy_price o = v_price min_price_dex
  /\ sell_price o = v_price max_price_dex
  /\ buy_router o = v_router min_price_dex
  /\ sell_router o = v_router max_price_dex
  /\ spread_percent o = spread.
Proof.
  unfold after_sizing.
  destruct (unpack (snd returned)) as [[[size profit] impact] flipped].
  destruct (Qeq_bool size 0 && Qeq_bool profit 0 && Qeq_bool impact 0);
    [discriminate|].
  destruct (Qle_bool size 0) eqn:E; [discriminate|].
  apply Qle_bool_false in E.
  destruct (Qlt_bool profit (MIN_PROFIT_USD cfg)) eqn:P; [discriminate|].
  apply Qlt_bool_false in P.
  destruct (negb (String.eqb (v_pair_address min_price_dex) "")
            && negb (String.eqb (v_pair_address max_price_dex) "")
            && negb pairs_have_code); [discriminate|].
  simpl. intros H. inversion H; subst. simpl. repeat split; assumption.
Qed.

(** Every opportunity the candidate loop appends joins two different DEXes
    that are both configured as V2 and both have a router; its buy side is
    the venue with the lower listed price, so its buy price is not above its
    sell price and its spread is the listed one; its size is positive and its
    expected profit is not below [MIN_PROFIT_USD]. *)
Theorem combination_appends_only_sound_candidates (cfg : config) (b : bot)
    (base_token_symbol : string) (flipped_before : option bool)
    (buy_venue sell_venue : venue) (chain : chain_reads)
    (pairs_have_code : bool) (p : pass) (o : ArbitrageOpportunity) :
  combination cfg b base_token_symbol flipped_before buy_venue sell_venue
              chain pairs_have_code = Val p ->
  appended p = Some o ->
  buy_dex o <> sell_dex o
  /\ dex_type cfg (buy_dex o) = "V2"%string
  /\ dex_type cfg (sell_dex o) = "V2"%string
  /\ buy_router o <> ""%string /\ sell_router o <> ""%string
  /\ buy_price o <= sell_price o
  /\ spread_percent o
     == (sell_price o - buy_price o) / buy_price o * 100
  /\ 0 < optimal_trade_size o
  /\ MIN_PROFIT_USD cfg <= expected_profit o.
Proof.
  unfold combination.
  destruct (String.eqb (v_dex buy_venue) (v_dex sell_venue)) eqn:Edex;
    [intros H; inversion H; subst; discriminate|].
  apply String.eqb_neq in Edex.
  set (cheaper := Qlt_bool (v_price buy_venue) (v_price sell_venue)).
  set (mn := if cheaper then buy_venue else sell_venue).
  set (mx := if cheaper then sell_venue else buy_venue).
  assert (Hprice : v_price mn <= v_price mx).
  { subst mn mx. destruct cheaper eqn:C; subst cheaper.
    - apply Qlt_bool_true in C. now apply Qlt_le_weak.
    - now apply Qlt_bool_false in C. }
  assert (Hdex : v_dex mn <> v_dex mx)
    by (subst mn mx; destruct cheaper; congruence).
  destruct (div (v_price mx - v_price mn) (v_price mn)) as [ratio|e] eqn:D;
    simpl bind; [|discriminate].
  assert (Hratio : ratio = (v_price mx - v_price mn) / v_price mn).
  { unfold div in D. destruct (Qeq_bool (v_price mn) 0); [discriminate|].
    now inversion D. }
  destruct (String.eqb (v_router mn) "") eqn:R1;
    [intros H; inversion H; subst; discriminate|].
  destruct (String.eqb (v_router mx) "") eqn:R2;
    [intros H; inversion H; subst; discriminate|].
  simpl orb. cbv iota. cbn zeta.
  apply String.eqb_neq in R1. apply String.eqb_neq in R2.
  destruct (String.eqb (dex_type cfg (v_dex mn)) "V2") eqn:T1;
    [|intros H; inversion H; subst; discriminate].
  destruct (String.eqb (dex_type cfg (v_dex mx)) "V2") eqn:T2;
    [|intros H; inversion H; subst; discriminate].
  simpl. apply String.eqb_eq in T1. apply String.eqb_eq in T2.
  destruct (find_optimal_trade_size _ _ _ _) as [returned|e]; simpl bind;
    [|discriminate].
  intros H A. inversion H; subst p. clear H.
  apply after_sizing_fields in A.
  destruct A as (S & P & B & Sd & Bp & Sp & Br & Sr & Spr).
  rewrite B, Sd, Bp, Sp, Br, Sr, Spr, Hratio.
  repeat split; try assumption; try reflexivity.
Qed.

Lemma combination_appends_only_sound_candidates_witness :
  buy_dex Examples.appended_opportunity
  <> sell_dex Examples.appended_opportunity
  /\ dex_type shipped (buy_dex Examples.appended_opportunity) = "V2"%string
  /\ dex_type shipped (sell_dex Examples.appended_opportunity) = "V2"%string
  /\ buy_router Examples.appended_opportunity <> ""%string
  /\ sell_router Examples.appended_opportunity <> ""%string
  /\ buy_price Examples.appended_opportunity
     <= sell_price Examples.appended_opportunity
  /\ spread_percent Examples.appended_opportunity
     == (sell_price Examples.appended_opportunity
         - buy_price Examples.appended_opportunity)
        / buy_price Examples.appended_opportunity * 100
  /\ 0 < optimal_trade_size Examples.appended_opportunity
  /\ MIN_PROFIT_USD shipped <= expected_profit Examples.appended_opportunity.
Proof.
  apply (combination_appends_only_sound_candidates shipped Examples.bot5
           "USDC" None Examples.on_quickswap Examples.on_sushiswap
           Examples.chain_as_listed true Examples.appended_pass
           Examples.appended_opportunity).
  - vm_compute. reflexivity.
  - vm_compute. reflexivity.
Defined.

(** *** Reserves that come from the fetcher *)

(** [is_address] is the test [Web3.to_checksum_address] makes. *)
Lemma is_address_to_checksum_address
    (keccak : list Init.Byte.byte -> list Init.Byte.byte) (value : string) :
  is_val (to_checksum_address keccak value) = is_address value.
Proof.
  unfold to_checksum_address, is_address. cbn zeta.
  now destruct ((String.length (clean (lower value)) =? 40)%nat
                && all_hex (clean (lower value))).
Qed.

(** With the ANKR provider, when the batch reply carries an entry for both
    pairs, the evaluator does not survive them: no step of the address
    resolution runs, the entries carry no token address, and reading the
    lower-case text of the buy entry's [token0] raises [AttributeError]
    before any price is computed. *)
Theorem find_optimal_trade_size_raises_on_fetcher_reserves (cfg : config)
    (b : bot) (grid : LutRuntime.lut) (opportunity : opportunity_data)
    (chain : chain_reads) (m : gmap string AnkrReserves.reserves)
    (buy sell : AnkrReserves.reserves) :
  lut b = Some grid ->
  od_buy_pair opportunity <> ""%string ->
  od_sell_pair opportunity <> ""%string ->
  buy_is_v2 chain = true -> sell_is_v2 chain = true ->
  ankr_provider chain = true ->
  AnkrReserves.get_reserves_batch
    (ankr_reply chain)
    [od_buy_pair opportunity; od_sell_pair opportunity] = Val m ->
  m !! od_buy_pair opportunity = Some buy ->
  m !! od_sell_pair opportunity = Some sell ->
  find_optimal_trade_size cfg b opportunity chain = Raise AttributeError.
Proof.
  intros Hlut Hb Hs Vb Vs Hankr Hm Kb Ks.
  destruct (AnkrFacts.get_reserves_batch_tokens _ _ _ _ _ Hm Kb) as [T0 _].
  unfold find_optimal_trade_size. rewrite Hlut.
  apply String.eqb_neq in Hb. apply String.eqb_neq in Hs.
  rewrite Hb, Hs, Vb, Vs. simpl orb. cbv iota.
  unfold fetch_and_filter. rewrite Hankr, Hm. simpl bind.
  rewrite Kb, Ks. unfold resolve. simpl bind. cbn [fst snd].
  unfold onchain_filter, price_onchain. rewrite T0. reflexivity.
Qed.

Lemma find_optimal_trade_size_raises_on_fetcher_reserves_witness :
  find_optimal_trade_size shipped Examples.bot5 Examples.listed_opportunity
                          Examples.chain_from_fetcher
  = Raise AttributeError.
Proof.
  apply (find_optimal_trade_size_raises_on_fetcher_reserves shipped
           Examples.bot5 Examples.grid5 Examples.listed_opportunity
           Examples.chain_from_fetcher Examples.two_pool_map
           Examples.fetched_pool
           {| AnkrReserves.reserve0 := 1010000000000;
              AnkrReserves.reserve1 := 500000000000000000000;
              AnkrReserves.token0 := None;
              AnkrReserves.token1 := None |});
    try reflexivity; discriminate.
Defined.

(** *** The address resolution *)

(** With the ANKR provider, when the batch has no entry for the buy pair
    and code is found at the CREATE2 address derived for it, the evaluator
    raises [UnboundLocalError]: the check that follows the CREATE2 branch
    reads [factory_pair_data], which only the other branches assign.  The
    reserves read at the derived address are lost with it. *)
Theorem find_optimal_trade_size_raises_after_create2 (cfg : config)
    (b : bot) (grid : LutRuntime.lut) (opportunity : opportunity_data)
    (chain : chain_reads) (m : gmap string AnkrReserves.reserves) :
  lut b = Some grid ->
  od_buy_pair opportunity <> ""%string ->
  od_sell_pair opportunity <> ""%string ->
  buy_is_v2 chain = true -> sell_is_v2 chain = true ->
  ankr_provider chain = true ->
  AnkrReserves.get_reserves_batch
    (ankr_reply chain)
    [od_buy_pair opportunity; od_sell_pair opportunity] = Val m ->
  m !! od_buy_pair opportunity = None ->
  od_buy_router opportunity <> ""%string ->
  od_buy_dex opportunity <> ""%string ->
  is_address (od_base_token_address opportunity) = true ->
  is_address (od_trade_token_address opportunity) = true ->
  has_create2 cfg (od_buy_dex opportunity) = true ->
  create2_has_code (buy_resolution chain) = Val true ->
  find_optimal_trade_size cfg b opportunity chain = Raise unbound_local.
Proof.
  intros Hlut Hb Hs Vb Vs Hankr Hm Kb Hr Hd Ab At Hc Hcode.
  unfold find_optimal_trade_size. rewrite Hlut.
  apply String.eqb_neq in Hb. apply String.eqb_neq in Hs.
  rewrite Hb, Hs, Vb, Vs. simpl orb. cbv iota.
  unfold fetch_and_filter. rewrite Hankr, Hm. simpl bind.
  rewrite Kb. unfold resolve at 1.
  apply String.eqb_neq in Hr. apply String.eqb_neq in Hd.
  cbn zeta. rewrite Hr. cbv iota. rewrite Hr, Hd, Ab, At. simpl orb.
  cbv iota. rewrite Hc, Hcode. reflexivity.
Qed.

Lemma find_optimal_trade_size_raises_after_create2_witness :
  find_optimal_trade_size shipped Examples.bot5 Examples.listed_opportunity
                          Examples.chain_create2_live
  = Raise unbound_local.
Proof.
  apply (find_optimal_trade_size_raises_after_create2 shipped
           Examples.bot5 Examples.grid5 Examples.listed_opportunity
           Examples.chain_create2_live ∅);
    try reflexivity; discriminate.
Defined.

(** *** The spread filter *)

(** Once both on-chain prices are positive, the filter works on the two
    prices in ascending order, so the spread it computes is never negative.
    It returns the tuple of zeros with the counter [n_low_spread_onchain]
    exactly when that spread, in percent, is below [MIN_SPREAD_PERCENT]; and
    whenever the evaluation goes on, the spread used for sizing is that
    on-chain spread as a fraction, and [flipped] tells whether the sell price
    was not above the buy price. *)
Theorem onchain_spread_filter (cfg : config) (b : bot)
    (base_token : string) (spread : Q)
    (buy_reserves sell_reserves : AnkrReserves.reserves)
    (buy_price_onchain sell_price_onchain : Q) :
  price_onchain b base_token buy_reserves = Val buy_price_onchain ->
  price_onchain b base_token sell_reserves = Val sell_price_onchain ->
  0 < buy_price_onchain -> 0 < sell_price_onchain ->
  let swap := Qle_bool sell_price_onchain buy_price_onchain in
  let buy_price := if swap then sell_price_onchain else buy_price_onchain in
  let sell_price := if swap then buy_price_onchain else sell_price_onchain in
  let spread_onchain := (sell_price - buy_price) / buy_price * 100 in
  0 <= spread_onchain
  /\ (spread_onchain < MIN_SPREAD_PERCENT cfg
      <-> onchain_filter cfg b base_token spread buy_reserves sell_reserves
          = Val (Returned (Some n_low_spread_onchain) (Ret4 0 0 0 false)))
  /\ (forall st : locals,
        onchain_filter cfg b base_token spread buy_reserves sell_reserves
        = Val (Continues st) ->
        l_spread st = spread_onchain / 100
        /\ MIN_SPREAD_PERCENT cfg <= spread_onchain
        /\ l_flipped st = Some swap).
Proof.
  intros Hpb Hps Hb Hs swap buy_price sell_price spread_onchain.
  assert (Hord : 0 < buy_price /\ buy_price <= sell_price).
  { subst buy_price sell_price. destruct swap eqn:W; subst swap.
    - apply Qle_bool_iff in W. split; assumption.
    - apply Qle_bool_false in W. split; [assumption|now apply Qlt_le_weak]. }
  destruct Hord as [Hpos Hle].
  assert (Hnonneg : 0 <= spread_onchain).
  { subst spread_onchain.
    apply Qmult_le_0_compat; [|discriminate].
    apply Qle_shift_div_l; [exact Hpos|]. lra. }
  assert (Step :
    onchain_filter cfg b base_token spread buy_reserves sell_reserves
    = if Qlt_bool spread_onchain (MIN_SPREAD_PERCENT cfg)
      then Val (Returned (Some n_low_spread_onchain) (Ret4 0 0 0 false))
      else
        let buy_res := if swap then sell_reserves else buy_reserves in
        let sell_res := if swap then buy_reserves else sell_reserves in
        let* t0 := token_lower (AnkrReserves.token0 buy_res) in
        let base_reserve_raw :=
          if String.eqb t0 (lower base_token)
          then AnkrReserves.reserve0 buy_res
          else AnkrReserves.reserve1 buy_res in
        let liquidity_usd :=
          calculate_liquidity_usd cfg b base_reserve_raw base_token
                                  (get_token_decimals b base_token) in
        if Qlt_bool liquidity_usd (MIN_LIQUIDITY_USD cfg)
        then Val (Returned (Some n_low_liquidity_usd) (Ret4 0 0 0 false))
        else Val (Continues {| l_spread := spread_onchain / 100;
                               l_buy_reserves := Some buy_res;
                               l_sell_reserves := Some sell_res;
                               l_flipped := Some swap |})).
  { unfold onchain_filter. rewrite Hpb, Hps. simpl bind.
    assert (G : Qgt_bool buy_price_onchain 0 && Qgt_bool sell_price_onchain 0
                = true).
    { apply andb_true_iff. split; now apply Qlt_bool_true. }
    rewrite G. reflexivity. }
  rewrite Step. split; [exact Hnonneg|].
  destruct (Qlt_bool spread_onchain (MIN_SPREAD_PERCENT cfg)) eqn:L.
  - apply Qlt_bool_true in L. split.
    + split; [reflexivity|intros _; exact L].
    + intros st H. discriminate.
  - apply Qlt_bool_false in L. cbn zeta. split.
    + split.
      * intros H. exfalso. apply (Qlt_irrefl spread_onchain).
        eapply Qlt_le_trans; eassumption.
      * destruct (token_lower _) as [t0|e]; simpl bind; [|discriminate].
        destruct (Qlt_bool _ (MIN_LIQUIDITY_USD cfg)); discriminate.
    + intros st.
      destruct (token_lower _) as [t0|e]; simpl bind; [|discriminate].
      destruct (Qlt_bool _ (MIN_LIQUIDITY_USD cfg)); [discriminate|].
      intros H. inversion H; subst. simpl. auto.
Qed.

Lemma onchain_spread_filter_witness :
  let buy_price_onchain :=
    calculate_mid_price_from_reserves
      1010000000000 500000000000000000000 6 18 true in
  let sell_price_onchain :=
    calculate_mid_price_from_reserves
      1000000000000 500000000000000000000 6 18 true in
  let swap := Qle_bool sell_price_onchain buy_price_onchain in
  let buy_price := if swap then sell_price_onchain else buy_price_onchain in
  let sell_price := if swap then buy_price_onchain else sell_price_onchain in
  let spread_onchain := (sell_price - buy_price) / buy_price * 100 in
  0 <= spread_onchain
  /\ (spread_onchain < MIN_SPREAD_PERCENT shipped
      <-> onchain_filter shipped Examples.bot5 Examples.usdc 1
                         Examples.pool_2020 Examples.pool_2000
          = Val (Returned (Some n_low_spread_onchain) (Ret4 0 0 0 false)))
  /\ (forall st : locals,
        onchain_filter shipped Examples.bot5 Examples.usdc 1
                       Examples.pool_2020 Examples.pool_2000
        = Val (Continues st) ->
        l_spread st = spread_onchain / 100
        /\ MIN_SPREAD_PERCENT shipped <= spread_onchain
        /\ l_flipped st = Some swap).
Proof.
  exact (onchain_spread_filter shipped Examples.bot5 Examples.usdc 1
           Examples.pool_2020 Examples.pool_2000
           (calculate_mid_price_from_reserves
              1010000000000 500000000000000000000 6 18 true)
           (calculate_mid_price_from_reserves
              1000000000000 500000000000000000000 6 18 true)
           eq_refl eq_refl eq_refl eq_refl).
Defined.

(** *** The price used for liquidity *)

Lemma lower_ascii_idempotent (c : ascii) :
  lower_ascii (lower_ascii c) = lower_ascii c.
Proof.
  destruct c as [[|] [|] [|] [|] [|] [|] [|] [|]]; reflexivity.
Qed.

Lemma lower_idempotent (s : string) : lower (lower s) = lower s.
Proof.
  induction s as [|c s IH]; simpl; [reflexivity|].
  now rewrite lower_ascii_idempotent, IH.
Qed.

Lemma lookup_lower_misses {A} (d : list (string * A)) (a : string) :
  forallb (fun kv => negb (String.eqb (lower (fst kv)) (fst kv))) d = true ->
  lookup (lower a) d = None.
Proof.
  induction d as [|[k v] rest IH]; simpl; [reflexivity|].
  intros H. apply andb_true_iff in H. destruct H as [Hk Hrest].
  destruct (String.eqb k (lower a)) eqn:E; [|now apply IH].
  apply String.eqb_eq in E. subst k.
  rewrite lower_idempotent, String.eqb_refl in Hk. discriminate.
Qed.

(** When no key of [base_tokens] is written in lower case only (the
    dictionary of the bot is keyed by mixed-case addresses), the lookup by
    symbol never finds anything: the liquidity is computed with the price of
    [BASE_TOKEN_USD_PRICES] alone, and is zero for a token that has no
    price there. *)
Theorem calculate_liquidity_usd_ignores_symbols (cfg : config) (b : bot)
    (reserve_base : Z) (base_token_address : string) (base_decimals : Z) :
  forallb (fun kv => negb (String.eqb (lower (fst kv)) (fst kv)))
          (base_tokens b) = true ->
  calculate_liquidity_usd cfg b reserve_base base_token_address base_decimals
  == 2 * (inject_Z reserve_base / pow10 base_decimals)
     * get_or (lower base_token_address) (BASE_TOKEN_USD_PRICES cfg) 0.
Proof.
  intros H. unfold calculate_liquidity_usd, base_price_usd_of. cbn zeta.
  destruct (Qeq_bool _ 0) eqn:E; [|reflexivity].
  apply Qeq_bool_iff in E. rewrite E.
  unfold get_or at 1. rewrite (lookup_lower_misses _ _ H).
  reflexivity.
Qed.

Lemma calculate_liquidity_usd_ignores_symbols_witness :
  calculate_liquidity_usd shipped Examples.bot_with_base_tokens
                          1000000000000000000 Examples.unpriced_token 18
  == 2 * (inject_Z 1000000000000000000 / pow10 18)
     * get_or (lower Examples.unpriced_token)
              (BASE_TOKEN_USD_PRICES shipped) 0.
Proof.
  apply calculate_liquidity_usd_ignores_symbols. reflexivity.
Defined.

End EvaluatorFacts.

Module ParseReservesFacts.
Import Py AnkrReserves AnkrDecimals AbiWords.

(** The single-reply decoder recovers the two reserves of a well-formed
    reply and files them under the first pair; with no pair to file them
    under it raises [IndexError]. *)
Theorem _parse_reserves_decodes_reply (f : list (string * json))
    (r0 r1 ts : Z) (pairs : list string) :
  dict_get "result" f = Some (JStr (getReserves_reply r0 r1 ts)) ->
  (0 <= r0 < 2 ^ 256)%Z -> (0 <= r1 < 2 ^ 256)%Z ->
  _parse_reserves (JDict f) pairs
  = match pairs with
    | first :: _ => Val {[ first := (r0, r1) ]}
    | [] => Raise IndexError
    end.
Proof.
  intros Hf H0 H1. unfold _parse_reserves. simpl contains. rewrite Hf.
  simpl bind. rewrite Hf. simpl bind.
  destruct (AnkrDecode.slice_words (abi_word r0) (abi_word r1) (abi_word ts)
              (AnkrDecode.length_digits _ _) (AnkrDecode.length_digits _ _)
              (AnkrDecode.length_digits _ _))
    as (Ls & S0 & S1).
  fold (getReserves_reply r0 r1 ts) in Ls, S0, S1.
  unfold word_gt, len. rewrite Ls. unfold bind.
  change (66 <? 194)%nat with true. change (130 <? 194)%nat with true.
  cbv iota.
  rewrite S0, S1, (AnkrDecode.int16_abi_word r0 H0),
    (AnkrDecode.int16_abi_word r1 H1).
  destruct pairs; reflexivity.
Qed.

Lemma _parse_reserves_decodes_reply_witness :
  _parse_reserves (JDict [("result", JStr (getReserves_reply 1000 2000 0))])
                  [Examples.pair_a; Examples.pair_b]
  = Val {[ Examples.pair_a := (1000%Z, 2000%Z) ]}.
Proof.
  apply (_parse_reserves_decodes_reply
           [("result", JStr (getReserves_reply 1000 2000 0))] 1000 2000 0
           [Examples.pair_a; Examples.pair_b]).
  - reflexivity.
  - lia.
  - lia.
Defined.

End ParseReservesFacts.
